(** * pxshot-c: the bundled JSON library and the response buffer

    A shallow embedding of [include/cJSON.h] (document model, recursive-descent
    parser, two-pass printer, construction functions) and of the growable
    response buffer of [include/pxshot.h] ([pxshot_write_callback]).

    Conventions of the embedding:
    - a C string is the list of its bytes before the terminating NUL; the
      memory holding it is that list followed by one NUL byte;
    - a [const unsigned char *] into the parsed text is an offset into that
      memory, [None] standing for the C null pointer; a read outside the
      memory is a [Fault];
    - the sibling list of the C structure ([next], [child]) is kept as it is:
      a node holds its next sibling and its first child.  The [prev] field is
      written by the C code and never read, and is left out;
    - [malloc]/[realloc] may fail: the allocator state carries the number of
      live blocks and an oracle telling which requests are refused;
    - [double] is the kernel's binary64 type; [int] is a [Z] in 32-bit range. *)

From Stdlib Require Import ZArith List Ascii Bool Floats Lia.
From Stdlib Require String DecimalString DecimalZ DecimalPos.
Import ListNotations.
Import String.StringSyntax.

Local Open Scope string_scope.
Local Open Scope Z_scope.

(* ================================================================== *)
(** ** Bytes and C strings *)

Definition cstr := list ascii.

Definition lit (s : String.string) : cstr := String.list_ascii_of_string s.

Definition code (c : ascii) : Z := Z.of_N (N_of_ascii c).

Definition NUL : ascii := Ascii.zero.
Definition quote : ascii := "034"%char.
Definition backslash : ascii := "\"%char.

(** The bytes of [s] with every apostrophe replaced by a double quote: lets
    a JSON text be written as one literal. *)
Definition json (s : String.string) : cstr :=
  map (fun c => if Ascii.eqb c "'"%char then quote else c) (lit s).

(** The memory a C string occupies, and a read at an offset. *)
Definition memory (buf : cstr) : list ascii := buf ++ [NUL].

Definition deref (buf : cstr) (p : nat) : option ascii := nth_error (memory buf) p.

(** A C string as read back from a byte array: the bytes before the first NUL. *)
Fixpoint as_cstring (bytes : list ascii) : cstr :=
  match bytes with
  | [] => []
  | c :: rest => if Ascii.eqb c NUL then [] else c :: as_cstring rest
  end.

Definition strlen (s : cstr) : Z := Z.of_nat (length s).

Definition cstr_eqb (a b : cstr) : bool :=
  if list_eq_dec ascii_dec a b then true else false.

(** [strcmp a b] is zero exactly when the strings are equal; only that is
    used by the library. *)
Definition strcmp (a b : cstr) : Z := if cstr_eqb a b then 0 else 1.

(* ================================================================== *)
(** ** Machine integers *)

Definition INT_MAX : Z := 2147483647.
Definition INT_MIN : Z := -2147483648.

(** Signed 32-bit wrap-around. *)
Definition wrap_int (z : Z) : Z := (z + 2 ^ 31) mod 2 ^ 32 - 2 ^ 31.

(** [size_t] on the 64-bit targets the SDK builds for. *)
Definition SIZE_MOD : Z := 2 ^ 64.
Definition wrap_size (z : Z) : Z := z mod SIZE_MOD.

(* ================================================================== *)
(** ** Doubles *)

Module Dbl.

Definition DBL_EPSILON : float := Eval cbv in SF2Prim (S754_finite false 4503599627370496 (-104)).

(** The exact integer part (toward zero) of a finite double. *)
Definition trunc (d : float) : option Z :=
  match Prim2SF d with
  | S754_zero _ => Some 0
  | S754_finite s m e =>
      let v := if 0 <=? e then Z.pos m * 2 ^ e else Z.pos m / 2 ^ (- e) in
      Some (if s then - v else v)
  | _ => None
  end.

(** The C conversion [(int)d].  It truncates; when the truncated value is
    not an [int] (or [d] is not finite) C leaves the result undefined, and
    the x86-64 conversion instruction yields [INT_MIN], which is what is
    modelled. *)
Definition to_int (d : float) : Z :=
  match trunc d with
  | Some z => if (INT_MIN <=? z) && (z <=? INT_MAX) then z else INT_MIN
  | None => INT_MIN
  end.

(** The C conversion [(double)z] of an [int]; exact. *)
Definition of_int (z : Z) : float :=
  SF2Prim (binary_normalize prec emax z 0 false).

(** [10^k] rounded to the nearest double (ties to even). *)
Definition pow10Z (k : Z) : float :=
  if 310 <? k then infinity
  else if k <? -400 then 0%float
  else if 0 <=? k then SF2Prim (binary_normalize prec emax (10 ^ k) 0 false)
  else
    let den := 10 ^ (- k) in
    let q := 2 ^ 1400 / den in
    let sticky := if 2 ^ 1400 mod den =? 0 then 0 else 1 in
    SF2Prim (binary_normalize prec emax (2 * q + sticky) (-1401) false).

(** libm's [pow(10.0, y)], for the integral [y] the parser passes it. *)
Definition pow10 (y : float) : float :=
  match Prim2SF y with
  | S754_nan => nan
  | S754_infinity false => infinity
  | S754_infinity true => 0%float
  | _ => match trunc y with Some k => pow10Z k | None => nan end
  end.

End Dbl.

(* ================================================================== *)
(** ** [sprintf] conversions *)

Module Fmt.

Fixpoint digits (d : Decimal.uint) : cstr :=
  match d with
  | Decimal.Nil => []
  | Decimal.D0 d => "0"%char :: digits d
  | Decimal.D1 d => "1"%char :: digits d
  | Decimal.D2 d => "2"%char :: digits d
  | Decimal.D3 d => "3"%char :: digits d
  | Decimal.D4 d => "4"%char :: digits d
  | Decimal.D5 d => "5"%char :: digits d
  | Decimal.D6 d => "6"%char :: digits d
  | Decimal.D7 d => "7"%char :: digits d
  | Decimal.D8 d => "8"%char :: digits d
  | Decimal.D9 d => "9"%char :: digits d
  end.

(** ["%d"] *)
Definition sprintf_d (z : Z) : cstr :=
  match Z.to_int z with
  | Decimal.Pos d => digits d
  | Decimal.Neg d => "-"%char :: digits d
  end.

(** Decimal digits of a natural number, left-padded with zeros to [width]. *)
Definition padded (width : nat) (z : Z) : cstr :=
  let ds := sprintf_d z in
  repeat "0"%char (width - length ds) ++ ds.

Fixpoint strip_zeros_rev (r : cstr) : cstr :=
  match r with
  | c :: r' => if Ascii.eqb c "0"%char then strip_zeros_rev r' else r
  | [] => []
  end.

(** Removes the trailing zeros of a fractional part. *)
Definition strip_zeros (s : cstr) : cstr := rev (strip_zeros_rev (rev s)).

Definition with_fraction (int_part frac : cstr) : cstr :=
  match strip_zeros frac with
  | [] => int_part
  | f => int_part ++ "."%char :: f
  end.

(** Rounding [num/den] to the nearest integer, ties to even. *)
Definition round_half_even (num den : Z) : Z :=
  let q := num / den in
  let r := num mod den in
  match 2 * r ?= den with
  | Lt => q
  | Gt => q + 1
  | Eq => if Z.even q then q else q + 1
  end.

(** The greatest [x] with [10^x <= num/den], searched downward from [x]. *)
Fixpoint exponent10 (fuel : nat) (num den x : Z) : Z :=
  match fuel with
  | O => x
  | S fuel' =>
      let ok := if 0 <=? x then den * 10 ^ x <=? num else den <=? num * 10 ^ (- x) in
      if ok then x else exponent10 fuel' num den (x - 1)
  end.

(** ["%g"] with the default precision 6, for a positive finite value
    [m * 2^e]: six significant digits, ties to even on the exact value;
    style [e] when the decimal exponent is below -4 or at least 6, style
    [f] otherwise; trailing zeros and a bare point removed. *)
Definition g_finite (m : positive) (e : Z) : cstr :=
  let num := if 0 <=? e then Z.pos m * 2 ^ e else Z.pos m in
  let den := if 0 <=? e then 1 else 2 ^ (- e) in
  let x0 := exponent10 700 num den 310 in
  let scaled x := if 0 <=? 5 - x
                  then round_half_even (num * 10 ^ (5 - x)) den
                  else round_half_even num (den * 10 ^ (x - 5)) in
  let d0 := scaled x0 in
  let x := if d0 =? 1000000 then x0 + 1 else x0 in
  let d := if d0 =? 1000000 then 100000 else d0 in
  let ds := sprintf_d d in
  if (x <? -4) || (6 <=? x) then
    with_fraction (firstn 1 ds) (skipn 1 ds)
      ++ "e"%char :: (if x <? 0 then "-"%char else "+"%char) :: padded 2 (Z.abs x)
  else if 0 <=? x then
    with_fraction (firstn (Z.to_nat (x + 1)) ds) (skipn (Z.to_nat (x + 1)) ds)
  else
    with_fraction (lit "0") (repeat "0"%char (Z.to_nat (- x - 1)) ++ ds).

(** ["%g"] *)
Definition sprintf_g (d : float) : cstr :=
  match Prim2SF d with
  | S754_zero false => lit "0"
  | S754_zero true => lit "-0"
  | S754_infinity false => lit "inf"
  | S754_infinity true => lit "-inf"
  | S754_nan => lit "nan"
  | S754_finite false m e => g_finite m e
  | S754_finite true m e => "-"%char :: g_finite m e
  end.

End Fmt.

(* ================================================================== *)
(** ** The allocator and the monad of the library's functions *)

(** What the allocator has handed out and not yet taken back, and how many
    requests it has seen. *)
Record heap : Type := mkHeap { nodes : Z; strings : Z; requests : nat }.

Inductive block : Type := NodeBlock | StringBlock.

(** A run returns a value and the allocator state it leaves, or reads
    outside an object ([Fault]: undefined behaviour in C), or exhausts the
    step budget given to a loop of the model ([OutOfFuel]). *)
Inductive result (A : Type) : Type :=
| Val (a : A) (h : heap)
| Fault
| OutOfFuel.
Arguments Val {A} a h.
Arguments Fault {A}.
Arguments OutOfFuel {A}.

Definition M (A : Type) : Type := heap -> result A.

Definition ret {A} (a : A) : M A := fun h => Val a h.

Definition bind {A B} (m : M A) (k : A -> M B) : M B :=
  fun h => match m h with
           | Val a h' => k a h'
           | Fault => Fault
           | OutOfFuel => OutOfFuel
           end.

Definition fault {A} : M A := fun _ => Fault.
Definition out_of_fuel {A} : M A := fun _ => OutOfFuel.

Declare Scope monad_scope.
Delimit Scope monad_scope with monad.
Notation "x <- m ;; k" := (bind m (fun x => k))
  (at level 61, m at next level, right associativity) : monad_scope.
Notation "' pat <- m ;; k" := (bind m (fun x => match x with pat => k end))
  (at level 61, pat pattern, m at next level, right associativity) : monad_scope.
Notation "m ;;; k" := (bind m (fun _ => k))
  (at level 61, right associativity) : monad_scope.
Local Open Scope monad_scope.

(* ================================================================== *)
(** ** The document model *)

Definition cJSON_Invalid : Z := 0.
Definition cJSON_False : Z := Z.shiftl 1 0.
Definition cJSON_True : Z := Z.shiftl 1 1.
Definition cJSON_NULL : Z := Z.shiftl 1 2.
Definition cJSON_Number : Z := Z.shiftl 1 3.
Definition cJSON_String : Z := Z.shiftl 1 4.
Definition cJSON_Array : Z := Z.shiftl 1 5.
Definition cJSON_Object : Z := Z.shiftl 1 6.
Definition cJSON_Raw : Z := Z.shiftl 1 7.
Definition cJSON_IsReference : Z := 256.
Definition cJSON_StringIsConst : Z := 512.

(** [struct cJSON] and [cJSON *]. *)
Inductive cJSON : Type :=
| mkJSON (next child : ptr) (type : Z) (valuestring : option cstr)
         (valueint : Z) (valuedouble : float) (string : option cstr)
with ptr : Type :=
| NULL
| Ptr (c : cJSON).

Scheme cJSON_mut := Induction for cJSON Sort Prop
  with ptr_mut := Induction for ptr Sort Prop.
Combined Scheme cJSON_ptr_ind from cJSON_mut, ptr_mut.

Definition next (c : cJSON) : ptr := let 'mkJSON n _ _ _ _ _ _ := c in n.
Definition child (c : cJSON) : ptr := let 'mkJSON _ ch _ _ _ _ _ := c in ch.
Definition type (c : cJSON) : Z := let 'mkJSON _ _ t _ _ _ _ := c in t.
Definition valuestring (c : cJSON) : option cstr := let 'mkJSON _ _ _ v _ _ _ := c in v.
Definition valueint (c : cJSON) : Z := let 'mkJSON _ _ _ _ i _ _ := c in i.
Definition valuedouble (c : cJSON) : float := let 'mkJSON _ _ _ _ _ d _ := c in d.
Definition string (c : cJSON) : option cstr := let 'mkJSON _ _ _ _ _ _ s := c in s.

Definition set_next (c : cJSON) (n : ptr) : cJSON :=
  let 'mkJSON _ ch t v i d s := c in mkJSON n ch t v i d s.
Definition set_child (c : cJSON) (ch : ptr) : cJSON :=
  let 'mkJSON n _ t v i d s := c in mkJSON n ch t v i d s.
Definition set_type (c : cJSON) (t : Z) : cJSON :=
  let 'mkJSON n ch _ v i d s := c in mkJSON n ch t v i d s.
Definition set_valuestring (c : cJSON) (v : option cstr) : cJSON :=
  let 'mkJSON n ch t _ i d s := c in mkJSON n ch t v i d s.
Definition set_valueint (c : cJSON) (i : Z) : cJSON :=
  let 'mkJSON n ch t v _ d s := c in mkJSON n ch t v i d s.
Definition set_valuedouble (c : cJSON) (d : float) : cJSON :=
  let 'mkJSON n ch t v i _ s := c in mkJSON n ch t v i d s.
Definition set_string (c : cJSON) (s : option cstr) : cJSON :=
  let 'mkJSON n ch t v i d _ := c in mkJSON n ch t v i d s.

(** [(type & flag) != 0] *)
Definition has_flag (t flag : Z) : bool := negb (Z.land t flag =? 0).

Definition is_null (p : ptr) : bool := match p with NULL => true | Ptr _ => false end.
Definition no_string (s : option cstr) : bool := match s with None => true | Some _ => false end.

(** The node [memset] leaves. *)
Definition zeroed : cJSON := mkJSON NULL NULL 0 None 0 0%float None.

Section Library.

(** [refused k]: the allocator turns down its [k]-th request. *)
Variable refused : nat -> bool.

Definition cJSON_malloc (b : block) : M bool := fun h =>
  let h' := mkHeap (nodes h) (strings h) (S (requests h)) in
  if refused (requests h) then Val false h'
  else match b with
       | NodeBlock => Val true (mkHeap (nodes h + 1) (strings h) (S (requests h)))
       | StringBlock => Val true (mkHeap (nodes h) (strings h + 1) (S (requests h)))
       end.

Definition cJSON_free (b : block) : M unit := fun h =>
  match b with
  | NodeBlock => Val tt (mkHeap (nodes h - 1) (strings h) (requests h))
  | StringBlock => Val tt (mkHeap (nodes h) (strings h - 1) (requests h))
  end.

(** [free] of a string pointer that may be null. *)
Definition free_string (s : option cstr) : M unit :=
  match s with None => ret tt | Some _ => cJSON_free StringBlock end.

Definition cJSON_New_Item : M ptr :=
  ok <- cJSON_malloc NodeBlock ;;
  if ok then ret (Ptr zeroed) else ret NULL.

Definition cJSON_strdup (str : cstr) : M (option cstr) :=
  ok <- cJSON_malloc StringBlock ;;
  if ok then ret (Some str) else ret None.

Fixpoint cJSON_Delete (item : ptr) : M unit :=
  match item with
  | NULL => ret tt
  | Ptr (mkJSON next child type valuestring _ _ string) =>
      (if negb (has_flag type cJSON_IsReference) && negb (is_null child)
       then cJSON_Delete child else ret tt) ;;;
      (if negb (has_flag type cJSON_IsReference) && negb (no_string valuestring)
       then cJSON_free StringBlock else ret tt) ;;;
      (if negb (has_flag type cJSON_StringIsConst) && negb (no_string string)
       then cJSON_free StringBlock else ret tt) ;;;
      cJSON_free NodeBlock ;;;
      cJSON_Delete next
  end.

(* ---------------------------------------------------------------- *)
(** *** Parse functions *)

Section Parser.

(** The text handed to [cJSON_Parse]. *)
Variable buf : cstr.

(** Every loop of the parser advances its cursor, so it runs at most
    once per byte of the memory. *)
Definition steps : nat := S (S (length buf)).

Definition load (p : nat) : M ascii := fun h =>
  match deref buf p with
  | Some c => Val c h
  | None => Fault
  end.

Definition is_digit (c : ascii) : bool := (code "0" <=? code c) && (code c <=? code "9").
Definition is_digit19 (c : ascii) : bool := (code "1" <=? code c) && (code c <=? code "9").

Fixpoint skip_whitespace_loop (fuel : nat) (p : nat) : M nat :=
  match fuel with
  | O => out_of_fuel
  | S fuel' =>
      c <- load p ;;
      if negb (Ascii.eqb c NUL) && (code c <=? 32)
      then skip_whitespace_loop fuel' (S p)
      else ret p
  end.

Definition skip_whitespace (in_ : option nat) : M (option nat) :=
  match in_ with
  | None => ret None
  | Some p => p' <- skip_whitespace_loop steps p ;; ret (Some p')
  end.

(** [!strncmp(value, word, strlen(word))] for a literal [word]. *)
Fixpoint matches (p : nat) (word : cstr) : M bool :=
  match word with
  | [] => ret true
  | w :: word' =>
      c <- load p ;;
      if Ascii.eqb c w then matches (S p) word' else ret false
  end.

(** The first loop of [parse_string]: finds the closing quote. *)
Fixpoint find_end (fuel : nat) (end_ptr : nat) : M nat :=
  match fuel with
  | O => out_of_fuel
  | S fuel' =>
      c <- load end_ptr ;;
      if negb (Ascii.eqb c quote) && negb (Ascii.eqb c NUL) then
        if Ascii.eqb c backslash
        then find_end fuel' (end_ptr + 2)%nat
        else find_end fuel' (end_ptr + 1)%nat
      else ret end_ptr
  end.

(** The second loop of [parse_string]: copies, undoing the escapes.
    [out] is what has been written through [ptr2] so far. *)
Fixpoint unescape (fuel : nat) (ptr end_ptr : nat) (out : list ascii) : M (list ascii) :=
  match fuel with
  | O => out_of_fuel
  | S fuel' =>
      if (ptr <? end_ptr)%nat then
        c <- load ptr ;;
        if negb (Ascii.eqb c backslash) then unescape fuel' (ptr + 1)%nat end_ptr (out ++ [c])
        else
          let ptr := (ptr + 1)%nat in
          e <- load ptr ;;
          if Ascii.eqb e "b" then unescape fuel' (ptr + 1)%nat end_ptr (out ++ ["008"%char])
          else if Ascii.eqb e "f" then unescape fuel' (ptr + 1)%nat end_ptr (out ++ ["012"%char])
          else if Ascii.eqb e "n" then unescape fuel' (ptr + 1)%nat end_ptr (out ++ ["010"%char])
          else if Ascii.eqb e "r" then unescape fuel' (ptr + 1)%nat end_ptr (out ++ ["013"%char])
          else if Ascii.eqb e "t" then unescape fuel' (ptr + 1)%nat end_ptr (out ++ ["009"%char])
          else if Ascii.eqb e "u" then unescape fuel' (ptr + 4 + 1)%nat end_ptr out
          else unescape fuel' (ptr + 1)%nat end_ptr (out ++ [e])
      else ret out
  end.

Definition parse_string (item : cJSON) (str : nat) : M (cJSON * option nat) :=
  let ptr := (str + 1)%nat in
  c <- load str ;;
  if negb (Ascii.eqb c quote) then ret (item, None)
  else
    end_ptr <- find_end steps ptr ;;
    let len := (end_ptr - ptr)%nat in
    ok <- cJSON_malloc StringBlock ;;
    if negb ok then ret (item, None)
    else
      out <- unescape steps ptr end_ptr [] ;;
      if (len <? length out)%nat then fault
      else
        let item := set_valuestring item (Some (as_cstring out)) in
        let item := set_type item cJSON_String in
        ret (item, Some (end_ptr + 1)%nat).

(** The do-while loop accumulating the digits of the integer part into [n]. *)
Fixpoint integer_digits (fuel : nat) (num : nat) (n : float) : M (nat * float) :=
  match fuel with
  | O => out_of_fuel
  | S fuel' =>
      c <- load num ;;
      let n := (n * 10 + Dbl.of_int (code c - code "0"))%float in
      let num := (num + 1)%nat in
      c' <- load num ;;
      if is_digit c' then integer_digits fuel' num n else ret (num, n)
  end.

(** The same loop with [scale--]. *)
Fixpoint fraction_digits (fuel : nat) (num : nat) (n scale : float) : M (nat * float * float) :=
  match fuel with
  | O => out_of_fuel
  | S fuel' =>
      c <- load num ;;
      let n := (n * 10 + Dbl.of_int (code c - code "0"))%float in
      let num := (num + 1)%nat in
      let scale := (scale - 1)%float in
      c' <- load num ;;
      if is_digit c' then fraction_digits fuel' num n scale else ret (num, n, scale)
  end.

(** The while loop accumulating the digits of the exponent into [subscale],
    an [int]: an overflow, undefined in C, wraps around as it does on the
    two's complement targets. *)
Fixpoint exponent_digits (fuel : nat) (num : nat) (subscale : Z) : M (nat * Z) :=
  match fuel with
  | O => out_of_fuel
  | S fuel' =>
      c <- load num ;;
      if is_digit c
      then exponent_digits fuel' (num + 1)%nat (wrap_int (wrap_int (subscale * 10) + (code c - code "0")))
      else ret (num, subscale)
  end.

Definition parse_number (item : cJSON) (num : nat) : M (cJSON * option nat) :=
  let n := 0%float in
  let sign := 1%float in
  let scale := 0%float in
  let subscale := 0 in
  let signsubscale := 1 in
  c <- load num ;;
  let '(sign, num) := if Ascii.eqb c "-" then ((-1)%float, (num + 1)%nat) else (sign, num) in
  c <- load num ;;
  let num := if Ascii.eqb c "0" then (num + 1)%nat else num in
  c <- load num ;;
  '(num, n) <- (if is_digit19 c then integer_digits steps num n else ret (num, n)) ;;
  c <- load num ;;
  '(num, n, scale) <-
    (if Ascii.eqb c "."
     then c1 <- load (num + 1)%nat ;;
          if is_digit c1 then fraction_digits steps (num + 1)%nat n scale
          else ret (num, n, scale)
     else ret (num, n, scale)) ;;
  c <- load num ;;
  '(num, subscale, signsubscale) <-
    (if Ascii.eqb c "e" || Ascii.eqb c "E" then
       let num := (num + 1)%nat in
       c <- load num ;;
       let '(num, signsubscale) :=
         if Ascii.eqb c "+" then ((num + 1)%nat, signsubscale)
         else if Ascii.eqb c "-" then ((num + 1)%nat, -1)
         else (num, signsubscale) in
       '(num, subscale) <- exponent_digits steps num subscale ;;
       ret (num, subscale, signsubscale)
     else ret (num, subscale, signsubscale)) ;;
  let n := (sign * n * Dbl.pow10 (scale + Dbl.of_int (wrap_int (subscale * signsubscale))))%float in
  let item := set_valuedouble item n in
  let item := set_valueint item (Dbl.to_int n) in
  let item := set_type item cJSON_Number in
  ret (item, Some num).

(** The dereference of a pointer the C code does not test. *)
Definition nonnull (p : option nat) : M nat :=
  match p with
  | Some q => ret q
  | None => fault
  end.

Section Productions.

(** The recursive call, one level of nesting down. *)
Variable parse_value : cJSON -> option nat -> M (cJSON * option nat).

(** The [while] loop of [parse_array] and the test that follows it.
    [child] is the last sibling linked so far; it is returned with the
    siblings linked after it. *)
Fixpoint array_rest (fuel : nat) (child : cJSON) (value : nat) : M (cJSON * option nat) :=
  match fuel with
  | O => out_of_fuel
  | S fuel' =>
      c <- load value ;;
      if Ascii.eqb c "," then
        new_item <- cJSON_New_Item ;;
        match new_item with
        | NULL => ret (child, None)
        | Ptr new_item =>
            v <- skip_whitespace (Some (value + 1)%nat) ;;
            '(new_item, v) <- parse_value new_item v ;;
            value <- skip_whitespace v ;;
            match value with
            | None => ret (set_next child (Ptr new_item), None)
            | Some value =>
                '(new_item, r) <- array_rest fuel' new_item value ;;
                ret (set_next child (Ptr new_item), r)
            end
        end
      else if Ascii.eqb c "]" then ret (child, Some (value + 1)%nat)
      else ret (child, None)
  end.

Definition parse_array (item : cJSON) (value : nat) : M (cJSON * option nat) :=
  c <- load value ;;
  if negb (Ascii.eqb c "[") then ret (item, None)
  else
    let item := set_type item cJSON_Array in
    v <- skip_whitespace (Some (value + 1)%nat) ;;
    value <- nonnull v ;;
    c <- load value ;;
    if Ascii.eqb c "]" then ret (item, Some (value + 1)%nat)
    else
      child <- cJSON_New_Item ;;
      match child with
      | NULL => ret (set_child item NULL, None)
      | Ptr child =>
          v <- skip_whitespace (Some value) ;;
          '(child, v) <- parse_value child v ;;
          value <- skip_whitespace v ;;
          match value with
          | None => ret (set_child item (Ptr child), None)
          | Some value =>
              '(child, r) <- array_rest steps child value ;;
              ret (set_child item (Ptr child), r)
          end
      end.

(** One member of an object, from its key on: the key is parsed into
    [valuestring], moved to [string], then the colon and the value. *)
Definition parse_member (child : cJSON) (value : nat) : M (cJSON * option nat) :=
  v <- skip_whitespace (Some value) ;;
  str <- nonnull v ;;
  '(child, v) <- parse_string child str ;;
  value <- skip_whitespace v ;;
  match value with
  | None => ret (child, None)
  | Some value =>
      let child := set_string child (valuestring child) in
      let child := set_valuestring child None in
      c <- load value ;;
      if negb (Ascii.eqb c ":") then ret (child, None)
      else
        v <- skip_whitespace (Some (value + 1)%nat) ;;
        '(child, v) <- parse_value child v ;;
        value <- skip_whitespace v ;;
        ret (child, value)
  end.

(** The [while] loop of [parse_object] and the test that follows it. *)
Fixpoint object_rest (fuel : nat) (child : cJSON) (value : nat) : M (cJSON * option nat) :=
  match fuel with
  | O => out_of_fuel
  | S fuel' =>
      c <- load value ;;
      if Ascii.eqb c "," then
        new_item <- cJSON_New_Item ;;
        match new_item with
        | NULL => ret (child, None)
        | Ptr new_item =>
            '(new_item, value) <- parse_member new_item (value + 1)%nat ;;
            match value with
            | None => ret (set_next child (Ptr new_item), None)
            | Some value =>
                '(new_item, r) <- object_rest fuel' new_item value ;;
                ret (set_next child (Ptr new_item), r)
            end
        end
      else if Ascii.eqb c "}" then ret (child, Some (value + 1)%nat)
      else ret (child, None)
  end.

Definition parse_object (item : cJSON) (value : nat) : M (cJSON * option nat) :=
  c <- load value ;;
  if negb (Ascii.eqb c "{") then ret (item, None)
  else
    let item := set_type item cJSON_Object in
    v <- skip_whitespace (Some (value + 1)%nat) ;;
    value <- nonnull v ;;
    c <- load value ;;
    if Ascii.eqb c "}" then ret (item, Some (value + 1)%nat)
    else
      child <- cJSON_New_Item ;;
      match child with
      | NULL => ret (set_child item NULL, None)
      | Ptr child =>
          '(child, value) <- parse_member child value ;;
          match value with
          | None => ret (set_child item (Ptr child), None)
          | Some value =>
              '(child, r) <- object_rest steps child value ;;
              ret (set_child item (Ptr child), r)
          end
      end.

End Productions.

(** [fuel] bounds the nesting depth. *)
Fixpoint parse_value (fuel : nat) (item : cJSON) (value : option nat) : M (cJSON * option nat) :=
  match fuel with
  | O => out_of_fuel
  | S fuel' =>
      match value with
      | None => ret (item, None)
      | Some value =>
          is_null <- matches value (lit "null") ;;
          if is_null then ret (set_type item cJSON_NULL, Some (value + 4)%nat)
          else
            is_false <- matches value (lit "false") ;;
            if is_false then ret (set_type item cJSON_False, Some (value + 5)%nat)
            else
              is_true <- matches value (lit "true") ;;
              if is_true
              then ret (set_valueint (set_type item cJSON_True) 1, Some (value + 4)%nat)
              else
                c <- load value ;;
                if Ascii.eqb c quote then parse_string item value
                else if Ascii.eqb c "-" || is_digit c then parse_number item value
                else if Ascii.eqb c "[" then parse_array (parse_value fuel') item value
                else if Ascii.eqb c "{" then parse_object (parse_value fuel') item value
                else ret (item, None)
      end
  end.

End Parser.

(** [cJSON_Parse]; [value] is the text, [None] for a null pointer. *)
Definition cJSON_Parse (value : option cstr) : M ptr :=
  let buf := match value with Some b => b | None => [] end in
  c <- cJSON_New_Item ;;
  match c with
  | NULL => ret NULL
  | Ptr c =>
      v <- skip_whitespace buf (match value with Some _ => Some O | None => None end) ;;
      '(c, r) <- parse_value buf (steps buf) c v ;;
      match r with
      | None => cJSON_Delete (Ptr c) ;;; ret NULL
      | Some _ => ret (Ptr c)
      end
  end.

(** The loop of [cJSON_GetObjectItem]. *)
Fixpoint find_item (c : ptr) (name : option cstr) : M ptr :=
  match c with
  | NULL => ret NULL
  | Ptr (mkJSON next _ _ _ _ _ string as item) =>
      match string, name with
      | Some key, Some name' =>
          if negb (strcmp key name' =? 0) then find_item next name else ret (Ptr item)
      | _, _ => fault
      end
  end.

Definition cJSON_GetObjectItem (object : ptr) (string : option cstr) : M ptr :=
  let c := match object with Ptr o => child o | NULL => NULL end in
  find_item c string.

(* ---------------------------------------------------------------- *)
(** *** Print functions *)

(** [strcpy(ptr, s)] into a block of [cap] bytes of which [out] are
    written: the bytes of [s] and a NUL must fit. *)
Definition strcpy_at (cap : Z) (out s : cstr) : M cstr :=
  if cap <? strlen out + strlen s + 1 then fault else ret (out ++ s).

(** [*ptr++ = c] *)
Definition putc_at (cap : Z) (out : cstr) (c : ascii) : M cstr :=
  if cap <? strlen out + 1 then fault else ret (out ++ [c]).

(** A literal copied into a fresh block. *)
Definition print_literal (size : Z) (word : cstr) : M (option cstr) :=
  ok <- cJSON_malloc StringBlock ;;
  if ok then out <- strcpy_at size [] word ;; ret (Some out) else ret None.

Definition print_number (item : cJSON) : M (option cstr) :=
  ok <- cJSON_malloc StringBlock ;;
  if negb ok then ret None
  else
    let d := valuedouble item in
    str <- (if (d =? 0)%float then strcpy_at 64 [] (lit "0")
            else if (abs (Dbl.of_int (valueint item) - d) <=? Dbl.DBL_EPSILON)%float
                    && (d <=? Dbl.of_int INT_MAX)%float && (Dbl.of_int INT_MIN <=? d)%float
            then strcpy_at 64 [] (Fmt.sprintf_d (valueint item))
            else strcpy_at 64 [] (Fmt.sprintf_g d)) ;;
    ret (Some str).

Definition print_string (str : option cstr) : M (option cstr) :=
  match str with
  | None => fault
  | Some str =>
      let len := wrap_size (strlen str + 3) in
      ok <- cJSON_malloc StringBlock ;;
      if negb ok then ret None
      else out <- strcpy_at len [] (quote :: str ++ [quote]) ;; ret (Some out)
  end.

Section Containers.

(** The loops of [print_array] and [print_object], defined with
    [print_value] below. *)
Variable array_measure : ptr -> Z -> M (option Z).
Variable array_write : ptr -> Z -> cstr -> M (option cstr).
Variable object_measure : ptr -> Z -> M (option Z).
Variable object_write : ptr -> Z -> cstr -> M (option cstr).

Definition print_array (item : cJSON) : M (option cstr) :=
  measured <- array_measure (child item) 5 ;;
  match measured with
  | None => ret None
  | Some len =>
      ok <- cJSON_malloc StringBlock ;;
      if negb ok then ret None
      else
        out <- putc_at len [] "[" ;;
        written <- array_write (child item) len out ;;
        match written with
        | None => ret None
        | Some out => out <- strcpy_at len out (lit "]") ;; ret (Some out)
        end
  end.

Definition print_object (item : cJSON) : M (option cstr) :=
  measured <- object_measure (child item) 7 ;;
  match measured with
  | None => ret None
  | Some len =>
      ok <- cJSON_malloc StringBlock ;;
      if negb ok then ret None
      else
        out <- putc_at len [] "{" ;;
        written <- object_write (child item) len out ;;
        match written with
        | None => ret None
        | Some out => out <- strcpy_at len out (lit "}") ;; ret (Some out)
        end
  end.

End Containers.

(** [print_value] on a node, with the four loops over its children: the
    two measuring passes ("Count length") and the two writing passes. *)
Fixpoint print_item (item : cJSON) : M (option cstr) :=
  let t := Z.land (type item) 255 in
  if t =? cJSON_NULL then print_literal 5 (lit "null")
  else if t =? cJSON_False then print_literal 6 (lit "false")
  else if t =? cJSON_True then print_literal 5 (lit "true")
  else if t =? cJSON_Number then print_number item
  else if t =? cJSON_String then print_string (valuestring item)
  else if t =? cJSON_Array then print_array array_measure array_write item
  else if t =? cJSON_Object then print_object object_measure object_write item
  else ret None

with array_measure (child : ptr) (len : Z) : M (option Z) :=
  match child with
  | NULL => ret (Some len)
  | Ptr (mkJSON next _ _ _ _ _ _ as c) =>
      printed <- print_item c ;;
      match printed with
      | None => ret None
      | Some r =>
          let len := wrap_size (len + wrap_size (strlen r + 2)) in
          cJSON_free StringBlock ;;;
          array_measure next len
      end
  end

with array_write (child : ptr) (len : Z) (out : cstr) : M (option cstr) :=
  match child with
  | NULL => ret (Some out)
  | Ptr (mkJSON next _ _ _ _ _ _ as c) =>
      printed <- print_item c ;;
      match printed with
      | None => cJSON_free StringBlock ;;; ret None
      | Some r =>
          out <- strcpy_at len out r ;;
          cJSON_free StringBlock ;;;
          out <- (if negb (is_null next) then putc_at len out "," else ret out) ;;
          array_write next len out
      end
  end

with object_measure (child : ptr) (len : Z) : M (option Z) :=
  match child with
  | NULL => ret (Some len)
  | Ptr (mkJSON next _ _ _ _ _ key as c) =>
      str <- print_string key ;;
      printed <- print_item c ;;
      match str, printed with
      | Some k, Some r =>
          let len := wrap_size (len + wrap_size (wrap_size (strlen k + strlen r) + 3)) in
          cJSON_free StringBlock ;;;
          cJSON_free StringBlock ;;;
          object_measure next len
      | _, _ => free_string str ;;; free_string printed ;;; ret None
      end
  end

with object_write (child : ptr) (len : Z) (out : cstr) : M (option cstr) :=
  match child with
  | NULL => ret (Some out)
  | Ptr (mkJSON next _ _ _ _ _ key as c) =>
      str <- print_string key ;;
      printed <- print_item c ;;
      match str, printed with
      | Some k, Some r =>
          out <- strcpy_at len out k ;;
          cJSON_free StringBlock ;;;
          out <- putc_at len out ":" ;;
          out <- strcpy_at len out r ;;
          cJSON_free StringBlock ;;;
          out <- (if negb (is_null next) then putc_at len out "," else ret out) ;;
          object_write next len out
      | _, _ =>
          cJSON_free StringBlock ;;; free_string str ;;; free_string printed ;;; ret None
      end
  end.

Definition print_value (item : ptr) : M (option cstr) :=
  match item with
  | NULL => ret None
  | Ptr c => print_item c
  end.

Definition cJSON_Print (item : ptr) : M (option cstr) := print_value item.
Definition cJSON_PrintUnformatted (item : ptr) : M (option cstr) := print_value item.

(* ---------------------------------------------------------------- *)
(** *** Create functions *)

(** [strlen] reads through its argument. *)
Definition nonnull_string (s : option cstr) : M cstr :=
  match s with
  | Some x => ret x
  | None => fault
  end.

Definition cJSON_CreateObject : M ptr :=
  item <- cJSON_New_Item ;;
  match item with
  | Ptr c => ret (Ptr (set_type c cJSON_Object))
  | NULL => ret NULL
  end.

Definition cJSON_CreateArray : M ptr :=
  item <- cJSON_New_Item ;;
  match item with
  | Ptr c => ret (Ptr (set_type c cJSON_Array))
  | NULL => ret NULL
  end.

Definition cJSON_CreateString (str : option cstr) : M ptr :=
  item <- cJSON_New_Item ;;
  match item with
  | Ptr c =>
      let c := set_type c cJSON_String in
      s <- nonnull_string str ;;
      copy <- cJSON_strdup s ;;
      let c := set_valuestring c copy in
      if no_string copy then cJSON_Delete (Ptr c) ;;; ret NULL else ret (Ptr c)
  | NULL => ret NULL
  end.

Definition cJSON_CreateNumber (num : float) : M ptr :=
  item <- cJSON_New_Item ;;
  match item with
  | Ptr c =>
      let c := set_type c cJSON_Number in
      let c := set_valuedouble c num in
      let c := set_valueint c (Dbl.to_int num) in
      ret (Ptr c)
  | NULL => ret NULL
  end.

Definition cJSON_CreateBool (boolean : Z) : M ptr :=
  item <- cJSON_New_Item ;;
  match item with
  | Ptr c => ret (Ptr (set_type c (if boolean =? 0 then cJSON_False else cJSON_True)))
  | NULL => ret NULL
  end.

Definition suffix_object (prev item : cJSON) : cJSON := set_next prev (Ptr item).

(** [while (child->next) child = child->next; suffix_object(child, item);] *)
Fixpoint append_sibling (child : cJSON) (item : cJSON) : cJSON :=
  match child with
  | mkJSON NULL _ _ _ _ _ _ => suffix_object child item
  | mkJSON (Ptr next) ch t v i d s => mkJSON (Ptr (append_sibling next item)) ch t v i d s
  end.

(** The result, then [object] and [item] as the call leaves them.  After
    a successful call [item] is the last child of [object]. *)
Definition add_item_to_object (object : ptr) (str : option cstr) (item : ptr) (constant : Z)
  : M (Z * ptr * ptr) :=
  match object, item, str with
  | Ptr o, Ptr it, Some s =>
      '(it, ok) <-
        (if negb (constant =? 0)
         then ret (set_type (set_string it (Some s)) (Z.lor (type it) cJSON_StringIsConst), true)
         else copy <- cJSON_strdup s ;;
              ret (set_string it copy, negb (no_string copy))) ;;
      if negb ok then ret (0, object, Ptr it)
      else
        match child o with
        | NULL => ret (1, Ptr (set_child o (Ptr it)), Ptr it)
        | Ptr first => ret (1, Ptr (set_child o (Ptr (append_sibling first it))), Ptr it)
        end
  | _, _, _ => ret (0, object, item)
  end.

Definition cJSON_AddItemToObject (object : ptr) (str : option cstr) (item : ptr)
  : M (Z * ptr * ptr) :=
  add_item_to_object object str item 0.

Definition cJSON_AddStringToObject (object : ptr) (name str : option cstr) : M (ptr * ptr) :=
  item <- cJSON_CreateString str ;;
  '(ok, object, item) <- cJSON_AddItemToObject object name item ;;
  if ok =? 0 then cJSON_Delete item ;;; ret (NULL, object) else ret (item, object).

Definition cJSON_AddNumberToObject (object : ptr) (name : option cstr) (number : float)
  : M (ptr * ptr) :=
  item <- cJSON_CreateNumber number ;;
  '(ok, object, item) <- cJSON_AddItemToObject object name item ;;
  if ok =? 0 then cJSON_Delete item ;;; ret (NULL, object) else ret (item, object).

Definition cJSON_AddBoolToObject (object : ptr) (name : option cstr) (boolean : Z)
  : M (ptr * ptr) :=
  item <- cJSON_CreateBool boolean ;;
  '(ok, object, item) <- cJSON_AddItemToObject object name item ;;
  if ok =? 0 then cJSON_Delete item ;;; ret (NULL, object) else ret (item, object).

End Library.

(* ================================================================== *)
(** ** The growable response buffer ([pxshot.h]) *)

(** A block of memory: its bytes, [None] for a byte never written. *)
Definition bytes := list (option ascii).

(** [data], [len], [cap]. *)
Record pxshot_buffer_t : Type := mkBuffer { data : option bytes; len : Z; cap : Z }.

Section Buffer.

Variable refused : nat -> bool.

(** [realloc]: refused, it returns null and leaves the old block alone;
    granted, the new block starts with the bytes of the old one. *)
Definition realloc (old : option bytes) (size : Z) : M (option bytes) := fun h =>
  let h' := mkHeap (nodes h) (strings h) (S (requests h)) in
  if refused (requests h) then Val None h'
  else
    let old_bytes := match old with Some b => b | None => [] end in
    let n := Z.to_nat size in
    Val (Some (firstn n old_bytes ++ repeat None (n - length old_bytes))) h'.

(** [memcpy(block + off, src, n)] and a one-byte store. *)
Definition memcpy (block : option bytes) (off : Z) (src : list ascii) (n : Z) : M (option bytes) :=
  match block with
  | None => if n =? 0 then ret None else fault
  | Some b =>
      if (strlen src <? n) || (Z.of_nat (length b) <? off + n) then fault
      else
        let o := Z.to_nat off in
        let k := Z.to_nat n in
        ret (Some (firstn o b ++ map Some (firstn k src) ++ skipn (o + k) b))
  end.

Definition store_byte (block : option bytes) (off : Z) (c : ascii) : M (option bytes) :=
  match block with
  | None => fault
  | Some b =>
      if Z.of_nat (length b) <=? off then fault
      else
        let o := Z.to_nat off in
        ret (Some (firstn o b ++ Some c :: skipn (S o) b))
  end.

(** [while (newcap < need) newcap *= 2;] on [size_t]: once [newcap] has
    wrapped to zero the loop never ends, which is what running out of
    the 65 steps means. *)
Fixpoint double_until (fuel : nat) (newcap need : Z) : M Z :=
  match fuel with
  | O => out_of_fuel
  | S fuel' =>
      if newcap <? need then double_until fuel' (wrap_size (newcap * 2)) need
      else ret newcap
  end.

(** The value returned, and the buffer as the call leaves it. *)
Definition pxshot_write_callback (contents : list ascii) (size nmemb : Z) (buf : pxshot_buffer_t)
  : M (Z * pxshot_buffer_t) :=
  let realsize := wrap_size (size * nmemb) in
  let need := wrap_size (wrap_size (len buf + realsize) + 1) in
  grown <-
    (if cap buf <? need then
       let newcap := if cap buf =? 0 then 4096 else wrap_size (cap buf * 2) in
       newcap <- double_until 65 newcap need ;;
       newdata <- realloc (data buf) newcap ;;
       match newdata with
       | None => ret None
       | Some _ => ret (Some (mkBuffer newdata (len buf) newcap))
       end
     else ret (Some buf)) ;;
  match grown with
  | None => ret (0, buf)
  | Some buf =>
      d <- memcpy (data buf) (len buf) contents realsize ;;
      let buf := mkBuffer d (wrap_size (len buf + realsize)) (cap buf) in
      d <- store_byte (data buf) (len buf) NUL ;;
      ret (realsize, mkBuffer d (len buf) (cap buf))
  end.

(** [append]: the transport calls the callback with [size = 1]. *)
Definition append (buf : pxshot_buffer_t) (chunk : list ascii) : M (Z * pxshot_buffer_t) :=
  pxshot_write_callback chunk 1 (strlen chunk) buf.

(** A whole accumulation session. *)
Fixpoint append_all (buf : pxshot_buffer_t) (chunks : list (list ascii)) : M pxshot_buffer_t :=
  match chunks with
  | [] => ret buf
  | chunk :: rest => '(_, buf) <- append buf chunk ;; append_all buf rest
  end.

End Buffer.

(** [pxshot_buffer_t buffer = {0};] *)
Definition empty_buffer : pxshot_buffer_t := mkBuffer None 0 0.

(** An allocator that grants every request, and a heap with nothing live. *)
Definition never : nat -> bool := fun _ => false.
Definition h0 : heap := mkHeap 0 0 0.

(* ================================================================== *)
(** ** The SDK ([pxshot.h]) *)

Definition PXSHOT_VERSION_STRING : cstr := lit "1.0.0".
Definition PXSHOT_DEFAULT_BASE_URL : cstr := lit "https://api.pxshot.com".

(** [pxshot_error_t]; a C enum, that is an [int]. *)
Definition PXSHOT_OK : Z := 0.
Definition PXSHOT_ERR_INVALID_ARG : Z := 1.
Definition PXSHOT_ERR_OUT_OF_MEMORY : Z := 2.
Definition PXSHOT_ERR_CURL_INIT : Z := 3.
Definition PXSHOT_ERR_CURL_PERFORM : Z := 4.
Definition PXSHOT_ERR_HTTP_ERROR : Z := 5.
Definition PXSHOT_ERR_JSON_PARSE : Z := 6.
Definition PXSHOT_ERR_API_ERROR : Z := 7.
Definition PXSHOT_ERR_TIMEOUT : Z := 8.
Definition PXSHOT_ERR_UNKNOWN : Z := 9.

(** [pxshot_format_t] and [pxshot_wait_until_t]. *)
Definition PXSHOT_FORMAT_PNG : Z := 0.
Definition PXSHOT_FORMAT_JPEG : Z := 1.
Definition PXSHOT_FORMAT_WEBP : Z := 2.
Definition PXSHOT_WAIT_LOAD : Z := 0.
Definition PXSHOT_WAIT_DOMCONTENTLOADED : Z := 1.
Definition PXSHOT_WAIT_NETWORKIDLE : Z := 2.

(** The two [CURLcode] values the SDK names, as libcurl's header gives
    them. *)
Definition CURLE_OK : Z := 0.
Definition CURLE_OPERATION_TIMEDOUT : Z := 28.

Record pxshot_config_t : Type := mkConfig {
  config_api_key : option cstr;
  config_base_url : option cstr;
  config_timeout_ms : Z }.

(** [struct pxshot_client]; [curl] tells whether the handle is there. *)
Record pxshot_client : Type := mkClient {
  api_key : option cstr;
  base_url : option cstr;
  timeout_ms : Z;
  curl : bool }.

Record pxshot_screenshot_opts_t : Type := mkOpts {
  url : option cstr;
  format : Z;
  quality : Z;
  width : Z;
  height : Z;
  full_page : bool;
  wait_until : Z;
  wait_for_selector : option cstr;
  wait_for_timeout : Z;
  device_scale_factor : float;
  store : bool;
  block_ads : bool }.

Record pxshot_stored_t : Type := mkStored {
  stored_url : option cstr;
  expires_at : option cstr;
  stored_width : Z;
  stored_height : Z;
  size_bytes : Z }.

Record pxshot_response_t : Type := mkResponse {
  error : Z;
  http_status : Z;
  error_message : option cstr;
  response_data : option bytes;
  data_len : Z;
  stored : option pxshot_stored_t }.

Record pxshot_usage_t : Type := mkUsage {
  screenshots_used : Z;
  screenshots_limit : Z;
  storage_used_bytes : Z;
  storage_limit_bytes : Z;
  period_start : option cstr;
  period_end : option cstr }.

(** What [calloc] leaves. *)
Definition zeroed_client : pxshot_client := mkClient None None 0 false.
Definition zeroed_stored : pxshot_stored_t := mkStored None None 0 0 0.
Definition zeroed_response : pxshot_response_t := mkResponse 0 0 None None 0 None.
Definition zeroed_usage : pxshot_usage_t := mkUsage 0 0 0 0 None None.

Definition set_error_field (r : pxshot_response_t) (e : Z) : pxshot_response_t :=
  mkResponse e (http_status r) (error_message r) (response_data r) (data_len r) (stored r).
Definition set_http_status (r : pxshot_response_t) (s : Z) : pxshot_response_t :=
  mkResponse (error r) s (error_message r) (response_data r) (data_len r) (stored r).
Definition set_error_message (r : pxshot_response_t) (m : option cstr) : pxshot_response_t :=
  mkResponse (error r) (http_status r) m (response_data r) (data_len r) (stored r).
Definition set_response_data (r : pxshot_response_t) (d : option bytes) (n : Z)
  : pxshot_response_t :=
  mkResponse (error r) (http_status r) (error_message r) d n (stored r).
Definition set_stored (r : pxshot_response_t) (s : option pxshot_stored_t) : pxshot_response_t :=
  mkResponse (error r) (http_status r) (error_message r) (response_data r) (data_len r) s.

(** The request a transfer is set up for with [curl_easy_setopt]: the URL,
    the header list, the body of a POST if there is one, the timeout. *)
Record request (slist : Type) : Type := mkRequest {
  request_url : cstr;
  request_headers : option slist;
  request_postfields : option cstr;
  request_timeout_ms : Z }.
Arguments mkRequest {slist}.
Arguments request_url {slist}.
Arguments request_headers {slist}.
Arguments request_postfields {slist}.
Arguments request_timeout_ms {slist}.

(** What the SDK reads once [curl_easy_perform] is back: its result, the
    buffer as the write callback left it, and the two values it asks
    [curl_easy_getinfo] for. *)
Record transfer : Type := mkTransfer {
  res : Z;
  filled : pxshot_buffer_t;
  response_code : Z;
  content_type : option cstr }.

(** [type & 0xFF], and the two kind macros the SDK uses. *)
Definition cJSON_IsString (item : ptr) : bool :=
  match item with
  | Ptr c => Z.land (type c) 255 =? cJSON_String
  | NULL => false
  end.

Definition cJSON_IsNumber (item : ptr) : bool :=
  match item with
  | Ptr c => Z.land (type c) 255 =? cJSON_Number
  | NULL => false
  end.

(** [strstr(hay, needle) != NULL] *)
Fixpoint starts_with (needle hay : cstr) : bool :=
  match needle, hay with
  | [], _ => true
  | n :: needle', c :: hay' => Ascii.eqb n c && starts_with needle' hay'
  | _ :: _, [] => false
  end.

Fixpoint strstr (hay needle : cstr) : bool :=
  starts_with needle hay
  || match hay with
     | [] => false
     | _ :: hay' => strstr hay' needle
     end.

(** The C string that starts a block: its bytes up to the first NUL.  A
    byte never written, or the end of the block, before a NUL is a read
    of what may not be read. *)
Fixpoint string_at (b : bytes) : option cstr :=
  match b with
  | [] => None
  | None :: _ => None
  | Some c :: rest =>
      if Ascii.eqb c NUL then Some []
      else match string_at rest with
           | Some s => Some (c :: s)
           | None => None
           end
  end.

(** [(size_t)d] for a double: the integer part when it is a [size_t],
    undefined otherwise. *)
Definition to_size (d : float) : option Z :=
  match Dbl.trunc d with
  | Some z => if (0 <=? z) && (z <? SIZE_MOD) then Some z else None
  | None => None
  end.

Section SDK.

Variable refused : nat -> bool.

(** libcurl.  [slist] is its header list; [curl_easy_init] tells whether a
    handle is to be had; [curl_easy_perform] is given the write callback
    and the buffer that [curl_easy_setopt] registered, and may call the one
    on the other as the response arrives.  The memory of the library is
    its own and is not counted. *)
Variable slist : Type.
Variable curl_slist_append : option slist -> cstr -> option slist.
Variable curl_easy_init : bool.
Variable curl_easy_perform :
  (list ascii -> Z -> Z -> pxshot_buffer_t -> M (Z * pxshot_buffer_t)) ->
  request slist -> pxshot_buffer_t -> M transfer.
Variable curl_easy_strerror : Z -> cstr.

(** [malloc] and [calloc] of a block that is not a cJSON node, and [free]
    of a pointer that may be null.  [cJSON_malloc] is [malloc]: the blocks
    are counted with the strings of the library. *)
Definition malloc : M bool := cJSON_malloc refused StringBlock.

Definition free {A} (p : option A) : M unit :=
  match p with
  | None => ret tt
  | Some _ => cJSON_free StringBlock
  end.

(** [free] of the block of the response buffer, which [realloc] handed out
    and the allocator state does not count. *)
Definition free_buffer (d : option bytes) : M unit := ret tt.

Definition pxshot_strdup (s : option cstr) : M (option cstr) :=
  match s with
  | None => ret None
  | Some str =>
      ok <- malloc ;;
      if ok then ret (Some str) else ret None
  end.

Definition pxshot_response_new : M (option pxshot_response_t) :=
  ok <- malloc ;;
  if ok then ret (Some zeroed_response) else ret None.

Definition pxshot_set_error (resp : pxshot_response_t) (err : Z) (msg : option cstr)
  : M pxshot_response_t :=
  let resp := set_error_field resp err in
  match msg with
  | Some _ => copy <- pxshot_strdup msg ;; ret (set_error_message resp copy)
  | None => ret resp
  end.

Definition pxshot_format_string (fmt : Z) : cstr :=
  if fmt =? PXSHOT_FORMAT_JPEG then lit "jpeg"
  else if fmt =? PXSHOT_FORMAT_WEBP then lit "webp"
  else lit "png".

Definition pxshot_wait_until_string (w : Z) : cstr :=
  if w =? PXSHOT_WAIT_DOMCONTENTLOADED then lit "domcontentloaded"
  else if w =? PXSHOT_WAIT_NETWORKIDLE then lit "networkidle"
  else lit "load".

(** [curl_easy_cleanup] gives back memory of libcurl's own. *)
Definition pxshot_free (client : option pxshot_client) : M unit :=
  match client with
  | None => ret tt
  | Some c =>
      free (api_key c) ;;;
      free (base_url c) ;;;
      free (Some c)
  end.

Definition pxshot_new_with_config (config : option pxshot_config_t)
  : M (option pxshot_client) :=
  match config with
  | None => ret None
  | Some config =>
      match config_api_key config with
      | None => ret None
      | Some _ =>
          ok <- malloc ;;
          if negb ok then ret None
          else
            key <- pxshot_strdup (config_api_key config) ;;
            base <- pxshot_strdup (match config_base_url config with
                                   | Some b => Some b
                                   | None => Some PXSHOT_DEFAULT_BASE_URL
                                   end) ;;
            let timeout := if 0 <? config_timeout_ms config
                           then config_timeout_ms config else 30000 in
            let client := mkClient key base timeout false in
            if no_string key || no_string base
            then pxshot_free (Some client) ;;; ret None
            else
              let client := mkClient key base timeout curl_easy_init in
              if negb (curl client) then pxshot_free (Some client) ;;; ret None
              else ret (Some client)
      end
  end.

Definition pxshot_new (key : option cstr) : M (option pxshot_client) :=
  pxshot_new_with_config (Some (mkConfig key None 0)).

(** [snprintf(out, size, ...)] of a text: at most [size - 1] of its bytes
    are written, then a NUL; with [size] zero nothing is written and the
    block is read as it was handed out. *)
Definition snprintf (size : Z) (text : cstr) : M cstr :=
  if size <=? 0 then fault else ret (firstn (Z.to_nat (size - 1)) text).

(** The members [pxshot_screenshot] adds to the body when an option asks
    for them; the results of the calls are not looked at. *)
Definition add_string (body : ptr) (name : cstr) (value : option cstr) : M ptr :=
  '(_, body) <- cJSON_AddStringToObject refused body (Some name) value ;; ret body.

Definition add_number (body : ptr) (name : cstr) (value : float) : M ptr :=
  '(_, body) <- cJSON_AddNumberToObject refused body (Some name) value ;; ret body.

Definition add_bool (body : ptr) (name : cstr) (value : Z) : M ptr :=
  '(_, body) <- cJSON_AddBoolToObject refused body (Some name) value ;; ret body.

Definition when (test : bool) (add : ptr -> M ptr) (body : ptr) : M ptr :=
  if test then add body else ret body.

(** The calls between [cJSON_CreateObject] and [cJSON_PrintUnformatted]. *)
Definition screenshot_members (opts : pxshot_screenshot_opts_t) (body : ptr) : M ptr :=
  body <- add_string body (lit "url") (url opts) ;;
  body <- add_string body (lit "format") (Some (pxshot_format_string (format opts))) ;;
  body <- when (0 <? quality opts)
            (fun b => add_number b (lit "quality") (Dbl.of_int (quality opts))) body ;;
  body <- when (0 <? width opts)
            (fun b => add_number b (lit "width") (Dbl.of_int (width opts))) body ;;
  body <- when (0 <? height opts)
            (fun b => add_number b (lit "height") (Dbl.of_int (height opts))) body ;;
  body <- when (full_page opts) (fun b => add_bool b (lit "full_page") 1) body ;;
  body <- when (negb (wait_until opts =? PXSHOT_WAIT_LOAD))
            (fun b => add_string b (lit "wait_until")
                        (Some (pxshot_wait_until_string (wait_until opts)))) body ;;
  body <- when (negb (no_string (wait_for_selector opts)))
            (fun b => add_string b (lit "wait_for_selector") (wait_for_selector opts)) body ;;
  body <- when (0 <? wait_for_timeout opts)
            (fun b => add_number b (lit "wait_for_timeout")
                        (Dbl.of_int (wait_for_timeout opts))) body ;;
  body <- when (0 <? device_scale_factor opts)%float
            (fun b => add_number b (lit "device_scale_factor") (device_scale_factor opts))
            body ;;
  when (store opts) (fun b => add_bool b (lit "store") 1) body.

(** [cJSON_Parse((char * )buffer.data)] *)
Definition parse_buffer (buffer : pxshot_buffer_t) : M ptr :=
  match data buffer with
  | None => cJSON_Parse refused None
  | Some b =>
      match string_at b with
      | Some text => cJSON_Parse refused (Some text)
      | None => fault
      end
  end.

(** [(item = cJSON_GetObjectItem(json, name)) && cJSON_IsString(item)], and
    the same with [cJSON_IsNumber]: the item when the test holds. *)
Definition string_item (json : ptr) (name : cstr) : M (option cJSON) :=
  item <- cJSON_GetObjectItem json (Some name) ;;
  match item with
  | Ptr c => ret (if cJSON_IsString item then Some c else None)
  | NULL => ret None
  end.

Definition number_item (json : ptr) (name : cstr) : M (option cJSON) :=
  item <- cJSON_GetObjectItem json (Some name) ;;
  match item with
  | Ptr c => ret (if cJSON_IsNumber item then Some c else None)
  | NULL => ret None
  end.

(** The branch of [pxshot_screenshot] for a status of 400 and more. *)
Definition screenshot_http_error (resp : pxshot_response_t) (buffer : pxshot_buffer_t)
  : M pxshot_response_t :=
  err_json <- parse_buffer buffer ;;
  resp <- (match err_json with
           | NULL => ret resp
           | Ptr _ =>
               msg <- string_item err_json (lit "error") ;;
               resp <- (match msg with
                        | Some m => copy <- pxshot_strdup (valuestring m) ;;
                                    ret (set_error_message resp copy)
                        | None => ret resp
                        end) ;;
               cJSON_Delete err_json ;;;
               ret resp
           end) ;;
  free_buffer (data buffer) ;;;
  pxshot_set_error resp PXSHOT_ERR_HTTP_ERROR
    (match error_message resp with
     | Some m => Some m
     | None => Some (lit "HTTP error")
     end).

(** The five fields read out of a stored response. *)
Definition read_stored (json : ptr) : M pxshot_stored_t :=
  let s := zeroed_stored in
  item <- string_item json (lit "url") ;;
  s <- (match item with
        | Some c => copy <- pxshot_strdup (valuestring c) ;;
                    ret (mkStored copy (expires_at s) (stored_width s) (stored_height s)
                           (size_bytes s))
        | None => ret s
        end) ;;
  item <- string_item json (lit "expires_at") ;;
  s <- (match item with
        | Some c => copy <- pxshot_strdup (valuestring c) ;;
                    ret (mkStored (stored_url s) copy (stored_width s) (stored_height s)
                           (size_bytes s))
        | None => ret s
        end) ;;
  item <- number_item json (lit "width") ;;
  let s := match item with
           | Some c => mkStored (stored_url s) (expires_at s) (valueint c) (stored_height s)
                         (size_bytes s)
           | None => s
           end in
  item <- number_item json (lit "height") ;;
  let s := match item with
           | Some c => mkStored (stored_url s) (expires_at s) (stored_width s) (valueint c)
                         (size_bytes s)
           | None => s
           end in
  item <- number_item json (lit "size_bytes") ;;
  match item with
  | Some c =>
      match to_size (valuedouble c) with
      | Some n => ret (mkStored (stored_url s) (expires_at s) (stored_width s)
                         (stored_height s) n)
      | None => fault
      end
  | None => ret s
  end.

(** The branch of [pxshot_screenshot] for a stored response. *)
Definition screenshot_stored (resp : pxshot_response_t) (buffer : pxshot_buffer_t)
  : M pxshot_response_t :=
  json <- parse_buffer buffer ;;
  free_buffer (data buffer) ;;;
  match json with
  | NULL => pxshot_set_error resp PXSHOT_ERR_JSON_PARSE
              (Some (lit "failed to parse response JSON"))
  | Ptr _ =>
      ok <- malloc ;;
      if negb ok then
        cJSON_Delete json ;;;
        pxshot_set_error resp PXSHOT_ERR_OUT_OF_MEMORY
          (Some (lit "failed to allocate stored struct"))
      else
        s <- read_stored json ;;
        cJSON_Delete json ;;;
        ret (set_error_field (set_stored resp (Some s)) PXSHOT_OK)
  end.

(** [pxshot_screenshot] from [curl_easy_perform] on. *)
Definition screenshot_response (opts : pxshot_screenshot_opts_t) (resp : pxshot_response_t)
    (t : transfer) : M pxshot_response_t :=
  let buffer := filled t in
  if negb (res t =? CURLE_OK) then
    free_buffer (data buffer) ;;;
    if res t =? CURLE_OPERATION_TIMEDOUT
    then pxshot_set_error resp PXSHOT_ERR_TIMEOUT (Some (curl_easy_strerror (res t)))
    else pxshot_set_error resp PXSHOT_ERR_CURL_PERFORM (Some (curl_easy_strerror (res t)))
  else
    let resp := set_http_status resp (wrap_int (response_code t)) in
    if 400 <=? response_code t then screenshot_http_error resp buffer
    else if store opts
            || match content_type t with
               | Some ct => strstr ct (lit "application/json")
               | None => false
               end
    then screenshot_stored resp buffer
    else ret (set_error_field (set_response_data resp (data buffer) (len buffer)) PXSHOT_OK).

(** [!client || !opts || !opts->url] is false. *)
Definition valid_request (client : option pxshot_client)
    (opts : option pxshot_screenshot_opts_t)
  : option (pxshot_client * pxshot_screenshot_opts_t) :=
  match client, opts with
  | Some c, Some o => if no_string (url o) then None else Some (c, o)
  | _, _ => None
  end.

Definition pxshot_screenshot (client : option pxshot_client)
    (opts : option pxshot_screenshot_opts_t) : M (option pxshot_response_t) :=
  resp <- pxshot_response_new ;;
  match resp with
  | None => ret None
  | Some resp =>
      match valid_request client opts with
      | Some (client, opts) =>
          body <- cJSON_CreateObject refused ;;
          match body with
          | NULL =>
              resp <- pxshot_set_error resp PXSHOT_ERR_OUT_OF_MEMORY
                        (Some (lit "failed to create JSON")) ;;
              ret (Some resp)
          | Ptr _ =>
              body <- screenshot_members opts body ;;
              json_str <- cJSON_PrintUnformatted refused body ;;
              cJSON_Delete body ;;;
              match json_str with
              | None =>
                  resp <- pxshot_set_error resp PXSHOT_ERR_OUT_OF_MEMORY
                            (Some (lit "failed to serialize JSON")) ;;
                  ret (Some resp)
              | Some json_str =>
                  base <- nonnull_string (base_url client) ;;
                  let url_len := wrap_size (strlen base + 32) in
                  ok <- malloc ;;
                  if negb ok then
                    free (Some json_str) ;;;
                    resp <- pxshot_set_error resp PXSHOT_ERR_OUT_OF_MEMORY
                              (Some (lit "failed to allocate URL")) ;;
                    ret (Some resp)
                  else
                    url <- snprintf url_len (base ++ lit "/v1/screenshot") ;;
                    key <- nonnull_string (api_key client) ;;
                    let auth_len := wrap_size (strlen key + 32) in
                    ok <- malloc ;;
                    if negb ok then
                      free (Some json_str) ;;;
                      free (Some url) ;;;
                      resp <- pxshot_set_error resp PXSHOT_ERR_OUT_OF_MEMORY
                                (Some (lit "failed to allocate header")) ;;
                      ret (Some resp)
                    else
                      auth_header <- snprintf auth_len (lit "Authorization: Bearer " ++ key) ;;
                      let headers := curl_slist_append None auth_header in
                      let headers :=
                        curl_slist_append headers (lit "Content-Type: application/json") in
                      t <- curl_easy_perform (pxshot_write_callback refused)
                             (mkRequest url headers (Some json_str) (timeout_ms client))
                             empty_buffer ;;
                      free (Some auth_header) ;;;
                      free (Some url) ;;;
                      free (Some json_str) ;;;
                      resp <- screenshot_response opts resp t ;;
                      ret (Some resp)
              end
          end
      | None =>
          resp <- pxshot_set_error resp PXSHOT_ERR_INVALID_ARG
                    (Some (lit "client and opts->url are required")) ;;
          ret (Some resp)
      end
  end.

(** The six fields read out of the usage response. *)
Definition read_usage (json : ptr) : M pxshot_usage_t :=
  let u := zeroed_usage in
  item <- number_item json (lit "screenshots_used") ;;
  let u := match item with
           | Some c => mkUsage (valueint c) (screenshots_limit u) (storage_used_bytes u)
                         (storage_limit_bytes u) (period_start u) (period_end u)
           | None => u
           end in
  item <- number_item json (lit "screenshots_limit") ;;
  let u := match item with
           | Some c => mkUsage (screenshots_used u) (valueint c) (storage_used_bytes u)
                         (storage_limit_bytes u) (period_start u) (period_end u)
           | None => u
           end in
  item <- number_item json (lit "storage_used_bytes") ;;
  let u := match item with
           | Some c => mkUsage (screenshots_used u) (screenshots_limit u) (valueint c)
                         (storage_limit_bytes u) (period_start u) (period_end u)
           | None => u
           end in
  item <- number_item json (lit "storage_limit_bytes") ;;
  let u := match item with
           | Some c => mkUsage (screenshots_used u) (screenshots_limit u)
                         (storage_used_bytes u) (valueint c) (period_start u) (period_end u)
           | None => u
           end in
  item <- string_item json (lit "period_start") ;;
  u <- (match item with
        | Some c => copy <- pxshot_strdup (valuestring c) ;;
                    ret (mkUsage (screenshots_used u) (screenshots_limit u)
                           (storage_used_bytes u) (storage_limit_bytes u) copy (period_end u))
        | None => ret u
        end) ;;
  item <- string_item json (lit "period_end") ;;
  match item with
  | Some c => copy <- pxshot_strdup (valuestring c) ;;
              ret (mkUsage (screenshots_used u) (screenshots_limit u)
                     (storage_used_bytes u) (storage_limit_bytes u) (period_start u) copy)
  | None => ret u
  end.

(** [pxshot_get_usage] from [curl_easy_perform] on: the response, and what
    [*usage], set to null before, holds in the end. *)
Definition usage_response (resp : pxshot_response_t) (t : transfer)
  : M (pxshot_response_t * option pxshot_usage_t) :=
  let buffer := filled t in
  if negb (res t =? CURLE_OK) then
    free_buffer (data buffer) ;;;
    resp <- pxshot_set_error resp PXSHOT_ERR_CURL_PERFORM
              (Some (curl_easy_strerror (res t))) ;;
    ret (resp, None)
  else
    let resp := set_http_status resp (wrap_int (response_code t)) in
    if 400 <=? response_code t then
      free_buffer (data buffer) ;;;
      resp <- pxshot_set_error resp PXSHOT_ERR_HTTP_ERROR (Some (lit "HTTP error")) ;;
      ret (resp, None)
    else
      json <- parse_buffer buffer ;;
      free_buffer (data buffer) ;;;
      match json with
      | NULL =>
          resp <- pxshot_set_error resp PXSHOT_ERR_JSON_PARSE
                    (Some (lit "failed to parse response JSON")) ;;
          ret (resp, None)
      | Ptr _ =>
          ok <- malloc ;;
          if negb ok then
            cJSON_Delete json ;;;
            resp <- pxshot_set_error resp PXSHOT_ERR_OUT_OF_MEMORY
                      (Some (lit "failed to allocate usage struct")) ;;
            ret (resp, None)
          else
            u <- read_usage json ;;
            cJSON_Delete json ;;;
            ret (set_error_field resp PXSHOT_OK, Some u)
      end.

(** [usage] is the out-parameter: nothing for a null pointer, and otherwise
    what the variable it points to holds at the call.  The result is the
    response and what that variable holds on return. *)
Definition pxshot_get_usage (client : option pxshot_client)
    (usage : option (option pxshot_usage_t))
  : M (option (pxshot_response_t * option (option pxshot_usage_t))) :=
  resp <- pxshot_response_new ;;
  match resp with
  | None => ret None
  | Some resp =>
      match client, usage with
      | Some client, Some _ =>
          base <- nonnull_string (base_url client) ;;
          let url_len := wrap_size (strlen base + 32) in
          ok <- malloc ;;
          if negb ok then
            resp <- pxshot_set_error resp PXSHOT_ERR_OUT_OF_MEMORY
                      (Some (lit "failed to allocate URL")) ;;
            ret (Some (resp, Some None))
          else
            url <- snprintf url_len (base ++ lit "/v1/usage") ;;
            key <- nonnull_string (api_key client) ;;
            let auth_len := wrap_size (strlen key + 32) in
            ok <- malloc ;;
            if negb ok then
              free (Some url) ;;;
              resp <- pxshot_set_error resp PXSHOT_ERR_OUT_OF_MEMORY
                        (Some (lit "failed to allocate header")) ;;
              ret (Some (resp, Some None))
            else
              auth_header <- snprintf auth_len (lit "Authorization: Bearer " ++ key) ;;
              let headers := curl_slist_append None auth_header in
              t <- curl_easy_perform (pxshot_write_callback refused)
                     (mkRequest url headers None (timeout_ms client))
                     empty_buffer ;;
              free (Some auth_header) ;;;
              free (Some url) ;;;
              '(resp, u) <- usage_response resp t ;;
              ret (Some (resp, Some u))
      | _, _ =>
          resp <- pxshot_set_error resp PXSHOT_ERR_INVALID_ARG
                    (Some (lit "client and usage are required")) ;;
          ret (Some (resp, usage))
      end
  end.

Definition pxshot_response_free (resp : option pxshot_response_t) : M unit :=
  match resp with
  | None => ret tt
  | Some r =>
      free (error_message r) ;;;
      free_buffer (response_data r) ;;;
      (match stored r with
       | Some s =>
           free (stored_url s) ;;;
           free (expires_at s) ;;;
           free (Some s)
       | None => ret tt
       end) ;;;
      free (Some r)
  end.


End SDK.

Definition pxshot_error_string (error : Z) : cstr :=
  if error =? PXSHOT_OK then lit "success"
  else if error =? PXSHOT_ERR_INVALID_ARG then lit "invalid argument"
  else if error =? PXSHOT_ERR_OUT_OF_MEMORY then lit "out of memory"
  else if error =? PXSHOT_ERR_CURL_INIT then lit "failed to initialize CURL"
  else if error =? PXSHOT_ERR_CURL_PERFORM then lit "CURL request failed"
  else if error =? PXSHOT_ERR_HTTP_ERROR then lit "HTTP error"
  else if error =? PXSHOT_ERR_JSON_PARSE then lit "JSON parse error"
  else if error =? PXSHOT_ERR_API_ERROR then lit "API error"
  else if error =? PXSHOT_ERR_TIMEOUT then lit "request timed out"
  else lit "unknown error".

Definition pxshot_version : cstr := PXSHOT_VERSION_STRING.

(* ================================================================== *)
(** * Vocabulary of the properties *)

(** The nodes of a sibling list, in order. *)
Fixpoint siblings (p : ptr) : list cJSON :=
  match p with
  | NULL => []
  | Ptr (mkJSON next _ _ _ _ _ _ as c) => c :: siblings next
  end.

(** [c] carries the key [name]. *)
Definition has_key (name : cstr) (c : cJSON) : bool :=
  match string c with
  | Some key => cstr_eqb key name
  | None => false
  end.

Definition keyed (c : cJSON) : Prop := string c <> None.

(** A node taken out of its sibling list. *)
Definition detach (c : cJSON) : cJSON := set_next c NULL.

(** The children behind a [child] pointer, in order, each on its own. *)
Definition members (p : ptr) : list cJSON := map detach (siblings p).

Definition is_container (c : cJSON) : bool :=
  (Z.land (type c) 255 =? cJSON_Array) || (Z.land (type c) 255 =? cJSON_Object).

(** Texts and nodes the properties are checked on. *)
Definition dup_object : cstr := json "{'x':1,'x':2}".
Definition unterminated : cstr := json "'abc".
Definition string_node : cJSON := mkJSON NULL NULL cJSON_String (Some (lit "s")) 0 0%float None.
Definition number_node : cJSON := mkJSON NULL NULL cJSON_Number None 1 1%float None.

(** What [cJSON_CreateNumber] returns. *)
Definition created_number (d : float) : cJSON :=
  mkJSON NULL NULL cJSON_Number None (Dbl.to_int d) d None.

(** [emit text]: the text once [strcpy] has put it in the 64-byte block of
    [print_number]. *)
Definition emit (text : cstr) (h : heap) : result (option cstr) :=
  if 64 <? strlen text + 1 then Fault
  else Val (Some text) (mkHeap (nodes h) (strings h + 1) (S (requests h))).

(** The second test of [print_number]. *)
Definition near_int (item : cJSON) : bool :=
  (abs (Dbl.of_int (valueint item) - valuedouble item) <=? Dbl.DBL_EPSILON)%float.

Definition in_int_range (d : float) : bool :=
  (d <=? Dbl.of_int INT_MAX)%float && (Dbl.of_int INT_MIN <=? d)%float.

(** [buf->len + realsize + 1], as the [size_t] the callback compares with
    the capacity. *)
Definition needed (buf : pxshot_buffer_t) (size nmemb : Z) : Z :=
  wrap_size (wrap_size (len buf + wrap_size (size * nmemb)) + 1).

(** The allocator state after one more request that allocated no node and
    no string. *)
Definition asked (h : heap) : heap := mkHeap (nodes h) (strings h) (S (requests h)).

(** The buffer holds [content]: its block has [cap] bytes, the first [len]
    of them are [content] and the next one is NUL. *)
Definition holds (buf : pxshot_buffer_t) (content : list ascii) : Prop :=
  exists b,
    data buf = Some b
    /\ Z.of_nat (length b) = cap buf
    /\ len buf = strlen content
    /\ firstn (length content) b = map Some content
    /\ nth_error b (length content) = Some (Some NUL).

(** The capacity is the seed 4096 doubled the least number of times that
    makes room for [len] bytes and the NUL. *)
Definition least_doubling (buf : pxshot_buffer_t) : Prop :=
  exists k,
    0 <= k /\ cap buf = 4096 * 2 ^ k
    /\ len buf + 1 <= cap buf
    /\ (k = 0 \/ cap buf < 2 * (len buf + 1)).

(** A buffer holding one byte, with no spare room. *)
Definition full_buffer : pxshot_buffer_t :=
  mkBuffer (Some [Some "a"%char; Some NUL]) 1 2.

(** The nodes reachable from a pointer, through [child] and [next]. *)
Fixpoint nodes_of (p : ptr) : Z :=
  match p with
  | NULL => 0
  | Ptr (mkJSON next child _ _ _ _ _) => 1 + nodes_of child + nodes_of next
  end.

Definition owned (s : option cstr) : Z :=
  match s with Some _ => 1 | None => 0 end.

(** The strings those nodes own. *)
Fixpoint strings_of (p : ptr) : Z :=
  match p with
  | NULL => 0
  | Ptr (mkJSON next child _ valuestring _ _ string) =>
      owned valuestring + owned string + strings_of child + strings_of next
  end.

(** A type word without [cJSON_IsReference] and [cJSON_StringIsConst]. *)
Definition flagless (t : Z) : Prop :=
  has_flag t cJSON_IsReference = false /\ has_flag t cJSON_StringIsConst = false.

(** No node reachable from the pointer borrows its strings or children. *)
Fixpoint plain (p : ptr) : Prop :=
  match p with
  | NULL => True
  | Ptr (mkJSON next child type _ _ _ _) => flagless type /\ plain child /\ plain next
  end.

(** A node the parser may fill in: no child and no value string yet. *)
Definition blank (item : cJSON) : Prop :=
  child item = NULL /\ valuestring item = None /\ flagless (type item).

(** What a production leaves: [item'] is [item] filled in, and the
    allocator holds exactly the nodes and strings that were added to it. *)
Definition tally (item item' : cJSON) (h h' : heap) : Prop :=
  next item' = next item
  /\ flagless (type item')
  /\ plain (child item')
  /\ nodes h' = nodes h + nodes_of (child item')
  /\ strings h' = strings h + owned (valuestring item')
                  + (owned (string item') - owned (string item))
                  + strings_of (child item').

(** The same for the loop that links the siblings after [c]. *)
Definition linked (c c' : cJSON) (h h' : heap) : Prop :=
  exists nx,
    c' = set_next c nx /\ plain nx
    /\ nodes h' = nodes h + nodes_of nx
    /\ strings h' = strings h + strings_of nx.

(** The malformed texts of the specification. *)
Definition malformed_object : cstr := json "{'a':}".
Definition malformed_array : cstr := lit "[1,2,".
Definition malformed_literal : cstr := lit "tru".

(** A byte the printer and the parser agree on inside a string: any byte
    but the double quote, the backslash and NUL. *)
Definition safe_char (c : ascii) : bool :=
  negb (Ascii.eqb c quote) && negb (Ascii.eqb c backslash) && negb (Ascii.eqb c NUL).

Definition text_safe (s : cstr) : bool := forallb safe_char s.

Definition safe_string (s : option cstr) : bool :=
  match s with Some x => text_safe x | None => true end.

(** The text [print_number] chooses for a node. *)
Definition number_text (item : cJSON) : cstr :=
  let d := valuedouble item in
  if (d =? 0)%float then lit "0"
  else if near_int item && in_int_range d then Fmt.sprintf_d (valueint item)
  else Fmt.sprintf_g d.

(** A byte that can occur in the text of a number. *)
Definition number_char (c : ascii) : bool :=
  is_digit c || Ascii.eqb c "-" || Ascii.eqb c "+" || Ascii.eqb c "."
  || Ascii.eqb c "e" || Ascii.eqb c "E".

(** The number survives printing and parsing on its own: its text fits the
    64-byte block, starts as a number starts, and the number production
    reads all of it back to an equal double with the same projection. *)
Definition number_safe (d : float) : bool :=
  let item := created_number d in
  let text := number_text item in
  (strlen text + 1 <=? 64)
  && match text with
     | c :: _ => Ascii.eqb c "-" || is_digit c
     | [] => false
     end
  && forallb number_char text
  && match parse_number text zeroed 0 h0 with
     | Val (item', Some q) _ =>
         (q =? length text)%nat
         && (d =? valuedouble item')%float
         && (valueint item' =? valueint item)
     | _ => false
     end.

(** The nodes the create functions and [cJSON_AddItemToObject] can leave:
    a scalar has no child; a String has its text; a Number its projection;
    every child of a container carries a key. *)
Fixpoint shape_item (c : cJSON) : bool :=
  match c with
  | mkJSON _ child t v i d _ =>
      if t =? cJSON_String then negb (no_string v) && is_null child
      else if t =? cJSON_Number then no_string v && is_null child && (i =? Dbl.to_int d)
      else if (t =? cJSON_True) || (t =? cJSON_False) then no_string v && is_null child
      else if (t =? cJSON_Array) || (t =? cJSON_Object) then no_string v && shape_chain child
      else false
  end
with shape_chain (p : ptr) : bool :=
  match p with
  | NULL => true
  | Ptr (mkJSON next _ _ _ _ _ key as c) =>
      negb (no_string key) && shape_item c && shape_chain next
  end.

(** Every string and key below the pointer is made of safe bytes, and every
    number is one that survives printing and parsing. *)
Fixpoint safe_tree (p : ptr) : bool :=
  match p with
  | NULL => true
  | Ptr (mkJSON next child t v _ d key) =>
      safe_string v && safe_string key
      && (if t =? cJSON_Number then number_safe d else true)
      && safe_tree child && safe_tree next
  end.



(** The trees of the construction API: what the create functions return,
    and what [cJSON_AddItemToObject] makes of a built container, a key and
    a built child. *)
Inductive Built (refused : nat -> bool) : cJSON -> Prop :=
| built_object h h' c :
    cJSON_CreateObject refused h = Val (Ptr c) h' -> Built refused c
| built_array h h' c :
    cJSON_CreateArray refused h = Val (Ptr c) h' -> Built refused c
| built_string s h h' c :
    cJSON_CreateString refused (Some s) h = Val (Ptr c) h' -> Built refused c
| built_number d h h' c :
    cJSON_CreateNumber refused d h = Val (Ptr c) h' -> Built refused c
| built_bool b h h' c :
    cJSON_CreateBool refused b h = Val (Ptr c) h' -> Built refused c
| built_add o key it h h' o' it' :
    Built refused o -> Built refused it -> is_container o = true ->
    cJSON_AddItemToObject refused (Ptr o) (Some key) (Ptr it) h = Val (1, Ptr o', it') h' ->
    Built refused o'.

(** A freshly built tree: well shaped, no sibling, no key. *)
Definition root_shape (c : cJSON) : Prop :=
  shape_item c = true /\ next c = NULL /\ string c = None.







(** A run that does not stop for want of fuel. *)
Definition finishes {A} (r : result A) : Prop := r <> OutOfFuel.

(** A production started at [p] that does not stop for want of fuel and,
    when it returns a cursor, returns one after [p]. *)
Definition progress (p : nat) (r : result (cJSON * option nat)) : Prop :=
  finishes r /\ forall item q h, r = Val (item, Some q) h -> (p < q)%nat.

(** What a production leaves of a node without children: its key and its
    sibling are untouched and, when the production returns a cursor and the
    node is an Object, every child carries a key. *)
Definition members_keyed (item item' : cJSON) (r : option nat) : Prop :=
  string item' = string item /\ next item' = next item
  /\ (r <> None -> type item' = cJSON_Object -> Forall keyed (siblings (child item'))).

(** The memory of the text from an offset on. *)
Definition window (buf : cstr) (p : nat) : list ascii := skipn p (memory buf).





(** The bytes read by two runs of the number production are alike when
    they are equal or neither can occur in a number. *)
Definition alike (c1 c2 : ascii) : Prop :=
  c1 = c2 \/ (number_char c1 = false /\ number_char c2 = false).



(** [parse_number] from three points on: once the exponent has been read,
    from the exponent on, and from the fraction on.  [parse_number] is its
    first three tests followed by [number_fraction]
    ([parse_number_unfold]). *)
Definition number_finish (item : cJSON) (sign n scale : float) (subscale signsubscale : Z)
    (num : nat) : M (cJSON * option nat) :=
  let n := (sign * n * Dbl.pow10 (scale + Dbl.of_int (wrap_int (subscale * signsubscale))))%float in
  let item := set_valuedouble item n in
  let item := set_valueint item (Dbl.to_int n) in
  let item := set_type item cJSON_Number in
  ret (item, Some num).

Definition number_exponent (buf : cstr) (item : cJSON) (sign : float) (num : nat)
    (n scale : float) : M (cJSON * option nat) :=
  (c <- load buf num ;;
   '(num, subscale, signsubscale) <-
     (if Ascii.eqb c "e" || Ascii.eqb c "E" then
        let num := (num + 1)%nat in
        c <- load buf num ;;
        let '(num, signsubscale) :=
          if Ascii.eqb c "+" then ((num + 1)%nat, 1)
          else if Ascii.eqb c "-" then ((num + 1)%nat, -1)
          else (num, 1) in
        '(num, subscale) <- exponent_digits buf (steps buf) num 0 ;;
        ret (num, subscale, signsubscale)
      else ret (num, 0, 1)) ;;
   number_finish item sign n scale subscale signsubscale num)%monad.

Definition number_fraction (buf : cstr) (item : cJSON) (sign : float) (num : nat) (n : float)
    : M (cJSON * option nat) :=
  (c <- load buf num ;;
   '(num, n, scale) <-
     (if Ascii.eqb c "."
      then c1 <- load buf (num + 1)%nat ;;
           if is_digit c1 then fraction_digits buf (steps buf) (num + 1)%nat n 0%float
           else ret (num, n, 0%float)
      else ret (num, n, 0%float)) ;;
   number_exponent buf item sign num n scale)%monad.






(** The container [o] once [it] has been added to it under [key], when no
    allocation is refused. *)
Definition built_with (o : cJSON) (key : String.string) (it : cJSON) : cJSON :=
  match cJSON_AddItemToObject never (Ptr o) (Some (lit key)) (Ptr it) h0 with
  | Val (_, Ptr o', _) _ => o'
  | _ => o
  end.

(** What a create function returns when no allocation is refused. *)
Definition created (make : M ptr) : cJSON :=
  match make h0 with
  | Val (Ptr c) _ => c
  | _ => zeroed
  end.

(** A document with a member of every kind the construction API makes. *)
Definition sample_document : cJSON :=
  let list :=
    built_with
      (built_with (created (cJSON_CreateArray never)) "0" (created (cJSON_CreateBool never 1)))
      "1" (created (cJSON_CreateNumber never (-12)%float)) in
  built_with
    (built_with
       (built_with
          (built_with (created (cJSON_CreateObject never)) "a"
             (created (cJSON_CreateNumber never 3.5%float)))
          "s" (created (cJSON_CreateString never (Some (lit "hi")))))
       "l" list)
    "f" (created (cJSON_CreateBool never 0)).


(** What a run of the printer leaves in the allocator: the block of the
    text it returns, and nothing when it returns null. *)
Definition print_tally (refused : nat -> bool) (c : cJSON) : Prop :=
  forall h r h',
    print_item refused c h = Val r h' ->
    nodes h' = nodes h /\ strings h' = strings h + owned r.

(** The same for the four loops over a sibling list: the measuring passes
    leave nothing; the writing passes, which are handed the block of the
    text, leave it alone when they return it and free it when they fail. *)
Definition loops_tally (refused : nat -> bool) (p : ptr) : Prop :=
  (forall len h r h',
      array_measure refused p len h = Val r h' ->
      nodes h' = nodes h /\ strings h' = strings h)
  /\ (forall len out h r h',
        array_write refused p len out h = Val r h' ->
        nodes h' = nodes h /\ strings h' = strings h - (1 - owned r))
  /\ (forall len h r h',
        object_measure refused p len h = Val r h' ->
        nodes h' = nodes h /\ strings h' = strings h)
  /\ (forall len out h r h',
        object_write refused p len out h = Val r h' ->
        nodes h' = nodes h /\ strings h' = strings h - (1 - owned r)).

(** What a create function returns: null, or a node on its own. *)
Definition creates (make : M ptr) (good : cJSON -> Prop) : Prop :=
  forall h p h1,
    make h = Val p h1 ->
    (p = NULL /\ nodes h1 = nodes h /\ strings h1 = strings h)
    \/ (exists c, p = Ptr c /\ good c
                  /\ next c = NULL /\ child c = NULL /\ string c = None
                  /\ flagless (type c)
                  /\ nodes h1 = nodes h + 1
                  /\ strings h1 = strings h + owned (valuestring c)).

(** What [cJSON_AddStringToObject] and its two siblings return: null with
    nothing changed, or the node made, keyed and linked last. *)
Definition added (good : cJSON -> Prop) (object : ptr) (name : option cstr)
    (h : heap) (r : ptr * ptr) (h' : heap) : Prop :=
  (r = (NULL, object) /\ nodes h' = nodes h /\ strings h' = strings h)
  \/ (exists o o' k c,
        object = Ptr o /\ name = Some k /\ good c
        /\ r = (Ptr (set_string c (Some k)), Ptr o')
        /\ members (child o') = members (child o) ++ [set_string c (Some k)]
        /\ o' = set_child o (child o')
        /\ nodes h' = nodes h + 1
        /\ strings h' = strings h + owned (valuestring c) + 1).

(** The node a lookup returned, on its own; nothing for null. *)
Definition found (p : ptr) : option cJSON :=
  match p with
  | Ptr c => Some (detach c)
  | NULL => None
  end.

(** The blocks a response holds, the buffer of a binary reply apart: the
    struct, its message, and the struct of a stored reply with its two
    strings. *)
Definition blocks_of (r : pxshot_response_t) : Z :=
  1 + owned (error_message r)
  + match stored r with
    | Some s => 1 + owned (stored_url s) + owned (expires_at s)
    | None => 0
    end.

(** A response that reports [err] and nothing else: no status, no data, no
    stored reply, and for a message [msg] or, when there was no memory for
    the copy, nothing. *)
Definition answer (err : Z) (msg : cstr) (r : pxshot_response_t) : Prop :=
  error r = err /\ http_status r = 0
  /\ response_data r = None /\ data_len r = 0 /\ stored r = None
  /\ (error_message r = None \/ error_message r = Some msg).

(** What the calls that add members leave of an object: the same node with
    more children, and in the allocator exactly the nodes and strings of
    the children that came. *)
Definition grows (o o' : cJSON) (h h' : heap) : Prop :=
  o' = set_child o (child o')
  /\ (plain (child o) -> plain (child o'))
  /\ nodes_of (child o') - nodes_of (child o) = nodes h' - nodes h
  /\ strings_of (child o') - strings_of (child o) = strings h' - strings h.

(** [content_type && strstr(content_type, "application/json")] *)
Definition json_reply (t : transfer) : bool :=
  match content_type t with
  | Some ct => strstr ct (lit "application/json")
  | None => false
  end.

(** What [pxshot_screenshot] makes of a transfer.  A transfer that failed
    is reported with libcurl's message, as a timeout or as a failed
    request; one that came back carries its status; a status of 400 and
    more is an HTTP error; below that, a reply that was asked to be stored
    or says it is JSON gives a stored struct, or a parse or memory error,
    and any other reply gives its bytes. *)
Definition outcome (curl_easy_strerror : Z -> cstr) (opts : pxshot_screenshot_opts_t)
    (t : transfer) (r : pxshot_response_t) : Prop :=
  if negb (res t =? CURLE_OK) then
    answer (if res t =? CURLE_OPERATION_TIMEDOUT
            then PXSHOT_ERR_TIMEOUT else PXSHOT_ERR_CURL_PERFORM)
      (curl_easy_strerror (res t)) r
  else
    http_status r = wrap_int (response_code t)
    /\ if 400 <=? response_code t then
         error r = PXSHOT_ERR_HTTP_ERROR
         /\ response_data r = None /\ data_len r = 0 /\ stored r = None
       else if store opts || json_reply t then
         response_data r = None /\ data_len r = 0
         /\ ((error r = PXSHOT_OK /\ stored r <> None /\ error_message r = None)
             \/ (error r = PXSHOT_ERR_JSON_PARSE /\ stored r = None)
             \/ (error r = PXSHOT_ERR_OUT_OF_MEMORY /\ stored r = None))
       else
         r = mkResponse PXSHOT_OK (wrap_int (response_code t)) None
               (data (filled t)) (len (filled t)) None.

(** The blocks [pxshot_screenshot] loses hold of: none, but for a status of
    400 and more, where it may be one. *)
Definition lost (t : transfer) (k : Z) : Prop :=
  k = 0 \/ (k = 1 /\ res t = CURLE_OK /\ 400 <= response_code t).

(** libcurl's [CURLE_WRITE_ERROR]. *)
Definition CURLE_WRITE_ERROR : Z := 23.

(** A transport for the properties that need one, after libcurl's
    description of the write callback: the chunks of the reply are handed
    to the callback one call each, with a size of 1, and the transfer is
    given up with [CURLE_WRITE_ERROR] at the first call that does not take
    all of its chunk; otherwise the transfer ends with [code], the status
    and the content type of the reply. *)
Fixpoint hand_over (callback : list ascii -> Z -> Z -> pxshot_buffer_t -> M (Z * pxshot_buffer_t))
    (chunks : list (list ascii)) (buf : pxshot_buffer_t) : M (bool * pxshot_buffer_t) :=
  match chunks with
  | [] => ret (true, buf)
  | chunk :: rest =>
      '(taken, buf) <- callback chunk 1 (strlen chunk) buf ;;
      if taken =? strlen chunk then hand_over callback rest buf else ret (false, buf)
  end.

Definition transport {slist : Type} (code : Z) (chunks : list (list ascii)) (status : Z)
    (ctype : option cstr)
    (callback : list ascii -> Z -> Z -> pxshot_buffer_t -> M (Z * pxshot_buffer_t))
    (req : request slist) (buf : pxshot_buffer_t) : M transfer :=
  '(all, buf) <- hand_over callback chunks buf ;;
  ret (if all then mkTransfer code buf status ctype
       else mkTransfer CURLE_WRITE_ERROR buf status ctype).

(** A transport that leaves the blocks of the program alone, the response
    buffer apart. *)
Definition keeps_blocks {slist : Type} (refused : nat -> bool)
    (perform : (list ascii -> Z -> Z -> pxshot_buffer_t -> M (Z * pxshot_buffer_t)) ->
               request slist -> pxshot_buffer_t -> M transfer) : Prop :=
  forall req buf h t h',
    perform (pxshot_write_callback refused) req buf h = Val t h' ->
    nodes h' = nodes h /\ strings h' = strings h.

(** The options of [pxshot_screenshot_opts_t opts = {0}; opts.url = u;] and
    a client as [pxshot_new] makes them. *)
Definition default_opts (u : cstr) : pxshot_screenshot_opts_t :=
  mkOpts (Some u) 0 0 0 0 false 0 None 0 0%float false false.

Definition client_of (key : cstr) : pxshot_client :=
  mkClient (Some key) (Some PXSHOT_DEFAULT_BASE_URL) 30000 true.

(** The blocks a usage struct holds: the struct and its two strings. *)
Definition usage_blocks (u : option pxshot_usage_t) : Z :=
  match u with
  | Some u => 1 + owned (period_start u) + owned (period_end u)
  | None => 0
  end.

(** What [pxshot_get_usage] makes of a transfer: a failed one, a timeout
    too, is a failed request; a status of 400 and more is an HTTP error
    whose body is not read; below that the reply gives the usage struct, or
    a parse or memory error.  The struct is there exactly when the error is
    [PXSHOT_OK]. *)
Definition usage_outcome (curl_easy_strerror : Z -> cstr) (t : transfer)
    (r : pxshot_response_t) (u : option pxshot_usage_t) : Prop :=
  response_data r = None /\ data_len r = 0 /\ stored r = None
  /\ if negb (res t =? CURLE_OK) then
       answer PXSHOT_ERR_CURL_PERFORM (curl_easy_strerror (res t)) r /\ u = None
     else
       http_status r = wrap_int (response_code t)
       /\ if 400 <=? response_code t then
            error r = PXSHOT_ERR_HTTP_ERROR /\ u = None
            /\ (error_message r = None \/ error_message r = Some (lit "HTTP error"))
          else
            (error r = PXSHOT_OK /\ u <> None /\ error_message r = None)
            \/ (error r = PXSHOT_ERR_JSON_PARSE /\ u = None)
            \/ (error r = PXSHOT_ERR_OUT_OF_MEMORY /\ u = None).


(** Samples for the examples: a key, a URL, header lists kept as lists of
    lines, and texts for libcurl's codes. *)
Definition sample_key : cstr := lit "px_test_key".
Definition sample_url : cstr := lit "https://example.com".

Definition lines_append (l : option (list cstr)) (line : cstr) : option (list cstr) :=
  Some (match l with Some x => x | None => [] end ++ [line]).

Definition strerror_text (code : Z) : cstr :=
  if code =? CURLE_OPERATION_TIMEDOUT then lit "Timeout was reached"
  else lit "Failure".









(** The options with another [block_ads]. *)
Definition set_block_ads (o : pxshot_screenshot_opts_t) (b : bool) : pxshot_screenshot_opts_t :=
  mkOpts (url o) (format o) (quality o) (width o) (height o) (full_page o) (wait_until o)
    (wait_for_selector o) (wait_for_timeout o) (device_scale_factor o) (store o) b.


(** A text without a NUL byte: one that a C string holds in full. *)
Definition no_nul (s : cstr) : bool := forallb (fun c => negb (Ascii.eqb c NUL)) s.















(** The pieces of the text of a string between its quotes, as
    [parse_string] takes them: a byte on its own, a backslash with the byte
    after it, and a backslash, a u and four bytes. *)
Inductive token : Type :=
| Plain (c : ascii)
| Escape (e : ascii)
| Unicode (a b c d : ascii).

(** The pieces the two loops of [parse_string] agree on: a byte on its own
    is none of the quote, the backslash and NUL, and so are the four bytes
    of a unicode escape; an escaped byte is not NUL. *)
Definition token_ok (t : token) : bool :=
  match t with
  | Plain c => safe_char c
  | Escape e => negb (Ascii.eqb e NUL) && negb (Ascii.eqb e "u")
  | Unicode a b c d => safe_char a && safe_char b && safe_char c && safe_char d
  end.

Definition escaped (t : token) : cstr :=
  match t with
  | Plain c => [c]
  | Escape e => [backslash; e]
  | Unicode a b c d => [backslash; "u"%char; a; b; c; d]
  end.

(** The byte an escaped byte stands for. *)
Definition escape_char (e : ascii) : ascii :=
  if Ascii.eqb e "b" then "008"%char
  else if Ascii.eqb e "f" then "012"%char
  else if Ascii.eqb e "n" then "010"%char
  else if Ascii.eqb e "r" then "013"%char
  else if Ascii.eqb e "t" then "009"%char
  else e.

Definition unescaped (t : token) : cstr :=
  match t with
  | Plain c => [c]
  | Escape e => [escape_char e]
  | Unicode _ _ _ _ => []
  end.

(** A node without a key. *)
Definition unkeyed (c : cJSON) : Prop := string c = None.





(* ================================================================== *)
(** * Properties *)

(** ** The monad *)

Lemma bind_val {A B} (m : M A) (k : A -> M B) h a h1 :
  m h = Val a h1 -> bind m k h = k a h1.
Proof. unfold bind; intros ->; reflexivity. Qed.

Lemma bind_inv {A B} (m : M A) (k : A -> M B) h b h' :
  bind m k h = Val b h' -> exists a h1, m h = Val a h1 /\ k a h1 = Val b h'.
Proof. unfold bind; destruct (m h); try discriminate; eauto. Qed.

Lemma bind_assoc {A B C} (m : M A) (k1 : A -> M B) (k2 : B -> M C) h :
  bind (bind m k1) k2 h = bind m (fun a => bind (k1 a) k2) h.
Proof. unfold bind. destruct (m h); reflexivity. Qed.

Lemma bind_out_of_fuel {A B} (m : M A) (k : A -> M B) h :
  m h = OutOfFuel -> bind m k h = OutOfFuel.
Proof. unfold bind; intros ->; reflexivity. Qed.

Lemma bind_fault {A B} (m : M A) (k : A -> M B) h :
  m h = Fault -> bind m k h = Fault.
Proof. unfold bind; intros ->; reflexivity. Qed.

(** ** Reading the text *)

Lemma memory_length buf : length (memory buf) = S (length buf).
Proof. unfold memory; rewrite length_app; simpl; lia. Qed.

Lemma deref_end buf : deref buf (length buf) = Some NUL.
Proof. unfold deref, memory. rewrite nth_error_app2 by lia. rewrite Nat.sub_diag. reflexivity. Qed.

Lemma deref_some buf p : (p <= length buf)%nat -> exists c, deref buf p = Some c.
Proof.
  intros H. destruct (deref buf p) eqn:E; eauto.
  apply nth_error_None in E. rewrite memory_length in E. lia.
Qed.

Lemma deref_bound buf p c : deref buf p = Some c -> (p <= length buf)%nat.
Proof.
  intros H. assert (p < length (memory buf))%nat by (apply nth_error_Some; unfold deref in H; congruence).
  rewrite memory_length in *. lia.
Qed.

Lemma deref_inside buf p c : deref buf p = Some c -> c <> NUL -> (p < length buf)%nat.
Proof.
  intros H N. pose proof (deref_bound _ _ _ H).
  destruct (Nat.eq_dec p (length buf)); [|lia].
  subst. rewrite deref_end in H. congruence.
Qed.

Lemma load_val buf p c h : deref buf p = Some c -> load buf p h = Val c h.
Proof. unfold load; intros ->; reflexivity. Qed.

(** ** The number production *)

Lemma is_digit_not_nul c : is_digit c = true -> c <> NUL.
Proof. intros H E; subst; discriminate. Qed.

Lemma is_digit19_not_nul c : is_digit19 c = true -> c <> NUL.
Proof. intros H E; subst; discriminate. Qed.

Ltac load_at buf p c E :=
  let H := fresh in
  assert (H : exists c, deref buf p = Some c) by (apply deref_some; lia);
  destruct H as [c E]; rewrite (bind_val _ _ _ _ _ (load_val _ _ _ _ E)).

Lemma integer_digits_total buf : forall fuel num n h,
  (num < length buf)%nat -> (length buf < fuel + num)%nat ->
  exists num' n', integer_digits buf fuel num n h = Val (num', n') h
                  /\ (num < num' <= length buf)%nat.
Proof.
  induction fuel as [|fuel IH]; intros num n h Hin Hf; [lia|].
  cbn [integer_digits].
  load_at buf num c E. load_at buf (num + 1)%nat c' E'.
  destruct (is_digit c') eqn:D.
  - pose proof (deref_inside _ _ _ E' (is_digit_not_nul _ D)).
    destruct (IH (num + 1)%nat (n * 10 + Dbl.of_int (code c - code "0"))%float h) as (p & m & -> & ?); try lia.
    eexists _, _; split; [reflexivity|lia].
  - eexists _, _; split; [reflexivity|lia].
Qed.

Lemma fraction_digits_total buf : forall fuel num n s h,
  (num < length buf)%nat -> (length buf < fuel + num)%nat ->
  exists num' n' s', fraction_digits buf fuel num n s h = Val (num', n', s') h
                  /\ (num < num' <= length buf)%nat.
Proof.
  induction fuel as [|fuel IH]; intros num n s h Hin Hf; [lia|].
  cbn [fraction_digits].
  load_at buf num c E. load_at buf (num + 1)%nat c' E'.
  destruct (is_digit c') eqn:D.
  - pose proof (deref_inside _ _ _ E' (is_digit_not_nul _ D)).
    destruct (IH (num + 1)%nat (n * 10 + Dbl.of_int (code c - code "0"))%float (s - 1)%float h)
      as (p & m & s' & -> & ?); try lia.
    eexists _, _, _; split; [reflexivity|lia].
  - eexists _, _, _; split; [reflexivity|lia].
Qed.

Lemma exponent_digits_total buf : forall fuel num sub h,
  (num <= length buf)%nat -> (length buf < fuel + num)%nat ->
  exists num' sub', exponent_digits buf fuel num sub h = Val (num', sub') h
                  /\ (num <= num' <= length buf)%nat.
Proof.
  induction fuel as [|fuel IH]; intros num sub h Hin Hf; [lia|].
  cbn [exponent_digits].
  load_at buf num c E.
  destruct (is_digit c) eqn:D.
  - pose proof (deref_inside _ _ _ E (is_digit_not_nul _ D)).
    destruct (IH (num + 1)%nat (wrap_int (wrap_int (sub * 10) + (code c - code "0"))) h)
      as (p & m & -> & ?); try lia.
    eexists _, _; split; [reflexivity|lia].
  - eexists _, _; split; [reflexivity|lia].
Qed.

Lemma eqb_not_nul c d : Ascii.eqb c d = true -> d <> NUL -> c <> NUL.
Proof. intros H; apply Ascii.eqb_eq in H; subst; auto. Qed.

Lemma inside_eqb buf p c d :
  deref buf p = Some c -> Ascii.eqb c d = true -> d <> NUL -> (p < length buf)%nat.
Proof. intros E H N. eapply deref_inside; eauto using eqb_not_nul. Qed.

Ltac inside E D := pose proof (inside_eqb _ _ _ _ E D ltac:(discriminate)).

Lemma parse_number_total buf item num h :
  (num <= length buf)%nat ->
  exists item' num', parse_number buf item num h = Val (item', Some num') h
     /\ (num <= num' <= length buf)%nat
     /\ type item' = cJSON_Number
     /\ valueint item' = Dbl.to_int (valuedouble item')
     /\ next item' = next item /\ child item' = child item
     /\ valuestring item' = valuestring item /\ string item' = string item.
Proof.
  intros Hin. unfold parse_number.
  load_at buf num c0 E0.
  assert (exists sign num1, (if Ascii.eqb c0 "-" then ((-1)%float, (num + 1)%nat) else (1%float, num)) = (sign, num1)
          /\ (num <= num1 <= length buf)%nat) as (sign & num1 & -> & H1).
  { destruct (Ascii.eqb c0 "-") eqn:D; eexists _, _; split; try reflexivity; try lia.
    inside E0 D. lia. }
  load_at buf num1 c1 E1.
  assert (exists num2, (if Ascii.eqb c1 "0" then (num1 + 1)%nat else num1) = num2
          /\ (num1 <= num2 <= length buf)%nat) as (num2 & -> & H2).
  { destruct (Ascii.eqb c1 "0") eqn:D; eexists; split; try reflexivity; try lia.
    inside E1 D. lia. }
  load_at buf num2 c2 E2.
  assert (exists num3 n3, (if is_digit19 c2 then integer_digits buf (steps buf) num2 0%float else ret (num2, 0%float)) h
             = Val (num3, n3) h /\ (num2 <= num3 <= length buf)%nat) as (num3 & n3 & E3 & H3).
  { destruct (is_digit19 c2) eqn:D.
    - pose proof (deref_inside _ _ _ E2 (is_digit19_not_nul _ D)).
      destruct (integer_digits_total buf (steps buf) num2 0%float h) as (p & m & -> & ?);
        unfold steps; try lia. eexists _, _; split; [reflexivity|lia].
    - eexists _, _; split; [reflexivity|lia]. }
  rewrite (bind_val _ _ _ _ _ E3). cbn beta iota.
  load_at buf num3 c3 E4.
  match goal with |- context [bind ?m _ h] =>
    assert (exists num4 n4 s4, m h = Val (num4, n4, s4) h /\ (num3 <= num4 <= length buf)%nat)
      as (num4 & n4 & s4 & E5 & H4) end.
  { destruct (Ascii.eqb c3 ".") eqn:D.
    - inside E4 D.
      load_at buf (num3 + 1)%nat c3' E4'.
      destruct (is_digit c3') eqn:D'.
      + pose proof (deref_inside _ _ _ E4' (is_digit_not_nul _ D')).
        destruct (fraction_digits_total buf (steps buf) (num3 + 1)%nat n3 0%float h)
          as (p & m & s & -> & ?); unfold steps; try lia.
        eexists _, _, _; split; [reflexivity|lia].
      + eexists _, _, _; split; [reflexivity|lia].
    - eexists _, _, _; split; [reflexivity|lia]. }
  rewrite (bind_val _ _ _ _ _ E5). cbn beta iota.
  load_at buf num4 c4 E6.
  match goal with |- context [bind ?m _ h] =>
    assert (exists num5 sub sg, m h = Val (num5, sub, sg) h /\ (num4 <= num5 <= length buf)%nat)
      as (num5 & sub & sg & E7 & H5) end.
  { destruct (Ascii.eqb c4 "e" || Ascii.eqb c4 "E") eqn:D.
    - assert (num4 < length buf)%nat.
      { apply orb_true_iff in D. destruct D as [D|D]; inside E6 D; lia. }
      load_at buf (num4 + 1)%nat c5 E6'.
      assert (exists num6 sg, (if Ascii.eqb c5 "+" then ((num4 + 1 + 1)%nat, 1)
                 else if Ascii.eqb c5 "-" then ((num4 + 1 + 1)%nat, -1) else ((num4 + 1)%nat, 1)) = (num6, sg)
                 /\ (num4 <= num6 <= length buf)%nat) as (num6 & sg & -> & H6).
      { destruct (Ascii.eqb c5 "+") eqn:D1; [|destruct (Ascii.eqb c5 "-") eqn:D2];
          eexists _, _; (split; [reflexivity|]); try lia.
        - inside E6' D1. lia.
        - inside E6' D2. lia. }
      destruct (exponent_digits_total buf (steps buf) num6 0 h) as (p & m & E8 & ?);
        unfold steps; try lia.
      rewrite (bind_val _ _ _ _ _ E8). cbn.
      eexists _, _, _; split; [reflexivity|lia].
    - eexists _, _, _; split; [reflexivity|lia]. }
  rewrite (bind_val _ _ _ _ _ E7). cbn beta iota.
  eexists _, _; split; [reflexivity|].
  destruct item; cbn. repeat split; try lia.
Qed.


(** A number followed by other text: the production stops where the
    number's syntax stops. *)
Example parse_number_prefix :
  exists item,
    parse_number (lit "-12.5e+1,x") zeroed 0 h0 = Val (item, Some 8%nat) h0
    /\ valuedouble item = (-125)%float /\ valueint item = -125.
Proof. eexists. split; [vm_compute; reflexivity|]. split; vm_compute; reflexivity. Qed.

(** ** Unterminated strings *)

(** C3: the text made of an opening quote and abc, with no closing quote, is
    accepted: the parse returns a String node holding abc. *)
Theorem unterminated_string_accepted :
  cJSON_Parse never (Some unterminated) h0
  = Val (Ptr (mkJSON NULL NULL cJSON_String (Some (lit "abc")) 0 0%float None)) (mkHeap 1 1 2).
Proof. vm_compute. reflexivity. Qed.

(** The same inside an array reads past the end of the text. *)
Example unterminated_in_array :
  cJSON_Parse never (Some (json "['abc")) h0 = Fault.
Proof. vm_compute. reflexivity. Qed.

(** ** Adding a child *)

Lemma siblings_Ptr c : siblings (Ptr c) = c :: siblings (next c).
Proof. destruct c; reflexivity. Qed.

Lemma members_Ptr c : members (Ptr c) = detach c :: members (next c).
Proof. unfold members. rewrite siblings_Ptr. reflexivity. Qed.

Lemma members_append_sibling : forall first it,
  members (Ptr (append_sibling first it)) = members (Ptr first) ++ members (Ptr it).
Proof.
  fix IH 1. intros [nx ch t v i d s] it.
  destruct nx as [|n].
  - destruct it; reflexivity.
  - cbn [append_sibling]. rewrite !(members_Ptr (mkJSON _ _ _ _ _ _ _)). cbn [next].
    rewrite IH. reflexivity.
Qed.

(** The nodes are what the create functions return. *)
Example string_node_created :
  cJSON_CreateString never (Some (lit "s")) h0 = Val (Ptr string_node) (mkHeap 1 1 2).
Proof. vm_compute. reflexivity. Qed.

Example number_node_created :
  cJSON_CreateNumber never 1%float h0 = Val (Ptr number_node) (mkHeap 1 0 1).
Proof. vm_compute. reflexivity. Qed.

(** C8, as stated, fails: a String node is accepted as the container, the
    call returns 1 and the child is linked under it. *)
Lemma add_to_string_node_succeeds :
  is_container string_node = false
  /\ exists h1,
       cJSON_AddItemToObject never (Ptr string_node) (Some (lit "k")) (Ptr number_node) h0
       = Val (1, Ptr (set_child string_node (Ptr (set_string number_node (Some (lit "k"))))),
              Ptr (set_string number_node (Some (lit "k")))) h1.
Proof. split; [reflexivity|]. eexists. vm_compute. reflexivity. Qed.

(** C8, amended: the call returns 0 and links nothing when the container,
    the key or the child is null, and when the copy of the key cannot be
    allocated; otherwise, whatever the kind of the container, it returns 1,
    the child carries a copy of the key and comes last among the children. *)
Theorem add_item_checks_null_only (refused : nat -> bool) :
  (forall object str item h,
      is_null object || is_null item || no_string str = true ->
      cJSON_AddItemToObject refused object str item h = Val (0, object, item) h)
  /\ (forall o s it h,
        refused (requests h) = true ->
        exists h1,
          cJSON_AddItemToObject refused (Ptr o) (Some s) (Ptr it) h
          = Val (0, Ptr o, Ptr (set_string it None)) h1
          /\ nodes h1 = nodes h /\ strings h1 = strings h)
  /\ (forall o s it h,
        refused (requests h) = false ->
        exists o' h1,
          cJSON_AddItemToObject refused (Ptr o) (Some s) (Ptr it) h
          = Val (1, Ptr o', Ptr (set_string it (Some s))) h1
          /\ members (child o') = members (child o) ++ members (Ptr (set_string it (Some s)))
          /\ o' = set_child o (child o')
          /\ nodes h1 = nodes h /\ strings h1 = strings h + 1).
Proof.
  split; [|split].
  - intros object str item h H.
    unfold cJSON_AddItemToObject, add_item_to_object.
    destruct object; [reflexivity|]. destruct item; [reflexivity|].
    destruct str; [discriminate|reflexivity].
  - intros o s it h R.
    unfold cJSON_AddItemToObject, add_item_to_object, cJSON_strdup, cJSON_malloc, bind, ret.
    cbn. rewrite R. cbn. eexists. split; [reflexivity|]. split; reflexivity.
  - intros o s it h R.
    unfold cJSON_AddItemToObject, add_item_to_object, cJSON_strdup, cJSON_malloc, bind, ret.
    cbn. rewrite R. cbn.
    destruct (child o) as [|first] eqn:C.
    + eexists _, _. split; [reflexivity|]. destruct o; cbn in *.
      repeat split.
    + eexists _, _. split; [reflexivity|]. destruct o; cbn in *.
      split; [apply members_append_sibling|]. repeat split.
Qed.

Lemma add_item_checks_null_only_witness :
  cJSON_AddItemToObject never NULL (Some (lit "k")) (Ptr number_node) h0
  = Val (0, NULL, Ptr number_node) h0.
Proof.
  apply (proj1 (add_item_checks_null_only never)). reflexivity.
Defined.

(** ** Printing a number *)

Lemma created_number_ok refused d h :
  refused (requests h) = false ->
  cJSON_CreateNumber refused d h
  = Val (Ptr (created_number d)) (mkHeap (nodes h + 1) (strings h) (S (requests h))).
Proof.
  intros R. unfold cJSON_CreateNumber, cJSON_New_Item, cJSON_malloc, bind, ret. rewrite R. reflexivity.
Qed.

Lemma strcpy_fresh size text h :
  strcpy_at size [] text h = if size <? strlen text + 1 then Fault else Val text h.
Proof.
  unfold strcpy_at. change (strlen [] + strlen text + 1) with (strlen text + 1).
  destruct (size <? strlen text + 1); reflexivity.
Qed.

(** C7, as stated, fails: the double 2^-52 is not zero and is changed by
    the conversion to [int] and back, yet it is printed as the integer 0
    and not in the general float format. *)
Lemma print_number_epsilon_as_integer :
  let item := created_number Dbl.DBL_EPSILON in
  (valuedouble item =? 0)%float = false
  /\ (Dbl.of_int (Dbl.to_int (valuedouble item)) =? valuedouble item)%float = false
  /\ print_value never (Ptr item) h0 = Val (Some (lit "0")) (mkHeap 0 1 1)
  /\ Fmt.sprintf_g (valuedouble item) = lit "2.22045e-16".
Proof. repeat split; vm_compute; reflexivity. Qed.

(** The three cases of [print_number], in the order the code tests them. *)
Lemma print_number_cases (refused : nat -> bool) item h :
  refused (requests h) = false ->
  print_number refused item h
  = if (valuedouble item =? 0)%float then emit (lit "0") h
    else if near_int item && in_int_range (valuedouble item)
         then emit (Fmt.sprintf_d (valueint item)) h
         else emit (Fmt.sprintf_g (valuedouble item)) h.
Proof.
  intros R. unfold print_number, cJSON_malloc, bind. rewrite R. cbn [negb].
  unfold near_int, in_int_range, emit.
  rewrite <- andb_assoc.
  destruct (valuedouble item =? 0)%float;
    [|match goal with |- context [if ?b && ?c then _ else _] => destruct (b && c) end];
    rewrite strcpy_fresh;
    match goal with |- context [64 <? ?x] => destruct (64 <? x) end; reflexivity.
Qed.

(** C7, amended: a zero prints as 0; a non-zero value within DBL_EPSILON of
    its integer projection and within the range of [int] prints as that
    integer; any other value prints in the general format.  The number 3
    prints as 3; 3.5 prints as 3.5, which parses back to 3.5. *)
Theorem print_number_order (refused : nat -> bool) :
  (forall item h,
      refused (requests h) = false ->
      let d := valuedouble item in
      print_number refused item h
      = if (d =? 0)%float then emit (lit "0") h
        else if near_int item && in_int_range d then emit (Fmt.sprintf_d (valueint item)) h
        else emit (Fmt.sprintf_g d) h)
  /\ print_value never (Ptr (created_number 3)) h0 = Val (Some (lit "3")) (mkHeap 0 1 1)
  /\ print_value never (Ptr (created_number 3.5)) h0 = Val (Some (lit "3.5")) (mkHeap 0 1 1)
  /\ (exists item h1,
        cJSON_Parse never (Some (lit "3.5")) h0 = Val (Ptr item) h1
        /\ Z.land (type item) 255 = cJSON_Number
        /\ valuedouble item = 3.5%float
        /\ (abs (valuedouble item - 3.5) <=? Dbl.DBL_EPSILON)%float = true).
Proof.
  split; [|split; [|split]].
  - intros item h R d. subst d. apply print_number_cases. exact R.
  - vm_compute. reflexivity.
  - vm_compute. reflexivity.
  - eexists _, _. split; [vm_compute; reflexivity|]. repeat split; vm_compute; reflexivity.
Qed.

Lemma print_number_order_witness :
  print_number never (created_number 3) h0 = emit (lit "3") h0.
Proof.
  rewrite (proj1 (print_number_order never) (created_number 3) h0 eq_refl). reflexivity.
Defined.

(** ** The growable buffer *)

Lemma wrap_size_small z : 0 <= z < 2 ^ 64 -> wrap_size z = z.
Proof. intros H. unfold wrap_size, SIZE_MOD. apply Z.mod_small. exact H. Qed.

Lemma double_until_pure : forall fuel c need h,
  double_until fuel c need h = OutOfFuel \/ exists c', double_until fuel c need h = Val c' h.
Proof.
  induction fuel as [|fuel IH]; intros c need h; cbn [double_until].
  - left. reflexivity.
  - destruct (c <? need); [apply IH|]. right. eexists. reflexivity.
Qed.

Lemma double_until_spec : forall fuel c need h,
  1 <= c < 2 ^ 64 -> need <= 2 ^ 63 -> 2 ^ 63 <= c * 2 ^ (Z.of_nat fuel - 1) ->
  exists j,
    0 <= j /\ double_until fuel c need h = Val (c * 2 ^ j) h
    /\ need <= c * 2 ^ j < 2 ^ 64
    /\ (j = 0 \/ c * 2 ^ j < 2 * need).
Proof.
  induction fuel as [|fuel IH]; intros c need h Hc Hn Hf.
  - exfalso. cbn in Hf. rewrite Z.mul_0_r in Hf. lia.
  - cbn [double_until]. destruct (Z.ltb_spec c need) as [Lt|Ge].
    + assert (W : wrap_size (c * 2) = c * 2) by (apply wrap_size_small; lia).
      rewrite W.
      assert (F : fuel <> O).
      { intros ->. cbn in Hf. lia. }
      destruct (IH (c * 2) need h) as (j & Hj & E & B & Min); try lia.
      { replace (Z.of_nat (S fuel) - 1) with (Z.succ (Z.of_nat fuel - 1)) in Hf by lia.
        rewrite Z.pow_succ_r in Hf by lia. lia. }
      exists (j + 1). rewrite Z.pow_add_r by lia. change (2 ^ 1) with 2.
      replace (c * (2 ^ j * 2)) with (c * 2 * 2 ^ j) by ring.
      repeat split; try lia; try assumption.
      right. destruct Min as [->|Min]; [|exact Min]. change (2 ^ 0) with 1. lia.
    + exists 0. change (2 ^ 0) with 1. rewrite Z.mul_1_r.
      repeat split; try lia.
Qed.

(** C6: when the capacity must grow and the allocator refuses the request,
    the callback returns 0 and the buffer is as it was, unless the doubling
    of the capacity has wrapped to zero and never ends; with the needed size
    at most 2^63 it does end. *)
Theorem realloc_failure_keeps_buffer (refused : nat -> bool) :
  (forall contents size nmemb buf h,
      cap buf < needed buf size nmemb ->
      refused (requests h) = true ->
      pxshot_write_callback refused contents size nmemb buf h = Val (0, buf) (asked h)
      \/ pxshot_write_callback refused contents size nmemb buf h = OutOfFuel)
  /\ (forall contents size nmemb buf h,
        0 <= cap buf ->
        cap buf < needed buf size nmemb <= 2 ^ 63 ->
        refused (requests h) = true ->
        pxshot_write_callback refused contents size nmemb buf h = Val (0, buf) (asked h)).
Proof.
  split.
  - intros contents size nmemb buf h G R.
    unfold pxshot_write_callback. fold (needed buf size nmemb).
    apply Z.ltb_lt in G. rewrite G. rewrite bind_assoc.
    destruct (double_until_pure 65 (if cap buf =? 0 then 4096 else wrap_size (cap buf * 2))
                (needed buf size nmemb) h) as [E|[c E]].
    + right. apply bind_out_of_fuel. exact E.
    + left. rewrite (bind_val _ _ _ _ _ E). unfold bind, realloc. rewrite R. reflexivity.
  - intros contents size nmemb buf h C G R.
    unfold pxshot_write_callback. fold (needed buf size nmemb).
    destruct G as [G N]. pose proof G as G'. apply Z.ltb_lt in G'. rewrite G'. rewrite bind_assoc.
    destruct (double_until_spec 65 (if cap buf =? 0 then 4096 else wrap_size (cap buf * 2))
                (needed buf size nmemb) h) as (j & _ & E & _); try lia.
    + destruct (Z.eqb_spec (cap buf) 0); [lia|].
      rewrite wrap_size_small by lia. lia.
    + destruct (Z.eqb_spec (cap buf) 0).
      * change (Z.of_nat 65 - 1) with 64. lia.
      * rewrite wrap_size_small by lia. change (Z.of_nat 65 - 1) with 64. lia.
    + rewrite (bind_val _ _ _ _ _ E). unfold bind, realloc. rewrite R. reflexivity.
Qed.

Lemma realloc_failure_keeps_buffer_witness :
  pxshot_write_callback (fun _ => true) (lit "bc") 1 2 full_buffer h0 = Val (0, full_buffer) (asked h0).
Proof.
  apply (proj2 (realloc_failure_keeps_buffer (fun _ => true))).
  - cbn. lia.
  - vm_compute. split; [reflexivity|discriminate].
  - reflexivity.
Defined.

Lemma strlen_app a b : strlen (a ++ b) = strlen a + strlen b.
Proof. unfold strlen. rewrite length_app. lia. Qed.

Lemma strlen_nonneg a : 0 <= strlen a.
Proof. unfold strlen. lia. Qed.

Lemma strlen_to_nat a : Z.to_nat (strlen a) = length a.
Proof. unfold strlen. lia. Qed.

(** The two stores of the callback, on a block that has room for them. *)
Lemma write_chunk (b : bytes) (content chunk : list ascii) :
  (length content + length chunk + 1 <= length b)%nat ->
  firstn (length content) b = map Some content ->
  let o := length content in
  let k := length chunk in
  let b2 := firstn o b ++ map Some (firstn k chunk) ++ skipn (o + k) b in
  let b3 := firstn (o + k) b2 ++ Some NUL :: skipn (S (o + k)) b2 in
  length b2 = length b
  /\ length b3 = length b
  /\ firstn (length (content ++ chunk)) b3 = map Some (content ++ chunk)
  /\ nth_error b3 (length (content ++ chunk)) = Some (Some NUL).
Proof.
  intros Hroom Hpre o k b2 b3. subst o k.
  assert (Hc : firstn (length chunk) chunk = chunk) by (apply firstn_all2; lia).
  assert (L2 : length b2 = length b).
  { unfold b2. rewrite !length_app, length_map, Hc, length_firstn, length_skipn. lia. }
  assert (F2 : firstn (length content + length chunk) b2 = map Some (content ++ chunk)).
  { unfold b2. rewrite Hc, Hpre, app_assoc, <- map_app.
    rewrite firstn_app.
    rewrite firstn_all2 by (rewrite length_map, length_app; lia).
    rewrite length_map, length_app, Nat.sub_diag.
    cbn [firstn]. apply app_nil_r. }
  assert (LF : length (firstn (length content + length chunk) b2)
               = (length content + length chunk)%nat).
  { rewrite length_firstn, L2. lia. }
  split; [exact L2|]. split; [|split].
  - unfold b3. rewrite length_app. cbn [length]. rewrite LF, length_skipn, L2. lia.
  - unfold b3. rewrite length_app.
    rewrite firstn_app, LF, Nat.sub_diag. cbn [firstn]. rewrite app_nil_r.
    rewrite firstn_firstn, Nat.min_id. exact F2.
  - unfold b3. rewrite length_app.
    rewrite nth_error_app2 by lia. rewrite LF, Nat.sub_diag. reflexivity.
Qed.

Lemma memcpy_store (b : bytes) (content chunk : list ascii) h :
  (length content + length chunk + 1 <= length b)%nat ->
  firstn (length content) b = map Some content ->
  exists b3,
    bind (memcpy (Some b) (strlen content) chunk (strlen chunk))
         (fun d => store_byte d (strlen content + strlen chunk) NUL) h = Val (Some b3) h
    /\ length b3 = length b
    /\ firstn (length (content ++ chunk)) b3 = map Some (content ++ chunk)
    /\ nth_error b3 (length (content ++ chunk)) = Some (Some NUL).
Proof.
  intros Hroom Hpre.
  destruct (write_chunk b content chunk Hroom Hpre) as (L2 & L3 & F & N).
  unfold bind, memcpy.
  destruct (Z.ltb_spec (strlen chunk) (strlen chunk)); [lia|].
  destruct (Z.ltb_spec (Z.of_nat (length b)) (strlen content + strlen chunk));
    [unfold strlen in *; lia|].
  cbn [orb]. unfold ret, store_byte.
  rewrite !strlen_to_nat.
  match goal with |- context [Z.of_nat (length ?x) <=? _] =>
    destruct (Z.leb_spec (Z.of_nat (length x)) (strlen content + strlen chunk)) as [Bad|_] end.
  { rewrite L2 in Bad. unfold strlen in Bad. lia. }
  replace (Z.to_nat (strlen content + strlen chunk)) with (length content + length chunk)%nat
    by (unfold strlen; lia).
  eexists. split; [reflexivity|]. split; [exact L3|]. split; [exact F|exact N].
Qed.

Lemma finish_append (b : bytes) (content chunk : list ascii) (c : Z) h :
  (length content + length chunk + 1 <= length b)%nat ->
  firstn (length content) b = map Some content ->
  strlen content + strlen chunk < 2 ^ 64 ->
  exists b3,
    bind (memcpy (Some b) (strlen content) chunk (strlen chunk))
      (fun d =>
         bind (store_byte d (wrap_size (strlen content + strlen chunk)) NUL)
           (fun d0 => ret (strlen chunk,
                           mkBuffer d0 (wrap_size (strlen content + strlen chunk)) c))) h
    = Val (strlen chunk, mkBuffer (Some b3) (strlen (content ++ chunk)) c) h
    /\ length b3 = length b
    /\ firstn (length (content ++ chunk)) b3 = map Some (content ++ chunk)
    /\ nth_error b3 (length (content ++ chunk)) = Some (Some NUL).
Proof.
  intros Hroom Hpre Hsz.
  pose proof (strlen_nonneg content). pose proof (strlen_nonneg chunk).
  rewrite wrap_size_small by lia.
  destruct (memcpy_store b content chunk h Hroom Hpre) as (b3 & E3 & L3 & F3 & N3).
  exists b3. split; [|auto].
  rewrite <- bind_assoc. rewrite (bind_val _ _ _ _ _ E3). rewrite strlen_app. reflexivity.
Qed.

Lemma grow_block (b : bytes) (n : nat) (content : list ascii) :
  (length b <= n)%nat ->
  firstn (length content) b = map Some content ->
  let b' := firstn n b ++ repeat None (n - length b) in
  length b' = n /\ firstn (length content) b' = map Some content.
Proof.
  intros Hn Hpre b'. unfold b'.
  rewrite firstn_all2 by lia. split.
  - rewrite length_app, repeat_length. lia.
  - assert (length content <= length b)%nat.
    { rewrite <- (length_map Some content), <- Hpre, length_firstn. lia. }
    rewrite firstn_app. replace (length content - length b)%nat with O by lia.
    cbn [firstn]. rewrite app_nil_r. exact Hpre.
Qed.

(** One append to a buffer that is empty or holds what was appended. *)
Lemma append_step (refused : nat -> bool) buf content chunk h :
  (forall k, refused k = false) ->
  (buf = empty_buffer /\ content = []) \/ (holds buf content /\ least_doubling buf) ->
  strlen (content ++ chunk) + 1 <= 2 ^ 63 ->
  exists buf' h',
    append refused buf chunk h = Val (strlen chunk, buf') h'
    /\ holds buf' (content ++ chunk) /\ least_doubling buf'.
Proof.
  intros Ok St Sz. rewrite strlen_app in Sz.
  pose proof (strlen_nonneg content) as P1. pose proof (strlen_nonneg chunk) as P2.
  assert (Hlen : len buf = strlen content).
  { destruct St as [[-> ->]| [(b & _ & _ & L & _) _]]; [reflexivity|exact L]. }
  unfold append, pxshot_write_callback. rewrite Z.mul_1_l.
  rewrite (wrap_size_small (strlen chunk)) by lia.
  rewrite Hlen.
  rewrite (wrap_size_small (strlen content + strlen chunk)) by lia.
  rewrite (wrap_size_small (strlen content + strlen chunk + 1)) by lia.
  remember (strlen content + strlen chunk + 1) as need eqn:Hneed.
  destruct (Z.ltb_spec (cap buf) need) as [Grow|Fits].
  - (* the capacity grows *)
    remember (if cap buf =? 0 then 4096 else wrap_size (cap buf * 2)) as c0 eqn:Hc0'.
    assert (Hcap : exists k0, 0 <= k0 /\ c0 = 4096 * 2 ^ k0 /\ ((cap buf = 0 /\ k0 = 0) \/ c0 = 2 * cap buf)
                   /\ exists b0, length b0 = Z.to_nat (cap buf)
                        /\ (data buf = Some b0 \/ (data buf = None /\ b0 = []))
                        /\ firstn (length content) b0 = map Some content).
    { destruct St as [[-> ->]| [(b & D & Lb & L & F & N) (k & K0 & K & Room & Min)]].
      - exists 0. subst c0. cbn. repeat split; try reflexivity; try lia. auto.
        exists []. cbn. auto.
      - exists (k + 1). subst c0. destruct (Z.eqb_spec (cap buf) 0) as [Z0|NZ]; [lia|].
        rewrite wrap_size_small by lia.
        rewrite Z.pow_add_r by lia. change (2 ^ 1) with 2.
        repeat split; try lia.
        exists b. repeat split; try lia; auto. }
    destruct Hcap as (k0 & K0 & Hc0 & Hfrom & b0 & Lb0 & Db0 & Fb0).
    assert (C0 : 1 <= c0 < 2 ^ 64).
    { destruct Hfrom as [[Z0 ->]| ->]; [rewrite Hc0; cbn; lia|lia]. }
    destruct (double_until_spec 65 c0 need h C0) as (j & Hj & E & B & Min); try lia.
    rewrite bind_assoc. rewrite (bind_val _ _ _ _ _ E).
    remember (c0 * 2 ^ j) as newcap eqn:Hnewcap.
    rewrite bind_assoc.
    assert (R : realloc refused (data buf) newcap h
                = Val (Some (firstn (Z.to_nat newcap) b0 ++ repeat None (Z.to_nat newcap - length b0))) (asked h)).
    { unfold realloc. rewrite Ok. destruct Db0 as [->|[-> ->]]; reflexivity. }
    rewrite (bind_val _ _ _ _ _ R). cbn beta iota.
    unfold ret at 1. cbn beta iota. cbn [data len cap].
    destruct (grow_block b0 (Z.to_nat newcap) content) as (Lg & Fg); [lia|exact Fb0|].
    set (b1 := firstn (Z.to_nat newcap) b0 ++ repeat None (Z.to_nat newcap - length b0)) in *.
    destruct (finish_append b1 content chunk newcap (asked h)) as (b3 & E3 & L3 & F3 & N3).
    { rewrite Lg. unfold strlen in *. lia. }
    { exact Fg. }
    { lia. }
    erewrite bind_val by (unfold ret; reflexivity). cbn [data len cap].
    eexists _, _. split; [exact E3|]. split.
    + exists b3. cbn [data len cap].
      repeat split; try assumption. rewrite L3, Lg. lia.
    + exists (k0 + j). cbn [cap len]. rewrite strlen_app.
      rewrite Z.pow_add_r by lia. subst newcap c0.
      repeat split; try lia.
      destruct Min as [->|Min].
      * change (2 ^ 0) with 1 in *.
        destruct Hfrom as [[Z0 ->]|Dbl]; [left; lia|].
        right. lia.
      * right. lia.
  - (* the capacity is enough *)
    destruct St as [[-> ->]| [(b & D & Lb & L & F & N) (k & K0 & K & Room & Min)]].
    { cbn in Fits. lia. }
    unfold ret at 1. rewrite bind_val with (a := Some buf) (h1 := h) by reflexivity.
    rewrite D.
    destruct (finish_append b content chunk (cap buf) h) as (b3 & E3 & L3 & F3 & N3).
    { unfold strlen in *. lia. }
    { exact F. }
    { lia. }
    rewrite L.
    eexists _, _. split; [exact E3|]. split.
    + exists b3. cbn [data len cap].
      repeat split; try assumption. rewrite L3. exact Lb.
    + exists k. cbn [cap len]. rewrite strlen_app.
      repeat split; try lia.
Qed.

Lemma append_all_from (refused : nat -> bool) : forall chunks buf content h,
  (forall k, refused k = false) ->
  holds buf content /\ least_doubling buf ->
  strlen (content ++ concat chunks) + 1 <= 2 ^ 63 ->
  exists buf' h',
    append_all refused buf chunks h = Val buf' h'
    /\ holds buf' (content ++ concat chunks) /\ least_doubling buf'.
Proof.
  induction chunks as [|chunk rest IH]; intros buf content h Ok St Sz.
  - cbn [concat append_all]. rewrite app_nil_r. eexists _, _. split; [reflexivity|exact St].
  - cbn [concat append_all] in *. rewrite app_assoc in *.
    destruct (append_step refused buf content chunk h Ok (or_intror St)) as (b1 & h1 & E & St1).
    { rewrite strlen_app in Sz. pose proof (strlen_nonneg (concat rest)). lia. }
    rewrite (bind_val _ _ _ _ _ E). cbn beta iota.
    apply IH; assumption.
Qed.

(** C5: after a session of appends none of which was refused memory, the
    buffer's first [len] bytes are the chunks in order, [len] is the sum of
    their sizes, the byte after them is NUL, and the capacity is 4096
    doubled the least number of times that holds [len + 1] bytes. *)
Theorem append_all_concatenates (refused : nat -> bool) :
  forall (first : list ascii) (rest : list (list ascii)) (h : heap),
    (forall k, refused k = false) ->
    strlen (concat (first :: rest)) + 1 <= 2 ^ 63 ->
    exists buf h',
      append_all refused empty_buffer (first :: rest) h = Val buf h'
      /\ holds buf (concat (first :: rest))
      /\ len buf = fold_right Z.add 0 (map strlen (first :: rest))
      /\ least_doubling buf.
Proof.
  intros first rest h Ok Sz. cbn [append_all concat] in *.
  destruct (append_step refused empty_buffer [] first h Ok (or_introl (conj eq_refl eq_refl)))
    as (b1 & h1 & E & St1).
  { cbn [app]. rewrite strlen_app in Sz. pose proof (strlen_nonneg (concat rest)). lia. }
  rewrite (bind_val _ _ _ _ _ E). cbn beta iota. cbn [app] in St1.
  destruct (append_all_from refused rest b1 first h1 Ok St1 Sz) as (b2 & h2 & E2 & H2 & L2).
  exists b2, h2. split; [exact E2|]. split; [exact H2|]. split; [|exact L2].
  destruct H2 as (b & _ & _ & -> & _).
  change (first ++ concat rest) with (concat (first :: rest)).
  generalize (first :: rest). intros l. induction l as [|x l IHl]; [reflexivity|].
  cbn [concat map fold_right]. rewrite strlen_app, IHl. reflexivity.
Qed.

Lemma append_all_concatenates_witness :
  exists buf h',
    append_all never empty_buffer [lit "ab"; lit "c"] h0 = Val buf h'
    /\ holds buf (lit "abc") /\ len buf = 3 /\ least_doubling buf.
Proof.
  destruct (append_all_concatenates never (lit "ab") [lit "c"] h0) as (buf & h' & E & H & L & D).
  - reflexivity.
  - cbn. lia.
  - exists buf, h'. auto.
Defined.

(** ** Allocation accounting of the parser *)

Lemma ret_inv {A} (a b : A) h h' : ret a h = Val b h' -> b = a /\ h' = h.
Proof. unfold ret. intros H. inversion H. auto. Qed.

Lemma load_inv buf p c h h' : load buf p h = Val c h' -> deref buf p = Some c /\ h' = h.
Proof. unfold load. destruct (deref buf p); intros H; inversion H; auto. Qed.

Lemma nonnull_inv p q h h' : nonnull p h = Val q h' -> p = Some q /\ h' = h.
Proof. destruct p; cbn; intros H; inversion H; auto. Qed.

(** Inverts a run that returned a value, one [bind] at a time: [a] is what
    the first computation returned, [h1] the heap it left, [E] its run. *)
Tactic Notation "step" hyp(H) "as" ident(a) ident(h1) ident(E) :=
  apply bind_inv in H; destruct H as (a & h1 & E & H).

Ltac done_ret H :=
  apply ret_inv in H; destruct H as [H ?]; inversion H; subst.

(** Reduces the accessors and the accounting functions, not the arithmetic. *)
Ltac tidy :=
  cbn [nodes_of strings_of plain owned next child type valuestring string valueint
       valuedouble set_next set_child set_type set_valuestring set_string set_valueint
       set_valuedouble fst snd zeroed] in *.

Ltac split_if H :=
  match type of H with
  | (if ?b then _ else _) _ = _ => destruct b eqn:?
  end.

(** A [load]: [c] is the byte read, [E] says where. *)
Tactic Notation "step_load" hyp(H) "as" ident(c) ident(E) :=
  let h1 := fresh "h" in
  apply bind_inv in H; destruct H as (c & h1 & E & H);
  apply load_inv in E; destruct E as [E ?]; subst h1.

Lemma skip_whitespace_loop_pure buf : forall fuel p p' h h',
  skip_whitespace_loop buf fuel p h = Val p' h' -> h' = h /\ (p <= p')%nat.
Proof.
  induction fuel as [|fuel IH]; intros p p' h h' H; cbn [skip_whitespace_loop] in H.
  - discriminate.
  - step_load H as c E.
    destruct (negb (c =? NUL)%char && (code c <=? 32)).
    + apply IH in H. destruct H. split; [assumption|lia].
    + done_ret H. auto.
Qed.

Lemma skip_whitespace_pure buf p r h h' :
  skip_whitespace buf p h = Val r h' ->
  h' = h /\ match p, r with
            | Some a, Some b => (a <= b)%nat
            | None, None => True
            | _, _ => False
            end.
Proof.
  destruct p as [p|]; cbn [skip_whitespace]; intros H.
  - step H as q h1 E. apply skip_whitespace_loop_pure in E. done_ret H. tauto.
  - done_ret H. auto.
Qed.

Lemma matches_pure buf : forall word p b h h', matches buf p word h = Val b h' -> h' = h.
Proof.
  induction word as [|w word IH]; intros p b h h' H; cbn [matches] in H.
  - done_ret H. reflexivity.
  - step_load H as c E. destruct (c =? w)%char; [eapply IH; eauto|done_ret H; reflexivity].
Qed.

Lemma find_end_pure buf : forall fuel p p' h h',
  find_end buf fuel p h = Val p' h' -> h' = h /\ (p <= p')%nat.
Proof.
  induction fuel as [|fuel IH]; intros p p' h h' H; cbn [find_end] in H; [discriminate|].
  step_load H as c E.
  destruct (negb (c =? quote)%char && negb (c =? NUL)%char).
  - destruct (c =? backslash)%char; apply IH in H; destruct H; split; auto; lia.
  - done_ret H. auto.
Qed.

Lemma unescape_pure buf : forall fuel p e out out' h h',
  unescape buf fuel p e out h = Val out' h' -> h' = h.
Proof.
  induction fuel as [|fuel IH]; intros p e out out' h h' H; cbn [unescape] in H; [discriminate|].
  destruct (p <? e)%nat.
  - step_load H as c E. destruct (negb (c =? backslash)%char); [eapply IH; eauto|].
    step_load H as esc E'.
    repeat match type of H with
           | (if ?b then _ else _) _ = _ => destruct b
           end; eapply IH; eauto.
  - done_ret H. reflexivity.
Qed.

Lemma malloc_inv refused b ok h h' :
  cJSON_malloc refused b h = Val ok h' ->
  (ok = false /\ nodes h' = nodes h /\ strings h' = strings h)
  \/ (ok = true /\ match b with
                   | NodeBlock => nodes h' = nodes h + 1 /\ strings h' = strings h
                   | StringBlock => nodes h' = nodes h /\ strings h' = strings h + 1
                   end).
Proof.
  unfold cJSON_malloc. destruct (refused (requests h)).
  - intros H. inversion H. left. auto.
  - destruct b; intros H; inversion H; right; cbn; auto.
Qed.

Lemma new_item_inv refused p h h' :
  cJSON_New_Item refused h = Val p h' ->
  (p = NULL /\ nodes h' = nodes h /\ strings h' = strings h)
  \/ (p = Ptr zeroed /\ nodes h' = nodes h + 1 /\ strings h' = strings h).
Proof.
  unfold cJSON_New_Item. intros H. step H as ok h1 E.
  apply malloc_inv in E. destruct E as [(-> & ? & ?)|(-> & ? & ?)]; done_ret H; auto.
Qed.

Lemma flagless_kinds :
  flagless 0 /\ flagless cJSON_NULL /\ flagless cJSON_False /\ flagless cJSON_True
  /\ flagless cJSON_Number /\ flagless cJSON_String /\ flagless cJSON_Array
  /\ flagless cJSON_Object.
Proof. repeat split. Qed.

Ltac flagless_kind := solve [split; reflexivity].

Lemma blank_zeroed : blank zeroed.
Proof. repeat split. Qed.

Lemma parse_string_tally refused buf item str item' r h h' :
  blank item ->
  parse_string refused buf item str h = Val (item', r) h' ->
  tally item item' h h'
  /\ child item' = NULL /\ string item' = string item
  /\ match r with Some q => (str < q)%nat | None => valuestring item' = None end.
Proof.
  intros (C & V & F1 & F2) H. unfold parse_string in H.
  step_load H as c E.
  split_if H.
  { done_ret H. unfold tally. rewrite C, V. tidy. repeat split; auto; try lia. }
  step H as e h1 Ee. apply find_end_pure in Ee. destruct Ee as [-> Le].
  step H as ok h1 Em. apply malloc_inv in Em.
  destruct Em as [(-> & N & S)|(-> & N & S)]; cbn [negb] in H.
  { done_ret H. unfold tally. rewrite C, V. tidy. repeat split; auto; try lia. }
  step H as out h2 Eu. apply unescape_pure in Eu. subst.
  split_if H; [discriminate|].
  done_ret H. destruct item. tidy. subst. unfold tally. tidy.
  repeat split; auto; try lia.
Qed.

Lemma parse_number_tally buf item num item' r h h' :
  blank item ->
  parse_number buf item num h = Val (item', r) h' ->
  tally item item' h h' /\ child item' = NULL /\ valuestring item' = None.
Proof.
  intros (C & V & F1 & F2) H.
  destruct (deref buf num) as [c|] eqn:D.
  - destruct (parse_number_total buf item num h (deref_bound _ _ _ D))
      as (it & q & E & _ & T & _ & Nx & Ch & Vs & St).
    rewrite E in H. inversion H. subst. unfold tally.
    rewrite Nx, Ch, Vs, St, C, V, T. tidy. repeat split; auto; try lia.
  - unfold parse_number in H. unfold bind, load in H. rewrite D in H. discriminate.
Qed.

Lemma nodes_of_Ptr c : nodes_of (Ptr c) = 1 + nodes_of (child c) + nodes_of (next c).
Proof. destruct c; reflexivity. Qed.

Lemma strings_of_Ptr c :
  strings_of (Ptr c)
  = owned (valuestring c) + owned (string c) + strings_of (child c) + strings_of (next c).
Proof. destruct c; reflexivity. Qed.

Lemma plain_Ptr c : plain (Ptr c) <-> flagless (type c) /\ plain (child c) /\ plain (next c).
Proof. destruct c; reflexivity. Qed.

Lemma set_next_same c : next c = NULL -> set_next c NULL = c.
Proof. destruct c; cbn; intros ->; reflexivity. Qed.

Lemma linked_none c h : next c = NULL -> linked c c h h.
Proof.
  intros Nx. exists NULL. rewrite set_next_same by assumption. tidy. repeat split; lia.
Qed.

Lemma linked_heap c c' h h1 h' :
  nodes h1 = nodes h -> strings h1 = strings h -> linked c c' h1 h' -> linked c c' h h'.
Proof. intros N S (nx & Q & P & N' & S'). exists nx. repeat split; auto; lia. Qed.

(** A parsed node linked after [c], with the siblings linked after it. *)
Lemma linked_more c item item' h h1 h' :
  next item = NULL ->
  flagless (type item) -> plain (child item) ->
  nodes h1 = nodes h + 1 + nodes_of (child item) ->
  strings h1 = strings h + owned (valuestring item) + owned (string item) + strings_of (child item) ->
  linked item item' h1 h' ->
  linked c (set_next c (Ptr item')) h h'.
Proof.
  intros Nx F P N S (nx & -> & Pn & N' & S'). exists (Ptr (set_next item nx)). split; [reflexivity|].
  rewrite plain_Ptr, nodes_of_Ptr, strings_of_Ptr. destruct item. tidy.
  repeat split; auto; try lia; apply F.
Qed.

Lemma linked_one c item h h' :
  next item = NULL ->
  flagless (type item) -> plain (child item) ->
  nodes h' = nodes h + 1 + nodes_of (child item) ->
  strings h' = strings h + owned (valuestring item) + owned (string item) + strings_of (child item) ->
  linked c (set_next c (Ptr item)) h h'.
Proof.
  intros Nx F P N S. eapply linked_more; eauto. apply linked_none. exact Nx.
Qed.

(** The children found by a container's production, put under it. *)
Lemma tally_children item t c1 c2 h h1 h' :
  blank item -> flagless t ->
  next c1 = NULL -> flagless (type c1) -> plain (child c1) ->
  nodes h1 = nodes h + 1 + nodes_of (child c1) ->
  strings h1 = strings h + owned (valuestring c1) + owned (string c1) + strings_of (child c1) ->
  linked c1 c2 h1 h' ->
  tally item (set_child (set_type item t) (Ptr c2)) h h'.
Proof.
  intros (C & V & _) Ft Nx F P N S (nx & -> & Pn & N' & S').
  destruct item, c1. tidy. subst. unfold tally. tidy.
  repeat split; auto; try lia; try apply F; apply Ft.
Qed.

Lemma tally_same item h h' :
  blank item -> nodes h' = nodes h -> strings h' = strings h -> tally item item h h'.
Proof.
  intros (C & V & F) N S. unfold tally. rewrite C, V. tidy. repeat split; auto; try lia; apply F.
Qed.

Lemma tally_type item t h h' :
  blank item -> flagless t -> nodes h' = nodes h -> strings h' = strings h ->
  tally item (set_type item t) h h'.
Proof.
  intros (C & V & F) Ft N S. destruct item. tidy. subst. unfold tally. tidy.
  repeat split; auto; try lia; apply Ft.
Qed.

Section ProductionsTally.

Variable refused : nat -> bool.
Variable buf : cstr.
Variable pv : cJSON -> option nat -> M (cJSON * option nat).

Hypothesis pv_tally : forall item v h item' r h',
  blank item -> pv item v h = Val (item', r) h' -> tally item item' h h'.

Lemma array_rest_linked : forall fuel c value c' r h h',
  next c = NULL ->
  array_rest refused buf pv fuel c value h = Val (c', r) h' ->
  linked c c' h h'.
Proof.
  induction fuel as [|fuel IH]; intros c value c' r h h' Nx H; cbn [array_rest] in H;
    [discriminate|].
  step_load H as ch E. split_if H.
  - step H as p h1 En. apply new_item_inv in En.
    destruct En as [(-> & N & S)|(-> & N & S)].
    + done_ret H. eapply linked_heap; eauto. apply linked_none. exact Nx.
    + step H as v h2 Ew. apply skip_whitespace_pure in Ew. destruct Ew as [-> _].
      step H as iv h2 Ep. destruct iv as [item v'].
      apply pv_tally in Ep; [|apply blank_zeroed].
      destruct Ep as (Nx1 & F1 & P1 & N1 & S1). tidy.
      step H as value' h3 Ew. apply skip_whitespace_pure in Ew. destruct Ew as [-> _].
      destruct value' as [value'|].
      * step H as ir h3 Er. destruct ir as [item' r']. apply IH in Er; [|exact Nx1].
        done_ret H. eapply linked_more; eauto; lia.
      * done_ret H. apply linked_one; auto; lia.
  - split_if H; done_ret H; apply linked_none; exact Nx.
Qed.

Lemma parse_array_tally item value item' r h h' :
  blank item ->
  parse_array refused buf pv item value h = Val (item', r) h' ->
  tally item item' h h'.
Proof.
  intros B H. unfold parse_array in H.
  step_load H as c0 E0. split_if H.
  { done_ret H. apply tally_same; auto. }
  step H as v h1 Ew. apply skip_whitespace_pure in Ew. destruct Ew as [-> _].
  step H as value1 h1 En. apply nonnull_inv in En. destruct En as [-> ->].
  step_load H as c1 E1. split_if H.
  { done_ret H. apply tally_type; auto. flagless_kind. }
  step H as p h1 En. apply new_item_inv in En.
  destruct En as [(-> & N & S)|(-> & N & S)].
  { done_ret H. destruct B as (C & V & F1 & F2). destruct item. tidy. subst.
    unfold tally. tidy. repeat split; auto; lia. }
  step H as v h2 Ew. apply skip_whitespace_pure in Ew. destruct Ew as [-> _].
  step H as iv h2 Ep. destruct iv as [c2 v'].
  apply pv_tally in Ep; [|apply blank_zeroed].
  destruct Ep as (Nx1 & F & P1 & N1 & S1). tidy.
  step H as value2 h3 Ew. apply skip_whitespace_pure in Ew. destruct Ew as [-> _].
  destruct value2 as [value2|].
  - step H as cr h3 Er. destruct cr as [c3 r']. apply array_rest_linked in Er; [|exact Nx1].
    done_ret H. apply tally_children with (c1 := c2) (h1 := h2); auto; try lia; flagless_kind.
  - done_ret H.
    apply tally_children with (c1 := c2) (h1 := h2); auto; try lia; try flagless_kind.
    apply linked_none. exact Nx1.
Qed.

Lemma parse_member_tally c value c' r h h' :
  blank c -> string c = None ->
  parse_member refused buf pv c value h = Val (c', r) h' ->
  tally c c' h h'.
Proof.
  intros B St H. unfold parse_member in H.
  step H as v h1 Ew. apply skip_whitespace_pure in Ew. destruct Ew as [-> _].
  step H as str h1 En. apply nonnull_inv in En. destruct En as [-> ->].
  step H as cv h1 Es. destruct cv as [c1 v1].
  apply parse_string_tally in Es; [|exact B].
  destruct Es as ((Nx1 & F & P1 & N1 & S1) & Ch1 & St1 & R1).
  step H as value1 h2 Ew. apply skip_whitespace_pure in Ew. destruct Ew as [-> Rel].
  destruct value1 as [value1|].
  - destruct v1 as [q|]; [|contradiction].
    step_load H as c0 E0. split_if H.
    + done_ret H. destruct c, c1. tidy. subst. unfold tally. tidy.
      repeat split; auto; try lia; apply F.
    + step H as v2 h2 Ew. apply skip_whitespace_pure in Ew. destruct Ew as [-> _].
      step H as cv h2 Ep. destruct cv as [c3 v3].
      apply pv_tally in Ep.
      2:{ destruct c1. tidy. subst. repeat split; apply F. }
      destruct Ep as (Nx3 & F3 & P3 & N3 & S3).
      step H as value3 h3 Ew. apply skip_whitespace_pure in Ew. destruct Ew as [-> _].
      done_ret H. destruct c, c1. tidy. subst. unfold tally. tidy.
      repeat split; auto; try lia; apply F3.
  - destruct v1 as [q|]; [contradiction|].
    done_ret H. unfold tally. repeat split; auto; apply F.
Qed.

Lemma object_rest_linked : forall fuel c value c' r h h',
  next c = NULL ->
  object_rest refused buf pv fuel c value h = Val (c', r) h' ->
  linked c c' h h'.
Proof.
  induction fuel as [|fuel IH]; intros c value c' r h h' Nx H; cbn [object_rest] in H;
    [discriminate|].
  step_load H as ch E. split_if H.
  - step H as p h1 En. apply new_item_inv in En.
    destruct En as [(-> & N & S)|(-> & N & S)].
    + done_ret H. eapply linked_heap; eauto. apply linked_none. exact Nx.
    + step H as iv h2 Ep. destruct iv as [item v'].
      apply parse_member_tally in Ep; [|apply blank_zeroed|reflexivity].
      destruct Ep as (Nx1 & F1 & P1 & N1 & S1). tidy.
      destruct v' as [value'|].
      * step H as ir h3 Er. destruct ir as [item' r']. apply IH in Er; [|exact Nx1].
        done_ret H. eapply linked_more; eauto; lia.
      * done_ret H. apply linked_one; auto; lia.
  - split_if H; done_ret H; apply linked_none; exact Nx.
Qed.

Lemma parse_object_tally item value item' r h h' :
  blank item ->
  parse_object refused buf pv item value h = Val (item', r) h' ->
  tally item item' h h'.
Proof.
  intros B H. unfold parse_object in H.
  step_load H as c0 E0. split_if H.
  { done_ret H. apply tally_same; auto. }
  step H as v h1 Ew. apply skip_whitespace_pure in Ew. destruct Ew as [-> _].
  step H as value1 h1 En. apply nonnull_inv in En. destruct En as [-> ->].
  step_load H as c1 E1. split_if H.
  { done_ret H. apply tally_type; auto. flagless_kind. }
  step H as p h1 En. apply new_item_inv in En.
  destruct En as [(-> & N & S)|(-> & N & S)].
  { done_ret H. destruct B as (C & V & F1 & F2). destruct item. tidy. subst.
    unfold tally. tidy. repeat split; auto; lia. }
  step H as iv h2 Ep. destruct iv as [c2 v'].
  apply parse_member_tally in Ep; [|apply blank_zeroed|reflexivity].
  destruct Ep as (Nx1 & F & P1 & N1 & S1). tidy.
  destruct v' as [value2|].
  - step H as cr h3 Er. destruct cr as [c3 r']. apply object_rest_linked in Er; [|exact Nx1].
    done_ret H. apply tally_children with (c1 := c2) (h1 := h2); auto; try lia; flagless_kind.
  - done_ret H.
    apply tally_children with (c1 := c2) (h1 := h2); auto; try lia; try flagless_kind.
    apply linked_none. exact Nx1.
Qed.

End ProductionsTally.

Lemma parse_value_tally refused buf : forall fuel item v item' r h h',
  blank item ->
  parse_value refused buf fuel item v h = Val (item', r) h' ->
  tally item item' h h'.
Proof.
  induction fuel as [|fuel IH]; intros item v item' r h h' B H; cbn [parse_value] in H;
    [discriminate|].
  destruct v as [value|]; [|done_ret H; apply tally_same; auto].
  step H as b1 h1 Em. apply matches_pure in Em. subst h1.
  destruct b1; [done_ret H; apply tally_type; auto; flagless_kind|].
  step H as b2 h1 Em. apply matches_pure in Em. subst h1.
  destruct b2; [done_ret H; apply tally_type; auto; flagless_kind|].
  step H as b3 h1 Em. apply matches_pure in Em. subst h1.
  destruct b3.
  { done_ret H. destruct B as (C & V & F). destruct item. tidy. subst.
    unfold tally. tidy. repeat split; auto; lia. }
  step_load H as c E.
  split_if H; [apply parse_string_tally in H; [apply H|exact B]|].
  split_if H; [apply parse_number_tally in H; [apply H|exact B]|].
  split_if H; [eapply parse_array_tally; eauto|].
  split_if H; [eapply parse_object_tally; eauto|].
  done_ret H. apply tally_same; auto.
Qed.

Lemma cJSON_Delete_frees : forall p h,
  plain p ->
  cJSON_Delete p h
  = Val tt (mkHeap (nodes h - nodes_of p) (strings h - strings_of p) (requests h)).
Proof.
  fix IH 1. intros [|[nx ch t v i d s]] h P.
  - cbn. unfold ret. destruct h; cbn. f_equal. f_equal; lia.
  - pose proof (IH ch) as IHc. pose proof (IH nx) as IHn. clear IH.
    cbn [plain] in P. destruct P as ((F1 & F2) & Pc & Pn).
    cbn [cJSON_Delete]. rewrite F1, F2. cbn [negb andb].
    assert (Ec : (if negb (is_null ch) then cJSON_Delete ch else ret tt) h
                 = Val tt (mkHeap (nodes h - nodes_of ch) (strings h - strings_of ch) (requests h))).
    { destruct ch as [|c]; [|apply IHc; exact Pc].
      cbn. unfold ret. destruct h; cbn. f_equal. f_equal; lia. }
    rewrite (bind_val _ _ _ _ _ Ec).
    unfold bind at 1.
    assert (Ev : forall (o : option cstr) hh,
               (if negb (no_string o) then cJSON_free StringBlock else ret tt) hh
               = Val tt (mkHeap (nodes hh) (strings hh - owned o) (requests hh))).
    { intros [x|] hh; cbn; [reflexivity|]. unfold ret. destruct hh; cbn. f_equal. f_equal; lia. }
    rewrite Ev. unfold bind at 1. rewrite Ev. unfold bind at 1. cbn [cJSON_free].
    rewrite IHn by exact Pn. cbn [nodes strings requests nodes_of strings_of].
    f_equal. f_equal; lia.
Qed.

(** ** The fuel of the parser is enough *)

Lemma progress_bind {A} p (m : M A) k h :
  finishes (m h) -> (forall a h1, m h = Val a h1 -> progress p (k a h1)) ->
  progress p (bind m k h).
Proof.
  unfold bind, finishes. intros F K. destruct (m h) as [a h1| |].
  - apply K. reflexivity.
  - split; [discriminate|intros; discriminate].
  - congruence.
Qed.

Lemma finishes_bind {A B} (m : M A) (k : A -> M B) h :
  finishes (m h) -> (forall a h1, m h = Val a h1 -> finishes (k a h1)) ->
  finishes (bind m k h).
Proof.
  unfold bind, finishes. intros F K. destruct (m h) as [a h1| |].
  - apply K. reflexivity.
  - discriminate.
  - congruence.
Qed.

Lemma progress_some p x q h : (p < q)%nat -> progress p (ret (x, Some q) h).
Proof.
  intros Lt. split; [discriminate|]. intros item q' h' H. inversion H. subst. exact Lt.
Qed.

Lemma progress_none p x h : progress p (ret (x, None) h).
Proof. split; [discriminate|]. intros item q' h' H. inversion H. Qed.

Lemma progress_fault p : progress p Fault.
Proof. split; [discriminate|]. intros item q' h' H. inversion H. Qed.

Lemma progress_from p p' r : (p' <= p)%nat -> progress p r -> progress p' r.
Proof.
  intros Le [F A]. split; [exact F|]. intros item q h H. specialize (A item q h H). lia.
Qed.

(** A production under a [bind] that keeps the cursor it returns. *)
Lemma progress_map p (m : M (cJSON * option nat)) (f : cJSON -> cJSON) h :
  progress p (m h) ->
  progress p (bind m (fun '(c, r) => ret (f c, r)) h).
Proof.
  intros [F A]. apply progress_bind; [exact F|].
  intros [c r] h1 E. destruct r as [q|]; [|apply progress_none].
  apply progress_some. exact (A c q h1 E).
Qed.

Lemma load_finishes buf p h : finishes (load buf p h).
Proof. unfold finishes, load. destruct (deref buf p); discriminate. Qed.

Lemma malloc_finishes refused b h : finishes (cJSON_malloc refused b h).
Proof. unfold finishes, cJSON_malloc. destruct (refused _), b; discriminate. Qed.

Lemma new_item_finishes refused h : finishes (cJSON_New_Item refused h).
Proof.
  unfold cJSON_New_Item. apply finishes_bind; [apply malloc_finishes|].
  intros [|] h1 _; discriminate.
Qed.

Lemma skip_whitespace_loop_finishes buf : forall fuel p h,
  (0 < fuel)%nat -> (length buf < fuel + p)%nat ->
  finishes (skip_whitespace_loop buf fuel p h).
Proof.
  induction fuel as [|fuel IH]; intros p h F0 F; [lia|]. cbn [skip_whitespace_loop].
  apply finishes_bind; [apply load_finishes|]. intros c h1 E.
  apply load_inv in E. destruct E as [E ->].
  destruct (Ascii.eqb c NUL) eqn:N; cbn [negb andb]; [discriminate|].
  destruct (code c <=? 32); [|discriminate].
  apply Ascii.eqb_neq in N. pose proof (deref_inside _ _ _ E N).
  apply IH; lia.
Qed.

Lemma skip_whitespace_loop_lands buf : forall fuel p p' h h',
  skip_whitespace_loop buf fuel p h = Val p' h' -> (p' <= length buf)%nat.
Proof.
  induction fuel as [|fuel IH]; intros p p' h h' H; cbn [skip_whitespace_loop] in H;
    [discriminate|].
  step_load H as c E.
  destruct (negb (Ascii.eqb c NUL) && (code c <=? 32)).
  - eapply IH; eauto.
  - done_ret H. eapply deref_bound; eauto.
Qed.

Lemma skip_whitespace_finishes buf v h : finishes (skip_whitespace buf v h).
Proof.
  destruct v as [p|]; cbn [skip_whitespace]; [|discriminate].
  apply finishes_bind.
  - apply skip_whitespace_loop_finishes; unfold steps; lia.
  - intros; discriminate.
Qed.

Lemma skip_whitespace_inv buf v r h h' :
  skip_whitespace buf v h = Val r h' ->
  h' = h /\ match v with
            | None => r = None
            | Some p => exists q, r = Some q /\ (p <= q <= length buf)%nat
            end.
Proof.
  destruct v as [p|]; cbn [skip_whitespace]; intros H.
  - step H as q h1 E. done_ret H.
    pose proof (skip_whitespace_loop_lands _ _ _ _ _ _ E).
    apply skip_whitespace_loop_pure in E. destruct E as [-> Le]. eauto.
  - done_ret H. auto.
Qed.

Lemma matches_finishes buf : forall word p h, finishes (matches buf p word h).
Proof.
  induction word as [|w word IH]; intros p h; cbn [matches]; [discriminate|].
  apply finishes_bind; [apply load_finishes|]. intros c h1 _.
  destruct (Ascii.eqb c w); [apply IH|discriminate].
Qed.

Lemma find_end_finishes buf : forall fuel p h,
  (0 < fuel)%nat -> (length buf < fuel + p)%nat -> finishes (find_end buf fuel p h).
Proof.
  induction fuel as [|fuel IH]; intros p h F0 F; [lia|]. cbn [find_end].
  apply finishes_bind; [apply load_finishes|]. intros c h1 E.
  apply load_inv in E. destruct E as [E ->].
  destruct (Ascii.eqb c quote); cbn [negb andb]; [discriminate|].
  destruct (Ascii.eqb c NUL) eqn:N; cbn [negb]; [discriminate|].
  apply Ascii.eqb_neq in N. pose proof (deref_inside _ _ _ E N).
  destruct (Ascii.eqb c backslash); apply IH; lia.
Qed.

Lemma find_end_lands buf : forall fuel p p' h h',
  find_end buf fuel p h = Val p' h' -> (p' <= length buf)%nat.
Proof.
  induction fuel as [|fuel IH]; intros p p' h h' H; cbn [find_end] in H; [discriminate|].
  step_load H as c E.
  destruct (negb (Ascii.eqb c quote) && negb (Ascii.eqb c NUL)).
  - destruct (Ascii.eqb c backslash); eapply IH; eauto.
  - done_ret H. eapply deref_bound; eauto.
Qed.

Lemma unescape_finishes buf : forall fuel ptr end_ptr out h,
  (0 < fuel)%nat -> (end_ptr < fuel + ptr)%nat -> finishes (unescape buf fuel ptr end_ptr out h).
Proof.
  induction fuel as [|fuel IH]; intros ptr end_ptr out h F0 F; [lia|]. cbn [unescape].
  destruct (Nat.ltb_spec ptr end_ptr) as [Lt|Ge]; [|discriminate].
  apply finishes_bind; [apply load_finishes|]. intros c h1 _.
  destruct (negb (Ascii.eqb c backslash)); [apply IH; lia|].
  apply finishes_bind; [apply load_finishes|]. intros e h2 _.
  repeat match goal with
         | |- finishes ((if ?b then _ else _) _) => destruct b
         end; apply IH; lia.
Qed.

Lemma parse_string_progress refused buf item str h :
  progress str (parse_string refused buf item str h).
Proof.
  unfold parse_string.
  apply progress_bind; [apply load_finishes|]. intros c h1 _.
  destruct (negb (Ascii.eqb c quote)); [apply progress_none|].
  apply progress_bind; [apply find_end_finishes; unfold steps; lia|]. intros e h2 E.
  pose proof (find_end_lands _ _ _ _ _ _ E) as Le.
  apply find_end_pure in E. destruct E as [-> Ge].
  apply progress_bind; [apply malloc_finishes|]. intros ok h3 _.
  destruct (negb ok); [apply progress_none|].
  apply progress_bind; [apply unescape_finishes; unfold steps; lia|]. intros out h4 _.
  destruct (_ <? _)%nat; [apply progress_fault|].
  apply progress_some. lia.
Qed.

Lemma integer_digits_advances buf : forall fuel num n q n' h h',
  integer_digits buf fuel num n h = Val (q, n') h' -> (num < q)%nat.
Proof.
  induction fuel as [|fuel IH]; intros num n q n' h h' H; cbn [integer_digits] in H;
    [discriminate|].
  step_load H as c E. step_load H as c' E'.
  destruct (is_digit c').
  - apply IH in H. lia.
  - done_ret H. lia.
Qed.

Lemma fraction_digits_advances buf : forall fuel num n s q n' s' h h',
  fraction_digits buf fuel num n s h = Val (q, n', s') h' -> (num < q)%nat.
Proof.
  induction fuel as [|fuel IH]; intros num n s q n' s' h h' H; cbn [fraction_digits] in H;
    [discriminate|].
  step_load H as c E. step_load H as c' E'.
  destruct (is_digit c').
  - apply IH in H. lia.
  - done_ret H. lia.
Qed.

Lemma exponent_digits_advances buf : forall fuel num sub q sub' h h',
  exponent_digits buf fuel num sub h = Val (q, sub') h' -> (num <= q)%nat.
Proof.
  induction fuel as [|fuel IH]; intros num sub q sub' h h' H; cbn [exponent_digits] in H;
    [discriminate|].
  step_load H as c E.
  destruct (is_digit c).
  - apply IH in H. lia.
  - done_ret H. lia.
Qed.

(** [parse_number], with its last two stages named. *)
Lemma parse_number_unfold buf item num :
  parse_number buf item num
  = (c <- load buf num ;;
     let '(sign, num) :=
       if Ascii.eqb c "-" then ((-1)%float, (num + 1)%nat) else (1%float, num) in
     c <- load buf num ;;
     let num := if Ascii.eqb c "0" then (num + 1)%nat else num in
     c <- load buf num ;;
     '(num, n) <- (if is_digit19 c then integer_digits buf (steps buf) num 0%float
                   else ret (num, 0%float)) ;;
     number_fraction buf item sign num n)%monad.
Proof. reflexivity. Qed.

Lemma number_exponent_from buf item sign num n scale item' q h h' :
  number_exponent buf item sign num n scale h = Val (item', Some q) h' -> (num <= q)%nat.
Proof.
  unfold number_exponent, number_finish. intros H.
  step_load H as c E. step H as a h1 Ea. destruct a as [[q1 sub] sg].
  done_ret H.
  destruct (Ascii.eqb c "e" || Ascii.eqb c "E").
  - step_load Ea as s Es.
    match type of Ea with context [if ?b then _ else _] => destruct b end;
      [|match type of Ea with context [if ?b then _ else _] => destruct b end];
      step Ea as b h2 Eb; destruct b as [q2 sub2]; done_ret Ea;
      apply exponent_digits_advances in Eb; lia.
  - done_ret Ea. lia.
Qed.

Lemma number_fraction_from buf item sign num n item' q h h' :
  number_fraction buf item sign num n h = Val (item', Some q) h' -> (num <= q)%nat.
Proof.
  unfold number_fraction. intros H.
  step_load H as c E. step H as a h1 Ea. destruct a as [[q1 n1] s1].
  apply number_exponent_from in H.
  destruct (Ascii.eqb c ".").
  - step_load Ea as d Ed. destruct (is_digit d).
    + apply fraction_digits_advances in Ea. lia.
    + done_ret Ea. lia.
  - done_ret Ea. lia.
Qed.

Lemma digit_kinds c :
  is_digit c = true -> Ascii.eqb c "0" = true \/ is_digit19 c = true.
Proof.
  unfold is_digit, is_digit19. intros H. apply andb_true_iff in H. destruct H as [H1 H2].
  apply Z.leb_le in H1, H2. change (code "0") with 48 in *. change (code "1") with 49.
  destruct (Z.eq_dec (code c) 48) as [E|N].
  - left. apply Ascii.eqb_eq.
    rewrite <- (Ascii.ascii_N_embedding c), <- (Ascii.ascii_N_embedding "0").
    f_equal. unfold code in E. apply N2Z.inj. rewrite E. reflexivity.
  - right. apply andb_true_iff. split; apply Z.leb_le; lia.
Qed.

(** The number production, entered as [parse_value] enters it, consumes at
    least one byte. *)
Lemma parse_number_progress buf item num c h :
  deref buf num = Some c -> (Ascii.eqb c "-" || is_digit c) = true ->
  progress num (parse_number buf item num h).
Proof.
  intros D T. split.
  - destruct (parse_number_total buf item num h (deref_bound _ _ _ D)) as (i' & q & E & _).
    rewrite E. discriminate.
  - intros item' q h' H. rewrite parse_number_unfold in H.
    step_load H as c0 E0. assert (c0 = c) by congruence. subst c0.
    destruct (Ascii.eqb c "-") eqn:Tm.
    + step_load H as c1 E1.
      match type of H with context [if ?b then _ else _] => destruct b end;
        step_load H as c2 E2; step H as a h1 E; destruct a as [q1 n1];
        (assert (num + 1 <= q1)%nat
          by (destruct (is_digit19 c2);
              [apply integer_digits_advances in E; lia|done_ret E; lia]));
        apply number_fraction_from in H; lia.
    + cbn [orb] in T. step_load H as c1 E1. assert (c1 = c) by congruence. subst c1.
      destruct (digit_kinds c T) as [Z0|D19].
      * rewrite Z0 in H. step_load H as c2 E2. step H as a h1 E. destruct a as [q1 n1].
        assert (num + 1 <= q1)%nat
          by (destruct (is_digit19 c2);
              [apply integer_digits_advances in E; lia|done_ret E; lia]).
        apply number_fraction_from in H. lia.
      * assert (Ascii.eqb c "0" = false) as Z0.
        { apply Ascii.eqb_neq. intros ->. discriminate. }
        rewrite Z0 in H. step_load H as c2 E2. assert (c2 = c) by congruence. subst c2.
        rewrite D19 in H. step H as a h1 E. destruct a as [q1 n1].
        apply integer_digits_advances in E.
        apply number_fraction_from in H. lia.
Qed.

Lemma parse_member_lands refused buf pv child value c q h h' :
  parse_member refused buf pv child value h = Val (c, Some q) h' -> (q <= length buf)%nat.
Proof.
  unfold parse_member. intros H.
  step H as v h1 E. step H as str h2 E1. step H as a h3 E2. destruct a as [c1 r1].
  step H as r2 h4 E3. destruct r2 as [q2|]; [|done_ret H].
  cbv zeta in H. step_load H as c2 E4.
  destruct (negb (Ascii.eqb c2 ":")); [done_ret H|].
  step H as v1 h5 E5. step H as a h6 E6. destruct a as [c3 r3].
  step H as r4 h7 E7. done_ret H.
  apply skip_whitespace_inv in E7. destruct E7 as [_ R].
  destruct r3 as [q3|]; [|discriminate].
  destruct R as (q4 & Eq & B). inversion Eq. subst. lia.
Qed.

Section ProductionsProgress.

Variable refused : nat -> bool.
Variable buf : cstr.
Variable lo : nat.
Variable pv : cJSON -> option nat -> M (cJSON * option nat).

(** The recursive call finishes and advances on every cursor after [lo]. *)
Hypothesis Hpv : forall item v h,
  (lo < v)%nat -> (v <= length buf)%nat -> progress v (pv item (Some v) h).

(** A value between two runs of white space. *)
Lemma spaced_value_progress item value h (k : cJSON -> option nat -> M (cJSON * option nat)) :
  (lo <= value)%nat ->
  (forall c q h1, (value + 1 < q)%nat -> (q <= length buf)%nat -> progress value (k c (Some q) h1)) ->
  (forall c h1, progress value (k c None h1)) ->
  progress value
    (bind (skip_whitespace buf (Some (value + 1)%nat)) (fun v =>
     bind (pv item v) (fun '(c, v) =>
     bind (skip_whitespace buf v) (fun value' => k c value'))) h).
Proof.
  intros Lo Ks Kn.
  apply progress_bind; [apply skip_whitespace_finishes|]. intros v h1 E.
  apply skip_whitespace_inv in E. destruct E as [-> (q & -> & Bq)].
  destruct (Hpv item q h ltac:(lia) ltac:(lia)) as [F A].
  apply progress_bind; [exact F|]. intros [c r] h2 E.
  apply progress_bind; [apply skip_whitespace_finishes|]. intros r' h3 E'.
  apply skip_whitespace_inv in E'. destruct E' as [-> R].
  destruct r as [q1|].
  - destruct R as (q2 & -> & Bq2). specialize (A c q1 h2 E). apply Ks; lia.
  - subst r'. apply Kn.
Qed.

Lemma array_rest_progress : forall loop child value h,
  (lo <= value)%nat -> (0 < loop)%nat -> (length buf < loop + value)%nat ->
  progress value (array_rest refused buf pv loop child value h).
Proof.
  induction loop as [|loop IH]; intros child value h Lo F0 F; [lia|]. cbn [array_rest].
  apply progress_bind; [apply load_finishes|]. intros c h1 E.
  apply load_inv in E. destruct E as [E ->].
  destruct (Ascii.eqb c ",") eqn:Tc.
  - assert (value < length buf)%nat as In.
    { apply (deref_inside _ _ _ E). apply Ascii.eqb_eq in Tc. subst c. discriminate. }
    apply progress_bind; [apply new_item_finishes|]. intros [|new_item] h2 _;
      [apply progress_none|].
    apply (spaced_value_progress new_item value h2
             (fun c v => match v with
                         | None => ret (set_next child (Ptr c), None)
                         | Some value => bind (array_rest refused buf pv loop c value)
                                           (fun '(c', r) => ret (set_next child (Ptr c'), r))
                         end)); [exact Lo| |].
    + intros c' q h3 Lt Le.
      apply (progress_from q); [lia|].
      apply (progress_map q (array_rest refused buf pv loop c' q)
               (fun x => set_next child (Ptr x))).
      apply IH; lia.
    + intros c' h3. apply progress_none.
  - destruct (Ascii.eqb c "]"); [apply progress_some; lia|apply progress_none].
Qed.

Lemma parse_array_progress item value h :
  (lo <= value)%nat -> progress value (parse_array refused buf pv item value h).
Proof.
  intros Lo. unfold parse_array.
  apply progress_bind; [apply load_finishes|]. intros c h1 _.
  destruct (negb (Ascii.eqb c "[")); [apply progress_none|]. cbv zeta.
  apply progress_bind; [apply skip_whitespace_finishes|]. intros v h2 E.
  apply skip_whitespace_inv in E. destruct E as [-> (q & -> & Bq)].
  apply progress_bind; [discriminate|]. intros q' h2 E. done_ret E.
  apply progress_bind; [apply load_finishes|]. intros c1 h2 _.
  destruct (Ascii.eqb c1 "]"); [apply progress_some; lia|].
  apply progress_bind; [apply new_item_finishes|]. intros [|child] h3 _;
    [apply progress_none|].
  apply progress_bind; [apply skip_whitespace_finishes|]. intros v h4 E.
  apply skip_whitespace_inv in E. destruct E as [-> (q1 & -> & Bq1)].
  destruct (Hpv child q1 h3 ltac:(lia) ltac:(lia)) as [F A].
  apply progress_bind; [exact F|]. intros [c2 r] h4 E.
  apply progress_bind; [apply skip_whitespace_finishes|]. intros r' h5 E'.
  apply skip_whitespace_inv in E'. destruct E' as [-> R].
  destruct r as [q2|]; [|subst r'; apply progress_none].
  destruct R as (q3 & -> & Bq3). specialize (A c2 q2 h4 E).
  apply (progress_from q3); [lia|].
  apply (progress_map q3 (array_rest refused buf pv (steps buf) c2 q3)
           (fun x => set_child (set_type item cJSON_Array) (Ptr x))).
  apply array_rest_progress; unfold steps; lia.
Qed.

Lemma parse_member_progress child value h :
  (lo <= value)%nat -> progress value (parse_member refused buf pv child value h).
Proof.
  intros Lo. unfold parse_member.
  apply progress_bind; [apply skip_whitespace_finishes|]. intros v h1 E.
  apply skip_whitespace_inv in E. destruct E as [-> (q & -> & Bq)].
  apply progress_bind; [discriminate|]. intros q' h1 E. done_ret E.
  apply progress_bind; [apply parse_string_progress|]. intros [c r] h2 E.
  pose proof (fun q1 => proj2 (parse_string_progress refused buf child q h) c q1 h2) as A.
  rewrite E in A.
  apply progress_bind; [apply skip_whitespace_finishes|]. intros r' h3 E'.
  apply skip_whitespace_inv in E'. destruct E' as [-> R].
  destruct r as [q1|]; [|subst r'; apply progress_none].
  destruct R as (q2 & -> & Bq2). specialize (A q1 eq_refl). cbv zeta.
  apply progress_bind; [apply load_finishes|]. intros c1 h3 _.
  destruct (negb (Ascii.eqb c1 ":")); [apply progress_none|].
  apply (progress_from q2); [lia|].
  apply (spaced_value_progress _ q2 h3 (fun c v => ret (c, v))); [lia| |].
  - intros c2 q3 h4 Lt Le. apply progress_some. lia.
  - intros c2 h4. apply progress_none.
Qed.

Lemma object_rest_progress : forall loop child value h,
  (lo <= value)%nat -> (0 < loop)%nat -> (length buf < loop + value)%nat ->
  progress value (object_rest refused buf pv loop child value h).
Proof.
  induction loop as [|loop IH]; intros child value h Lo F0 F; [lia|]. cbn [object_rest].
  apply progress_bind; [apply load_finishes|]. intros c h1 E.
  apply load_inv in E. destruct E as [E ->].
  destruct (Ascii.eqb c ",") eqn:Tc.
  - assert (value < length buf)%nat as In.
    { apply (deref_inside _ _ _ E). apply Ascii.eqb_eq in Tc. subst c. discriminate. }
    apply progress_bind; [apply new_item_finishes|]. intros [|new_item] h2 _;
      [apply progress_none|].
    destruct (parse_member_progress new_item (value + 1)%nat h2 ltac:(lia)) as [Fm Am].
    apply progress_bind; [exact Fm|]. intros [c' r] h3 E'.
    destruct r as [q|]; [|apply progress_none].
    specialize (Am c' q h3 E').
    assert (q <= length buf)%nat as Le by (eapply parse_member_lands; eauto).
    apply (progress_from q); [lia|].
    apply (progress_map q (object_rest refused buf pv loop c' q)
             (fun x => set_next child (Ptr x))).
    apply IH; lia.
  - destruct (Ascii.eqb c "}"); [apply progress_some; lia|apply progress_none].
Qed.

Lemma parse_object_progress item value h :
  (lo <= value)%nat -> progress value (parse_object refused buf pv item value h).
Proof.
  intros Lo. unfold parse_object.
  apply progress_bind; [apply load_finishes|]. intros c h1 _.
  destruct (negb (Ascii.eqb c "{")); [apply progress_none|]. cbv zeta.
  apply progress_bind; [apply skip_whitespace_finishes|]. intros v h2 E.
  apply skip_whitespace_inv in E. destruct E as [-> (q & -> & Bq)].
  apply progress_bind; [discriminate|]. intros q' h2 E. done_ret E.
  apply progress_bind; [apply load_finishes|]. intros c1 h2 _.
  destruct (Ascii.eqb c1 "}"); [apply progress_some; lia|].
  apply progress_bind; [apply new_item_finishes|]. intros [|child] h3 _;
    [apply progress_none|].
  destruct (parse_member_progress child q h3 ltac:(lia)) as [Fm Am].
  apply progress_bind; [exact Fm|]. intros [c' r] h4 E'.
  destruct r as [q1|]; [|apply progress_none].
  specialize (Am c' q1 h4 E').
  assert (q1 <= length buf)%nat as Le by (eapply parse_member_lands; eauto).
  apply (progress_from q1); [lia|].
  apply (progress_map q1 (object_rest refused buf pv (steps buf) c' q1)
           (fun x => set_child (set_type item cJSON_Object) (Ptr x))).
  apply object_rest_progress; unfold steps; lia.
Qed.

End ProductionsProgress.

Lemma parse_value_progress refused buf : forall fuel item p h,
  (p <= length buf)%nat -> (length buf < fuel + p)%nat ->
  progress p (parse_value refused buf fuel item (Some p) h).
Proof.
  induction fuel as [|fuel IH]; intros item p h Le F; [lia|]. cbn [parse_value].
  apply progress_bind; [apply matches_finishes|]. intros [|] h1 _;
    [apply progress_some; lia|].
  apply progress_bind; [apply matches_finishes|]. intros [|] h2 _;
    [apply progress_some; lia|].
  apply progress_bind; [apply matches_finishes|]. intros [|] h3 _;
    [apply progress_some; lia|].
  apply progress_bind; [apply load_finishes|]. intros c h4 E.
  apply load_inv in E. destruct E as [E ->].
  assert (Hpv : forall item v h, (p < v)%nat -> (v <= length buf)%nat ->
                  progress v (parse_value refused buf fuel item (Some v) h)).
  { intros item' v h' Lt Le'. apply IH; lia. }
  destruct (Ascii.eqb c quote); [apply parse_string_progress|].
  destruct (Ascii.eqb c "-" || is_digit c) eqn:T;
    [apply (parse_number_progress buf item p c h3 E T)|].
  destruct (Ascii.eqb c "["); [apply (parse_array_progress refused buf p _ Hpv); lia|].
  destruct (Ascii.eqb c "{"); [apply (parse_object_progress refused buf p _ Hpv); lia|].
  apply progress_none.
Qed.

Lemma cJSON_Delete_runs : forall p h, exists h', cJSON_Delete p h = Val tt h'.
Proof.
  fix IH 1. intros [|[nx ch t v i d s]] h; [eexists; reflexivity|].
  pose proof (IH ch) as IHc. pose proof (IH nx) as IHn. clear IH.
  cbn [cJSON_Delete].
  assert (E1 : exists h1, (if negb (has_flag t cJSON_IsReference) && negb (is_null ch)
                           then cJSON_Delete ch else ret tt) h = Val tt h1).
  { destruct (_ && _); [apply IHc|eexists; reflexivity]. }
  destruct E1 as (h1 & E1). rewrite (bind_val _ _ _ _ _ E1).
  assert (E2 : forall (b : bool) hh, exists h2,
               (if b then cJSON_free StringBlock else ret tt) hh = Val tt h2).
  { intros [|] hh; eexists; reflexivity. }
  destruct (E2 (negb (has_flag t cJSON_IsReference) && negb (no_string v)) h1) as (h2 & E3).
  rewrite (bind_val _ _ _ _ _ E3).
  destruct (E2 (negb (has_flag t cJSON_StringIsConst) && negb (no_string s)) h2) as (h3 & E4).
  rewrite (bind_val _ _ _ _ _ E4).
  rewrite bind_val with (a := tt) (h1 := mkHeap (nodes h3 - 1) (strings h3) (requests h3))
    by reflexivity.
  apply IHn.
Qed.

(** [cJSON_Parse] never stops for want of fuel: the bounds its loops and its
    recursion are given are always enough. *)
Lemma cJSON_Parse_finishes refused value h : finishes (cJSON_Parse refused value h).
Proof.
  unfold cJSON_Parse. cbv zeta.
  apply finishes_bind; [apply new_item_finishes|]. intros [|c] h1 _; [discriminate|].
  apply finishes_bind; [apply skip_whitespace_finishes|]. intros v h2 E.
  apply skip_whitespace_inv in E. destruct E as [-> R].
  assert (F : finishes (parse_value refused (match value with Some b => b | None => [] end)
                          (steps (match value with Some b => b | None => [] end)) c v h1)).
  { destruct value as [b|].
    - destruct R as (q & -> & Bq). apply parse_value_progress; unfold steps; lia.
    - subst v. discriminate. }
  apply finishes_bind; [exact F|]. intros [c' r] h3 _.
  destruct r as [q|]; [discriminate|].
  destruct (cJSON_Delete_runs (Ptr c') h3) as (h4 & E4).
  rewrite (bind_val _ _ _ _ _ E4). discriminate.
Qed.

(** C2: when the parse returns null, the allocator holds as many nodes and
    as many strings as before the call: every node the attempt created has
    been destroyed; the three malformed texts make the parse return null;
    and on no text does the parse stop for want of fuel, so that a parse
    that reads inside its text returns a tree or null. *)
Theorem failed_parse_leaks_nothing (refused : nat -> bool) :
  (forall (value : option cstr) (h h' : heap),
      cJSON_Parse refused value h = Val NULL h' ->
      nodes h' = nodes h /\ strings h' = strings h)
  /\ (forall h, exists h',
        cJSON_Parse never (Some malformed_object) h = Val NULL h')
  /\ (forall h, exists h',
        cJSON_Parse never (Some malformed_array) h = Val NULL h')
  /\ (forall h, exists h',
        cJSON_Parse never (Some malformed_literal) h = Val NULL h')
  /\ (forall (value : option cstr) (h : heap),
        cJSON_Parse refused value h <> OutOfFuel).
Proof.
  split; [|split; [|split; [|split]]]; try exact (cJSON_Parse_finishes refused).
  - intros value h h' H. unfold cJSON_Parse in H.
    step H as p h1 En. apply new_item_inv in En.
    destruct En as [(-> & N & S)|(-> & N & S)].
    { done_ret H. auto. }
    step H as v h2 Ew. apply skip_whitespace_pure in Ew. destruct Ew as [-> _].
    step H as cr h2 Ep. destruct cr as [c r].
    apply parse_value_tally in Ep; [|apply blank_zeroed].
    destruct Ep as (Nx & F & P & N1 & S1). tidy.
    destruct r as [q|]; [done_ret H|].
    step H as u h3 Ed. done_ret H.
    rewrite cJSON_Delete_frees in Ed.
    + rewrite nodes_of_Ptr, strings_of_Ptr, Nx in Ed.
      assert (Eh : h3 = mkHeap (nodes h2 - (1 + nodes_of (child c) + nodes_of NULL))
                          (strings h2 - (owned (valuestring c) + owned (string c)
                                         + strings_of (child c) + strings_of NULL))
                          (requests h2)) by congruence.
      subst h3. cbn [nodes strings]. tidy. lia.
    + apply plain_Ptr. rewrite Nx. tidy. auto.
  - intros [n s r]; eexists; cbv -[Z.add Z.sub]; reflexivity.
  - intros [n s r]; eexists; cbv -[Z.add Z.sub]; reflexivity.
  - intros [n s r]; eexists; cbv -[Z.add Z.sub]; reflexivity.
Qed.

Lemma failed_parse_leaks_nothing_witness :
  nodes (mkHeap 0 0 1) = nodes h0 /\ strings (mkHeap 0 0 1) = strings h0.
Proof.
  apply (proj1 (failed_parse_leaks_nothing never) (Some malformed_literal) h0 (mkHeap 0 0 1)).
  vm_compute. reflexivity.
Defined.

(** ** The trees of the construction API *)

Lemma shape_chain_Ptr c :
  shape_chain (Ptr c) = negb (no_string (string c)) && shape_item c && shape_chain (next c).
Proof. destruct c; reflexivity. Qed.

Lemma shape_item_any_links c n s :
  shape_item (set_string (set_next c n) s) = shape_item c.
Proof. destruct c; reflexivity. Qed.

Lemma shape_append : forall first it,
  shape_chain (Ptr first) = true -> shape_chain (Ptr it) = true ->
  shape_chain (Ptr (append_sibling first it)) = true.
Proof.
  fix IH 1. intros [nx ch t v i d s] it Hf Hi.
  destruct nx as [|n].
  - cbn [append_sibling suffix_object set_next].
    rewrite shape_chain_Ptr in Hf |- *. cbn [string next] in *.
    apply andb_true_iff in Hf. destruct Hf as [Hf _]. apply andb_true_iff in Hf.
    destruct Hf as [Hk Hs].
    rewrite Hk, Hi. rewrite andb_true_r. cbn [andb].
    rewrite <- Hs. reflexivity.
  - pose proof (IH n it) as IHn. clear IH.
    cbn [append_sibling].
    rewrite shape_chain_Ptr in Hf |- *. cbn [string next] in *.
    apply andb_true_iff in Hf. destruct Hf as [Hf Hn]. apply andb_true_iff in Hf.
    destruct Hf as [Hk Hs].
    rewrite Hk, (IHn Hn Hi). rewrite andb_true_r. cbn [andb].
    rewrite <- Hs. reflexivity.
Qed.

Lemma shape_container c :
  shape_item c = true -> is_container c = true ->
  shape_chain (child c) = true
  /\ forall ch', shape_chain ch' = true -> shape_item (set_child c ch') = true.
Proof.
  destruct c as [nx ch t v i d s]. unfold is_container. cbn [type child set_child shape_item].
  intros So Ct.
  destruct (t =? cJSON_String) eqn:T1.
  { apply Z.eqb_eq in T1. subst t. discriminate Ct. }
  destruct (t =? cJSON_Number) eqn:T2.
  { apply Z.eqb_eq in T2. subst t. discriminate Ct. }
  destruct ((t =? cJSON_True) || (t =? cJSON_False)) eqn:T3.
  { apply orb_true_iff in T3. destruct T3 as [T3|T3]; apply Z.eqb_eq in T3; subst t;
      discriminate Ct. }
  destruct ((t =? cJSON_Array) || (t =? cJSON_Object)); [|discriminate So].
  apply andb_true_iff in So. destruct So as [Hv Hc]. split; [exact Hc|].
  intros ch' Hc'. rewrite Hv, Hc'. reflexivity.
Qed.

Lemma built_root_shape refused c : Built refused c -> root_shape c.
Proof.
  induction 1 as [h h' c E|h h' c E|s h h' c E|d h h' c E|b h h' c E
                 |o key it h h' o' it' Bo IHo Bi IHi Ct E].
  - unfold cJSON_CreateObject, cJSON_New_Item, cJSON_malloc, bind, ret in E.
    destruct (refused (requests h)); inversion E. repeat split.
  - unfold cJSON_CreateArray, cJSON_New_Item, cJSON_malloc, bind, ret in E.
    destruct (refused (requests h)); inversion E. repeat split.
  - unfold cJSON_CreateString, cJSON_New_Item, cJSON_strdup, cJSON_malloc, bind, ret,
      nonnull_string in E.
    destruct (refused (requests h)); [inversion E|]. cbn in E.
    destruct (refused (S (requests h))).
    + exfalso. unfold cJSON_free, bind, ret in E. cbn in E. discriminate E.
    + cbn in E. inversion E. repeat split.
  - unfold cJSON_CreateNumber, cJSON_New_Item, cJSON_malloc, bind, ret in E.
    destruct (refused (requests h)); inversion E.
    split; [|split; reflexivity]. cbn. rewrite Z.eqb_refl. reflexivity.
  - unfold cJSON_CreateBool, cJSON_New_Item, cJSON_malloc, bind, ret in E.
    destruct (refused (requests h)); inversion E.
    destruct (b =? 0); repeat split.
  - destruct IHo as (So & No & Ko). destruct IHi as (Si & Ni & Ki).
    unfold cJSON_AddItemToObject, add_item_to_object, cJSON_strdup, cJSON_malloc, bind, ret in E.
    cbn in E.
    destruct (refused (requests h)); cbn in E; [inversion E|].
    assert (Hit : shape_chain (Ptr (set_string it (Some key))) = true).
    { rewrite shape_chain_Ptr. destruct it. cbn in *. subst. rewrite Si. reflexivity. }
    destruct (shape_container o So Ct) as (Hch & Hset).
    assert (Hcont : forall ch', shape_chain ch' = true -> root_shape (set_child o ch')).
    { intros ch' Hc. split; [apply Hset; exact Hc|]. destruct o; cbn in *; auto. }
    destruct (child o) as [|first] eqn:Co; inversion E; subst.
    + apply Hcont. exact Hit.
    + apply Hcont. apply shape_append; [exact Hch|exact Hit].
Qed.

(** ** The printer produces [render] *)

Lemma malloc_granted b h :
  exists h', cJSON_malloc never b h = Val true h'.
Proof. unfold cJSON_malloc, never. destruct b; eexists; reflexivity. Qed.


Lemma strcpy_at_fits size out s h :
  strlen out + strlen s + 1 <= size -> strcpy_at size out s h = Val (out ++ s) h.
Proof.
  intros H. unfold strcpy_at. destruct (Z.ltb_spec size (strlen out + strlen s + 1)); [lia|].
  reflexivity.
Qed.


(** Arithmetic on the lengths of concatenations. *)
Ltac strlen_lia :=
  unfold strlen in *; repeat rewrite ?length_app, ?length_cons in *;
  cbn [length lit String.list_ascii_of_string] in *; lia.




Lemma print_string_runs s h :
  strlen s + 3 < 2 ^ 64 ->
  exists h', print_string never (Some s) h = Val (Some (quote :: s ++ [quote])) h'.
Proof.
  intros H. unfold print_string. pose proof (strlen_nonneg s).
  rewrite wrap_size_small by lia.
  destruct (malloc_granted StringBlock h) as (h1 & E). rewrite (bind_val _ _ _ _ _ E).
  cbn [negb].
  assert (F : strlen [] + strlen (quote :: s ++ [quote]) + 1 <= strlen s + 3).
  { strlen_lia. }
  rewrite (bind_val _ _ _ _ _ (strcpy_at_fits _ [] (quote :: s ++ [quote]) h1 F)).
  eexists. reflexivity.
Qed.


(** The printer and [render], kind by kind. *)
Lemma print_item_unfold refused c :
  print_item refused c
  = (let t := Z.land (type c) 255 in
     if t =? cJSON_NULL then print_literal refused 5 (lit "null")
     else if t =? cJSON_False then print_literal refused 6 (lit "false")
     else if t =? cJSON_True then print_literal refused 5 (lit "true")
     else if t =? cJSON_Number then print_number refused c
     else if t =? cJSON_String then print_string refused (valuestring c)
     else if t =? cJSON_Array
     then print_array refused (array_measure refused) (array_write refused) c
     else if t =? cJSON_Object
     then print_object refused (object_measure refused) (object_write refused) c
     else ret None).
Proof. destruct c; reflexivity. Qed.






Lemma safe_tree_Ptr c :
  safe_tree (Ptr c)
  = safe_string (valuestring c) && safe_string (string c)
    && (if type c =? cJSON_Number then number_safe (valuedouble c) else true)
    && safe_tree (child c) && safe_tree (next c).
Proof. destruct c; reflexivity. Qed.

Lemma array_measure_Ptr refused c len :
  array_measure refused (Ptr c) len
  = bind (print_item refused c) (fun printed =>
      match printed with
      | None => ret None
      | Some r =>
          bind (cJSON_free StringBlock) (fun _ =>
            array_measure refused (next c) (wrap_size (len + wrap_size (strlen r + 2))))
      end).
Proof. destruct c; reflexivity. Qed.

Lemma array_write_Ptr refused c len out :
  array_write refused (Ptr c) len out
  = bind (print_item refused c) (fun printed =>
      match printed with
      | None => bind (cJSON_free StringBlock) (fun _ => ret None)
      | Some r =>
          bind (strcpy_at len out r) (fun out =>
          bind (cJSON_free StringBlock) (fun _ =>
          bind (if negb (is_null (next c)) then putc_at len out "," else ret out) (fun out =>
            array_write refused (next c) len out)))
      end).
Proof. destruct c; reflexivity. Qed.

Lemma object_measure_Ptr refused c len :
  object_measure refused (Ptr c) len
  = bind (print_string refused (string c)) (fun str =>
    bind (print_item refused c) (fun printed =>
      match str, printed with
      | Some k, Some r =>
          bind (cJSON_free StringBlock) (fun _ =>
          bind (cJSON_free StringBlock) (fun _ =>
            object_measure refused (next c)
              (wrap_size (len + wrap_size (wrap_size (strlen k + strlen r) + 3)))))
      | _, _ => bind (free_string str) (fun _ => bind (free_string printed) (fun _ => ret None))
      end)).
Proof. destruct c; reflexivity. Qed.

Lemma object_write_Ptr refused c len out :
  object_write refused (Ptr c) len out
  = bind (print_string refused (string c)) (fun str =>
    bind (print_item refused c) (fun printed =>
      match str, printed with
      | Some k, Some r =>
          bind (strcpy_at len out k) (fun out =>
          bind (cJSON_free StringBlock) (fun _ =>
          bind (putc_at len out ":") (fun out =>
          bind (strcpy_at len out r) (fun out =>
          bind (cJSON_free StringBlock) (fun _ =>
          bind (if negb (is_null (next c)) then putc_at len out "," else ret out) (fun out =>
            object_write refused (next c) len out))))))
      | _, _ =>
          bind (cJSON_free StringBlock) (fun _ =>
          bind (free_string str) (fun _ => bind (free_string printed) (fun _ => ret None)))
      end)).
Proof. destruct c; reflexivity. Qed.

(** The kinds a well-shaped node can have. *)
Lemma shape_kinds c :
  shape_item c = true ->
  (type c = cJSON_String /\ (exists s, valuestring c = Some s) /\ child c = NULL)
  \/ (type c = cJSON_Number /\ valuestring c = None /\ child c = NULL
      /\ valueint c = Dbl.to_int (valuedouble c))
  \/ ((type c = cJSON_True \/ type c = cJSON_False) /\ valuestring c = None /\ child c = NULL)
  \/ ((type c = cJSON_Array \/ type c = cJSON_Object) /\ valuestring c = None
      /\ shape_chain (child c) = true).
Proof.
  destruct c as [nx ch t v i d s]. cbn [shape_item type valuestring child valueint valuedouble].
  intros H.
  destruct (Z.eqb_spec t cJSON_String) as [->|_].
  { left. apply andb_true_iff in H. destruct H as [Hv Hc].
    destruct v; [|discriminate]. destruct ch; [|discriminate]. eauto. }
  destruct (Z.eqb_spec t cJSON_Number) as [->|_].
  { right. left. apply andb_true_iff in H. destruct H as [H Hi].
    apply andb_true_iff in H. destruct H as [Hv Hc].
    destruct v; [discriminate|]. destruct ch; [|discriminate].
    apply Z.eqb_eq in Hi. auto. }
  destruct (Z.eqb_spec t cJSON_True) as [->|_].
  { right. right. left. apply andb_true_iff in H. destruct H as [Hv Hc].
    destruct v; [discriminate|]. destruct ch; [|discriminate]. auto. }
  destruct (Z.eqb_spec t cJSON_False) as [->|_].
  { right. right. left. apply andb_true_iff in H. destruct H as [Hv Hc].
    destruct v; [discriminate|]. destruct ch; [|discriminate]. auto. }
  cbn [orb] in H.
  destruct (Z.eqb_spec t cJSON_Array) as [->|_].
  { right. right. right. apply andb_true_iff in H. destruct H as [Hv Hc].
    destruct v; [discriminate|]. auto. }
  destruct (Z.eqb_spec t cJSON_Object) as [->|_]; [|discriminate].
  right. right. right. apply andb_true_iff in H. destruct H as [Hv Hc].
  destruct v; [discriminate|]. auto.
Qed.

















Lemma shape_chain_inv c :
  shape_chain (Ptr c) = true ->
  (exists k, string c = Some k) /\ shape_item c = true /\ shape_chain (next c) = true.
Proof.
  rewrite shape_chain_Ptr. intros H.
  apply andb_true_iff in H. destruct H as [H Hn].
  apply andb_true_iff in H. destruct H as [Hk Hs].
  destruct (string c) as [k|]; [|discriminate]. eauto.
Qed.


Lemma safe_tree_alone c :
  safe_tree (Ptr c) = true -> safe_tree (Ptr (set_next c NULL)) = true.
Proof.
  rewrite !safe_tree_Ptr. destruct c as [nx ch t v i d s].
  cbn [valuestring string type valuedouble child next set_next].
  intros H. apply andb_true_iff in H. destruct H as [-> _]. reflexivity.
Qed.


(** ** The members of a parsed object carry keys *)

Lemma parse_string_keeps refused buf item str item' r h h' :
  parse_string refused buf item str h = Val (item', r) h' ->
  string item' = string item /\ next item' = next item /\ child item' = child item
  /\ (r <> None -> type item' = cJSON_String /\ valuestring item' <> None).
Proof.
  unfold parse_string. intros H.
  step_load H as c E. split_if H; [done_ret H; repeat split; congruence|].
  step H as e h1 Ee. step H as ok h2 Em. split_if H; [done_ret H; repeat split; congruence|].
  step H as out h3 Eu. split_if H; [discriminate|].
  done_ret H. destruct item. cbn. repeat split; congruence.
Qed.

Lemma siblings_set_next c nx : siblings (Ptr (set_next c nx)) = set_next c nx :: siblings nx.
Proof. destruct c; reflexivity. Qed.

Lemma keyed_set_next c nx : keyed (set_next c nx) <-> keyed c.
Proof. destruct c; reflexivity. Qed.

(** Closes a goal on a node that the production left as it was, or gave a
    kind other than Object. *)
Ltac kept :=
  repeat match goal with x : cJSON |- _ => destruct x end; cbn in *; subst;
  repeat split; try reflexivity; intros; try congruence; try discriminate.

Section ProductionsKeyed.

Variable refused : nat -> bool.
Variable buf : cstr.
Variable pv : cJSON -> option nat -> M (cJSON * option nat).

Hypothesis pv_keyed : forall item v h item' r h',
  child item = NULL -> pv item v h = Val (item', r) h' -> members_keyed item item' r.

Lemma parse_array_keyed item value item' r h h' :
  parse_array refused buf pv item value h = Val (item', r) h' ->
  members_keyed item item' r.
Proof.
  unfold parse_array. intros H.
  step_load H as c0 E0. split_if H; [done_ret H; kept|].
  cbv zeta in H.
  step H as v h1 Ew. step H as value1 h2 En.
  step_load H as c1 E1. split_if H; [done_ret H; kept|].
  step H as p h3 Ei. destruct p as [|child0]; [done_ret H; kept|].
  step H as v2 h4 Ew2. step H as cv h5 Ep. destruct cv as [c2 v3].
  step H as value2 h6 Ew3. destruct value2 as [value2|].
  - step H as cr h7 Er. destruct cr as [c3 r']. done_ret H. kept.
  - done_ret H. kept.
Qed.

Lemma parse_member_keyed c value c' r h h' :
  child c = NULL ->
  parse_member refused buf pv c value h = Val (c', r) h' ->
  next c' = next c /\ (r <> None -> keyed c').
Proof.
  intros Ch H. unfold parse_member in H.
  step H as v h1 Ew. step H as str h2 En.
  step H as cv h3 Es. destruct cv as [c1 v1].
  apply parse_string_keeps in Es. destruct Es as (St1 & Nx1 & Ch1 & K1).
  step H as value1 h4 Ew2. apply skip_whitespace_pure in Ew2. destruct Ew2 as [-> Rel].
  destruct value1 as [value1|]; [|done_ret H; split; congruence].
  destruct v1 as [q|]; [|contradiction].
  destruct (K1 ltac:(discriminate)) as [_ V1].
  cbv zeta in H. step_load H as c0 E0.
  split_if H; [done_ret H; split; [destruct c1; cbn in *; congruence|congruence]|].
  step H as v2 h5 Ew3. step H as cv h6 Ep. destruct cv as [c3 v3].
  apply pv_keyed in Ep; [|destruct c1; cbn in *; congruence].
  destruct Ep as (St3 & Nx3 & _).
  step H as value3 h7 Ew4. done_ret H.
  split; [rewrite Nx3; destruct c1; cbn in *; congruence|]. intros _.
  unfold keyed. rewrite St3. destruct c1. cbn in *. exact V1.
Qed.

Lemma object_rest_keyed : forall fuel c value c' r h h',
  object_rest refused buf pv fuel c value h = Val (c', r) h' ->
  r <> None ->
  exists nx, c' = set_next c nx /\ (next c = NULL -> Forall keyed (siblings nx)).
Proof.
  induction fuel as [|fuel IH]; intros c value c' r h h' H R; cbn [object_rest] in H;
    [discriminate|].
  step_load H as ch E. split_if H.
  - step H as p h1 En. destruct p as [|new_item]; [done_ret H; congruence|].
    assert (En' := En). apply new_item_inv in En'.
    destruct En' as [(Bad & _)|(Ez & _)]; [discriminate|]. inversion Ez. subst new_item.
    step H as iv h2 Ep. destruct iv as [item v'].
    destruct v' as [value'|]; [|done_ret H; congruence].
    destruct (parse_member_keyed zeroed _ _ _ _ _ eq_refl Ep) as [Nx K].
    specialize (K ltac:(discriminate)).
    step H as ir h3 Er. destruct ir as [item' r']. done_ret H.
    destruct (IH _ _ _ _ _ _ Er R) as (nx & -> & Kn).
    exists (Ptr (set_next item nx)). split; [reflexivity|]. intros _.
    rewrite siblings_set_next. constructor; [apply keyed_set_next; exact K|].
    apply Kn. exact Nx.
  - split_if H; done_ret H; [|congruence].
    exists (next c). split; [destruct c; reflexivity|]. intros ->. constructor.
Qed.

Lemma parse_object_keyed item value item' r h h' :
  child item = NULL ->
  parse_object refused buf pv item value h = Val (item', r) h' ->
  members_keyed item item' r.
Proof.
  intros Ch H. unfold parse_object in H.
  step_load H as c0 E0. split_if H; [done_ret H; kept|].
  cbv zeta in H.
  step H as v h1 Ew. step H as value1 h2 En.
  step_load H as c1 E1. split_if H; [done_ret H; kept; constructor|].
  step H as p h3 Ei. destruct p as [|child0]; [done_ret H; kept|].
  assert (Ei' := Ei). apply new_item_inv in Ei'.
  destruct Ei' as [(Bad & _)|(Ez & _)]; [discriminate|]. inversion Ez. subst child0.
  step H as iv h4 Ep. destruct iv as [c2 v'].
  destruct v' as [value2|]; [|done_ret H; kept].
  destruct (parse_member_keyed zeroed _ _ _ _ _ eq_refl Ep) as [Nx K].
  specialize (K ltac:(discriminate)).
  step H as cr h5 Er. destruct cr as [c3 r']. done_ret H.
  destruct item as [nx0 ch0 t0 v0 i0 d0 s0].
  split; [reflexivity|]. split; [reflexivity|]. intros R _.
  destruct (object_rest_keyed _ _ _ _ _ _ _ Er R) as (nx & -> & Kn).
  cbn [child set_child set_type].
  rewrite siblings_set_next. constructor; [apply keyed_set_next; exact K|].
  apply Kn. exact Nx.
Qed.

End ProductionsKeyed.

Lemma parse_value_keyed refused buf : forall fuel item v item' r h h',
  child item = NULL ->
  parse_value refused buf fuel item v h = Val (item', r) h' ->
  members_keyed item item' r.
Proof.
  induction fuel as [|fuel IH]; intros item v item' r h h' Ch H; cbn [parse_value] in H;
    [discriminate|].
  destruct v as [value|]; [|done_ret H; kept].
  step H as b1 h1 Em. destruct b1; [done_ret H; kept|].
  step H as b2 h2 Em2. destruct b2; [done_ret H; kept|].
  step H as b3 h3 Em3. destruct b3; [done_ret H; kept|].
  step_load H as c E.
  split_if H.
  { apply parse_string_keeps in H. destruct H as (S & N & C & K).
    repeat split; auto. intros R T. destruct (K R) as [T' _]. rewrite T' in T. discriminate. }
  split_if H.
  { destruct (parse_number_total buf item value h3 (deref_bound _ _ _ E))
      as (i' & q & E' & _ & T & _ & N & _ & _ & S).
    rewrite E' in H. inversion H. subst. repeat split; auto. intros _ T'.
    rewrite T in T'. discriminate. }
  split_if H.
  { apply (parse_array_keyed refused buf _ _ _ _ _ _ _ H). }
  split_if H.
  { apply (parse_object_keyed refused buf (parse_value refused buf fuel)
             (fun item v h item' r h' => IH item v item' r h h') _ _ _ _ _ _ Ch H). }
  done_ret H. kept.
Qed.

(** The members of an object that [cJSON_Parse] returns carry keys. *)
Lemma parsed_members_keyed refused value o h h' :
  cJSON_Parse refused value h = Val (Ptr o) h' ->
  type o = cJSON_Object -> Forall keyed (siblings (child o)).
Proof.
  unfold cJSON_Parse. cbv zeta. intros H T.
  step H as p h1 En. destruct p as [|c]; [done_ret H|].
  assert (En' := En). apply new_item_inv in En'.
  destruct En' as [(Bad & _)|(Ez & _)]; [discriminate|]. inversion Ez. subst c.
  step H as v h2 Ew. step H as cr h3 Ep. destruct cr as [c r].
  apply parse_value_keyed in Ep; [|reflexivity]. destruct Ep as (_ & _ & K).
  destruct r as [q|].
  - done_ret H. apply K; [discriminate|exact T].
  - step H as u h4 Ed. done_ret H.
Qed.

(** The children of a tree of the construction API carry keys. *)
Lemma built_members_keyed refused o :
  Built refused o -> Forall keyed (siblings (child o)).
Proof.
  intros B. destruct (built_root_shape refused o B) as (Sh & _ & _).
  assert (K : forall p, shape_chain p = true -> Forall keyed (siblings p)).
  { fix IH 1. intros [|c] S; [constructor|].
    destruct (shape_chain_inv c S) as ((k & K) & _ & Sn).
    pose proof (IH (next c) Sn) as IHn. clear IH.
    destruct c as [nx ch t v i d s]. cbn [siblings next] in *.
    constructor; [unfold keyed; cbn in *; congruence|exact IHn]. }
  destruct (shape_kinds o Sh) as [(_ & _ & C)|[(_ & _ & C & _)|[(_ & _ & C)|(_ & _ & C)]]];
    try (rewrite C; constructor).
  apply K. exact C.
Qed.

(** ** Lookup of a member *)

Lemma strcmp_zero a b : (strcmp a b =? 0) = cstr_eqb a b.
Proof. unfold strcmp. destruct (cstr_eqb a b); reflexivity. Qed.

Lemma find_item_first name : forall p h,
  Forall keyed (siblings p) ->
  find_item p (Some name) h
  = Val (match find (has_key name) (siblings p) with Some c => Ptr c | None => NULL end) h.
Proof.
  fix IH 1. intros [|[nx ch t v i d s]] h Hk; [reflexivity|].
  cbn [siblings] in *. apply Forall_cons_iff in Hk. destruct Hk as [Hs Hk].
  unfold keyed in Hs. cbn in Hs. destruct s as [key|]; [|congruence].
  cbn [find_item find]. unfold has_key at 1. cbn [string].
  rewrite strcmp_zero. destruct (cstr_eqb key name); cbn [negb].
  - reflexivity.
  - apply IH. exact Hk.
Qed.

(** C4: lookup in a node whose children all carry a key returns the first
    child, in sibling order, whose key is the name, and null when there is
    none; the members of every Object that [cJSON_Parse] returns and the
    children of every tree of the construction API all carry a key; looking
    up x in the parse of the text with two members x (1, then 2) returns
    the member holding 1. *)
Theorem lookup_first_match :
  (forall (o : cJSON) (name : cstr) (h : heap),
      Forall keyed (siblings (child o)) ->
      cJSON_GetObjectItem (Ptr o) (Some name) h
      = Val (match find (has_key name) (siblings (child o)) with
             | Some c => Ptr c
             | None => NULL
             end) h)
  /\ (exists o first second h1,
        cJSON_Parse never (Some dup_object) h0 = Val (Ptr o) h1
        /\ siblings (child o) = [first; second]
        /\ valuedouble first = 1%float /\ valuedouble second = 2%float
        /\ cJSON_GetObjectItem (Ptr o) (Some (lit "x")) h1 = Val (Ptr first) h1
        /\ cJSON_GetObjectItem (Ptr o) (Some (lit "y")) h1 = Val NULL h1)
  /\ (forall (refused : nat -> bool) (value : option cstr) (o : cJSON) (h h' : heap),
        cJSON_Parse refused value h = Val (Ptr o) h' ->
        type o = cJSON_Object -> Forall keyed (siblings (child o)))
  /\ (forall (refused : nat -> bool) (o : cJSON),
        Built refused o -> Forall keyed (siblings (child o))).
Proof.
  split; [|split; [|split]].
  - intros o name h Hk. unfold cJSON_GetObjectItem. apply find_item_first. exact Hk.
  - eexists _, _, _, _. split; [vm_compute; reflexivity|].
    split; [reflexivity|]. repeat split; vm_compute; reflexivity.
  - exact parsed_members_keyed.
  - exact built_members_keyed.
Qed.

Lemma lookup_first_match_witness :
  exists o h1, cJSON_Parse never (Some dup_object) h0 = Val (Ptr o) h1
    /\ Forall keyed (siblings (child o))
    /\ exists c, cJSON_GetObjectItem (Ptr o) (Some (lit "x")) h1 = Val (Ptr c) h1
                 /\ valueint c = 1.
Proof.
  eexists _, _. split; [vm_compute; reflexivity|].
  assert (K : Forall keyed (siblings (child
     (mkJSON NULL
        (Ptr (mkJSON (Ptr (mkJSON NULL NULL 8 None 2 2 (Some (lit "x"))))
                NULL 8 None 1 1 (Some (lit "x"))))
        64 None 0 0 None)))).
  { repeat constructor; discriminate. }
  split; [exact K|].
  eexists. split.
  - rewrite (proj1 lookup_first_match _ (lit "x") _ K). vm_compute. reflexivity.
  - reflexivity.
Defined.

(** ** Lookup in arrays *)

(** C9: looking a name up in the array parsed from [[1]] dereferences the
    null key of its element; in an empty array it returns null. *)
Theorem lookup_in_parsed_array_faults :
  (exists a h1,
      cJSON_Parse never (Some (lit "[1]")) h0 = Val (Ptr a) h1
      /\ Z.land (type a) 255 = cJSON_Array
      /\ cJSON_GetObjectItem (Ptr a) (Some (lit "x")) h1 = Fault)
  /\ (exists a h1,
      cJSON_Parse never (Some (lit "[]")) h0 = Val (Ptr a) h1
      /\ cJSON_GetObjectItem (Ptr a) (Some (lit "x")) h1 = Val NULL h1).
Proof.
  split; eexists _, _; (split; [vm_compute; reflexivity|]); repeat split; vm_compute; reflexivity.
Qed.

(** ** Reading a text through a window *)

Lemma window_deref buf p c rest : window buf p = c :: rest -> deref buf p = Some c.
Proof.
  unfold window, deref. intros H.
  rewrite <- (firstn_skipn p (memory buf)) at 1.
  assert (L : length (firstn p (memory buf)) = p).
  { rewrite length_firstn. apply Nat.min_l.
    assert (p < length (memory buf))%nat; [|lia].
    destruct (Nat.lt_ge_cases p (length (memory buf))) as [Lt|Ge]; [exact Lt|].
    rewrite skipn_all2 in H by exact Ge. discriminate. }
  rewrite nth_error_app2 by lia. rewrite L, Nat.sub_diag, H. reflexivity.
Qed.

Lemma window_load buf p c rest h : window buf p = c :: rest -> load buf p h = Val c h.
Proof. intros H. apply load_val. eapply window_deref; eauto. Qed.

Lemma window_app buf p s rest :
  window buf p = s ++ rest -> window buf (p + length s) = rest.
Proof.
  unfold window. intros H. rewrite Nat.add_comm, <- skipn_skipn, H.
  rewrite skipn_app, skipn_all, Nat.sub_diag. reflexivity.
Qed.

Lemma window_next buf p c rest : window buf p = c :: rest -> window buf (p + 1) = rest.
Proof. intros H. apply (window_app buf p [c] rest). exact H. Qed.

Lemma window_length buf p s rest :
  window buf p = s ++ rest -> (length s + length rest <= S (length buf))%nat.
Proof.
  unfold window. intros H.
  assert (L : length (skipn p (memory buf)) = (length s + length rest)%nat)
    by (rewrite H, length_app; reflexivity).
  rewrite length_skipn, memory_length in L. lia.
Qed.

Lemma window_start buf : window buf 0 = buf ++ [NUL].
Proof. reflexivity. Qed.


Lemma matches_other buf p c rest w word h :
  window buf p = c :: rest -> Ascii.eqb c w = false ->
  matches buf p (w :: word) h = Val false h.
Proof.
  intros W N. cbn [matches]. rewrite (bind_val _ _ _ _ _ (window_load _ _ _ _ h W)).
  rewrite N. reflexivity.
Qed.

(** No white space to skip. *)
Lemma skip_whitespace_stays buf p c rest h :
  window buf p = c :: rest -> (code c <=? 32) = false \/ c = NUL ->
  skip_whitespace buf (Some p) h = Val (Some p) h.
Proof.
  intros W N. cbn [skip_whitespace]. unfold steps. cbn [skip_whitespace_loop].
  rewrite bind_assoc. rewrite (bind_val _ _ _ _ _ (window_load _ _ _ _ h W)).
  destruct N as [N| ->].
  - rewrite N, andb_false_r. reflexivity.
  - reflexivity.
Qed.


(** ** Strings through the window *)

Lemma safe_char_inv c :
  safe_char c = true ->
  Ascii.eqb c quote = false /\ Ascii.eqb c backslash = false /\ Ascii.eqb c NUL = false.
Proof.
  unfold safe_char. intros H.
  apply andb_true_iff in H. destruct H as [H H3].
  apply andb_true_iff in H. destruct H as [H1 H2].
  repeat split; apply negb_true_iff; assumption.
Qed.

Lemma find_end_safe buf rest : forall s fuel p h,
  text_safe s = true -> window buf p = s ++ quote :: rest -> (length s < fuel)%nat ->
  find_end buf fuel p h = Val (p + length s)%nat h.
Proof.
  induction s as [|c s IH]; intros fuel p h Sf W F; (destruct fuel as [|fuel]; [lia|]);
    cbn [find_end]; cbn [app] in W;
    rewrite (bind_val _ _ _ _ _ (window_load _ _ _ _ h W)).
  - rewrite Ascii.eqb_refl. cbn [negb andb length]. rewrite Nat.add_0_r. reflexivity.
  - cbn [text_safe forallb] in Sf. apply andb_true_iff in Sf. destruct Sf as [Sc Ss].
    destruct (safe_char_inv c Sc) as (Q & B & N). rewrite Q, B, N. cbn [negb andb].
    rewrite (IH fuel (p + 1)%nat h Ss).
    + f_equal. cbn [length]. lia.
    + eapply window_next; eauto.
    + cbn [length] in F. lia.
Qed.

Lemma unescape_safe buf : forall s fuel p rest out h,
  text_safe s = true -> window buf p = s ++ rest -> (length s < fuel)%nat ->
  unescape buf fuel p (p + length s) out h = Val (out ++ s) h.
Proof.
  induction s as [|c s IH]; intros fuel p rest out h Sf W F; (destruct fuel as [|fuel]; [lia|]);
    cbn [unescape].
  - cbn [length]. rewrite Nat.add_0_r, Nat.ltb_irrefl, app_nil_r. reflexivity.
  - cbn [length]. destruct (Nat.ltb_spec p (p + S (length s))) as [_|Bad]; [|lia].
    cbn [app] in W. rewrite (bind_val _ _ _ _ _ (window_load _ _ _ _ h W)).
    cbn [text_safe forallb] in Sf. apply andb_true_iff in Sf. destruct Sf as [Sc Ss].
    destruct (safe_char_inv c Sc) as (Q & B & N). rewrite B. cbn [negb].
    replace (p + S (length s))%nat with (p + 1 + length s)%nat by lia.
    rewrite (IH fuel (p + 1)%nat rest (out ++ [c]) h Ss).
    + rewrite <- app_assoc. reflexivity.
    + eapply window_next; eauto.
    + cbn [length] in F. lia.
Qed.

Lemma as_cstring_safe : forall s, text_safe s = true -> as_cstring s = s.
Proof.
  induction s as [|c s IH]; intros Sf; [reflexivity|].
  cbn [text_safe forallb] in Sf. apply andb_true_iff in Sf. destruct Sf as [Sc Ss].
  destruct (safe_char_inv c Sc) as (Q & B & N). cbn [as_cstring]. rewrite N, (IH Ss). reflexivity.
Qed.

Lemma parse_string_safe buf item p s rest h :
  text_safe s = true -> window buf p = quote :: s ++ quote :: rest ->
  exists h',
    parse_string never buf item p h
    = Val (set_type (set_valuestring item (Some s)) cJSON_String, Some (p + (length s + 2))%nat) h'.
Proof.
  intros Sf W. unfold parse_string.
  rewrite (bind_val _ _ _ _ _ (window_load _ _ _ _ h W)).
  rewrite Ascii.eqb_refl. cbn [negb].
  pose proof (window_next _ _ _ _ W) as W1.
  pose proof (window_length buf (p + 1) s (quote :: rest) W1) as L. cbn [length] in L.
  rewrite (bind_val _ _ _ _ _ (find_end_safe buf rest s (steps buf) (p + 1)%nat h Sf W1
                                 ltac:(unfold steps; lia))).
  destruct (malloc_granted StringBlock h) as (h1 & E). rewrite (bind_val _ _ _ _ _ E).
  cbn [negb].
  rewrite (bind_val _ _ _ _ _ (unescape_safe buf s (steps buf) (p + 1)%nat _ [] h1 Sf W1
                                 ltac:(unfold steps; lia))).
  cbn [app].
  replace (p + 1 + length s - (p + 1))%nat with (length s) by lia.
  rewrite Nat.ltb_irrefl. rewrite as_cstring_safe by exact Sf.
  eexists. unfold ret. do 3 f_equal. lia.
Qed.

(** ** Numbers through the window *)






Section NumberWindow.

Variables (buf1 buf2 : cstr) (p1 p2 : nat) (text : cstr) (t1 t2 : ascii) (r1 r2 : list ascii).
Hypothesis W1 : window buf1 p1 = text ++ t1 :: r1.
Hypothesis W2 : window buf2 p2 = text ++ t2 :: r2.
Hypothesis T1 : number_char t1 = false.
Hypothesis T2 : number_char t2 = false.

Lemma read_both q1 q2 i :
  q1 = (p1 + i)%nat -> q2 = (p2 + i)%nat -> (i <= length text)%nat ->
  exists c1 c2,
    deref buf1 q1 = Some c1 /\ deref buf2 q2 = Some c2 /\ alike c1 c2
    /\ (number_char c1 = true -> (i < length text)%nat)
    /\ ((i < length text)%nat -> c1 = c2).
Proof.
  intros -> -> Hi.
  rewrite <- (firstn_skipn i text) in W1, W2. rewrite <- app_assoc in W1, W2.
  assert (L : length (firstn i text) = i) by (rewrite length_firstn; lia).
  apply window_app in W1. apply window_app in W2. rewrite L in W1, W2.
  destruct (skipn i text) as [|c rest] eqn:Sk.
  - assert (i = length text).
    { assert (length (skipn i text) = 0%nat) by (rewrite Sk; reflexivity).
      rewrite length_skipn in H. lia. }
    exists t1, t2. cbn [app] in W1, W2.
    repeat split; eauto using window_deref.
    + right. auto.
    + intros N. congruence.
    + intros Lt. lia.
  - exists c, c. cbn [app] in W1, W2.
    repeat split; eauto using window_deref.
    + left. reflexivity.
    + intros _. assert (length (skipn i text) = S (length rest)) by (rewrite Sk; reflexivity).
      rewrite length_skipn in H. lia.
Qed.


(** Reads the same offset in both texts: [c] is the byte of the first. *)
Tactic Notation "both" hyp(H) "at" constr(i) "as" ident(c) ident(c') ident(A) ident(In)
    ident(Eq) :=
  let D1 := fresh "D" in
  let D2 := fresh "D" in
  let E := fresh "E" in
  let h' := fresh "h" in
  match type of H with
  | bind (load _ ?q1) _ _ = _ =>
      match goal with
      | |- context [load buf2 ?q2] =>
          destruct (read_both q1 q2 i ltac:(lia) ltac:(lia) ltac:(lia))
            as (c & c' & D1 & D2 & A & In & Eq);
          let x := fresh "x" in
          apply bind_inv in H; destruct H as (x & h' & E & H);
          apply load_inv in E; destruct E as [E ?]; subst h';
          rewrite D1 in E;
          assert (x = c) by congruence; subst x; clear E;
          rewrite (bind_val _ _ _ _ _ (load_val _ _ _ _ D2))
      end
  end.









End NumberWindow.

(** ** A number in its context *)





(** ** The first byte of a text *)





(** ** Values through the window *)







Lemma new_item_granted h : exists h', cJSON_New_Item never h = Val (Ptr zeroed) h'.
Proof.
  unfold cJSON_New_Item. destruct (malloc_granted NodeBlock h) as (h' & E).
  rewrite (bind_val _ _ _ _ _ E). eexists. reflexivity.
Qed.

(** [parse_value] on a text that starts with none of n, f and t. *)
Lemma parse_value_dispatch buf fuel item p s r h :
  window buf p = s :: r ->
  Ascii.eqb s "n" = false -> Ascii.eqb s "f" = false -> Ascii.eqb s "t" = false ->
  parse_value never buf (S fuel) item (Some p) h
  = (if Ascii.eqb s quote then parse_string never buf item p
     else if Ascii.eqb s "-" || is_digit s then parse_number buf item p
     else if Ascii.eqb s "[" then parse_array never buf (parse_value never buf fuel) item p
     else if Ascii.eqb s "{" then parse_object never buf (parse_value never buf fuel) item p
     else ret (item, None)) h.
Proof.
  intros W N F T. cbn [parse_value].
  change (lit "null") with ("n"%char :: lit "ull").
  change (lit "false") with ("f"%char :: lit "alse").
  change (lit "true") with ("t"%char :: lit "rue").
  rewrite (bind_val _ _ _ _ _ (matches_other buf p s r _ _ h W N)).
  rewrite (bind_val _ _ _ _ _ (matches_other buf p s r _ _ h W F)).
  rewrite (bind_val _ _ _ _ _ (matches_other buf p s r _ _ h W T)).
  rewrite (bind_val _ _ _ _ _ (window_load _ _ _ _ h W)). reflexivity.
Qed.























(** ** Printing, then parsing *)



(** Numbers that survive printing and parsing, and numbers that do not: the
    general format keeps six significant digits. *)
Example number_safe_samples :
  forallb number_safe
    [0; 1; -1; 42; 123456; 1234567; 2147483647; -2147483648; 0.5; -0.5; 0.25; 3.5; 1e15]%float
  = true
  /\ map number_safe [1234567.5; 2147483648]%float = [false; false].
Proof. split; vm_compute; reflexivity. Qed.

Lemma small_integers_safe z :
  -1000 <= z <= 1000 -> number_safe (Dbl.of_int z) = true.
Proof.
  intros B.
  assert (A : forallb (fun n => number_safe (Dbl.of_int (Z.of_nat n - 1000))) (seq 0 2001) = true)
    by (vm_compute; reflexivity).
  rewrite forallb_forall in A.
  replace z with (Z.of_nat (Z.to_nat (z + 1000)) - 1000) by lia.
  apply A. apply in_seq. lia.
Qed.




(** ** What the parser allocates, [cJSON_Delete] frees *)

Lemma cJSON_Parse_tally refused value t h h1 :
  cJSON_Parse refused value h = Val (Ptr t) h1 ->
  plain (Ptr t)
  /\ nodes h1 = nodes h + nodes_of (Ptr t)
  /\ strings h1 = strings h + strings_of (Ptr t).
Proof.
  intros H. unfold cJSON_Parse in H.
  step H as p h2 En. apply new_item_inv in En.
  destruct En as [(-> & N & S)|(-> & N & S)]; [done_ret H|].
  step H as v h3 Ew. apply skip_whitespace_pure in Ew. destruct Ew as [-> _].
  step H as cr h3 Ep. destruct cr as [c r].
  apply parse_value_tally in Ep; [|apply blank_zeroed].
  destruct Ep as (Nx & F & P & N1 & S1).
  destruct r as [q|]; [|step H as u h4 Ed; done_ret H].
  done_ret H.
  rewrite nodes_of_Ptr, strings_of_Ptr, Nx.
  change (next zeroed) with NULL in *.
  change (nodes_of NULL) with 0. change (strings_of NULL) with 0.
  change (owned (string zeroed)) with 0 in S1.
  split; [apply plain_Ptr; rewrite Nx; repeat split; auto; apply F|]. lia.
Qed.

(** X1: a tree that [cJSON_Parse] returns accounts for every block the
    parse took from the allocator (one per node, one per string payload and
    per key), and [cJSON_Delete] of the tree gives all of them back: after
    the two calls as many nodes and strings are live as before. *)
Theorem parse_then_delete (refused : nat -> bool) (value : option cstr) (t : cJSON)
    (h h1 : heap) :
  cJSON_Parse refused value h = Val (Ptr t) h1 ->
  nodes h1 = nodes h + nodes_of (Ptr t)
  /\ strings h1 = strings h + strings_of (Ptr t)
  /\ exists h2, cJSON_Delete (Ptr t) h1 = Val tt h2
                /\ nodes h2 = nodes h /\ strings h2 = strings h.
Proof.
  intros H. destruct (cJSON_Parse_tally _ _ _ _ _ H) as (P & N & S).
  split; [exact N|]. split; [exact S|].
  rewrite (cJSON_Delete_frees _ _ P). eexists. split; [reflexivity|].
  cbn [nodes strings]. lia.
Qed.

Lemma parse_then_delete_witness :
  exists t h1,
    cJSON_Parse never (Some dup_object) h0 = Val (Ptr t) h1
    /\ nodes h1 = 3 /\ strings h1 = 2
    /\ exists h2, cJSON_Delete (Ptr t) h1 = Val tt h2 /\ nodes h2 = 0 /\ strings h2 = 0.
Proof.
  eexists _, _. split; [vm_compute; reflexivity|].
  match goal with
  | |- nodes ?h1 = _ /\ _ =>
      destruct (parse_then_delete never (Some dup_object)
                  (mkJSON NULL
                     (Ptr (mkJSON (Ptr (mkJSON NULL NULL 8 None 2 2 (Some (lit "x"))))
                             NULL 8 None 1 1 (Some (lit "x"))))
                     64 None 0 0 None) h0 h1)
        as (N & S & h2 & E & N2 & S2)
  end.
  - vm_compute. reflexivity.
  - split; [exact N|]. split; [exact S|]. exists h2. auto.
Defined.

(** ** What the printer allocates *)

Lemma free_inv b u h h' :
  cJSON_free b h = Val u h' ->
  match b with
  | NodeBlock => nodes h' = nodes h - 1 /\ strings h' = strings h
  | StringBlock => nodes h' = nodes h /\ strings h' = strings h - 1
  end.
Proof. destruct b; cbn; intros H; inversion H; cbn; auto. Qed.

Lemma free_string_inv (s : option cstr) u h h' :
  free_string s h = Val u h' -> nodes h' = nodes h /\ strings h' = strings h - owned s.
Proof.
  destruct s; cbn [free_string owned]; intros H.
  - apply free_inv in H. exact H.
  - done_ret H. split; lia.
Qed.

Lemma strcpy_at_inv cap out s r h h' : strcpy_at cap out s h = Val r h' -> h' = h.
Proof. unfold strcpy_at. destruct (_ <? _); [discriminate|]. intros H. done_ret H. reflexivity. Qed.

Lemma putc_at_inv cap out c r h h' : putc_at cap out c h = Val r h' -> h' = h.
Proof. unfold putc_at. destruct (_ <? _); [discriminate|]. intros H. done_ret H. reflexivity. Qed.

Lemma print_literal_tally refused size word r h h' :
  print_literal refused size word h = Val r h' ->
  nodes h' = nodes h /\ strings h' = strings h + owned r.
Proof.
  unfold print_literal. intros H. step H as ok h1 Em. apply malloc_inv in Em.
  destruct Em as [(-> & N & S)|(-> & N & S)].
  - done_ret H. cbn [owned]. lia.
  - step H as out h2 Ec. apply strcpy_at_inv in Ec. subst h2. done_ret H. cbn [owned]. lia.
Qed.

Lemma print_number_tally refused item r h h' :
  print_number refused item h = Val r h' ->
  nodes h' = nodes h /\ strings h' = strings h + owned r.
Proof.
  unfold print_number. intros H. step H as ok h1 Em. apply malloc_inv in Em.
  destruct Em as [(-> & N & S)|(-> & N & S)]; cbn [negb] in H.
  - done_ret H. cbn [owned]. lia.
  - cbv zeta in H. step H as out h2 Ec.
    assert (h2 = h1).
    { repeat match type of Ec with
             | (if ?b then _ else _) _ = _ => destruct b
             end; eapply strcpy_at_inv; eauto. }
    subst h2. done_ret H. cbn [owned]. lia.
Qed.

Lemma print_string_tally refused s r h h' :
  print_string refused s h = Val r h' ->
  nodes h' = nodes h /\ strings h' = strings h + owned r.
Proof.
  unfold print_string. destruct s as [s|]; [|discriminate]. cbv zeta. intros H.
  step H as ok h1 Em. apply malloc_inv in Em.
  destruct Em as [(-> & N & S)|(-> & N & S)]; cbn [negb] in H.
  - done_ret H. cbn [owned]. lia.
  - step H as out h2 Ec. apply strcpy_at_inv in Ec. subst h2. done_ret H. cbn [owned]. lia.
Qed.

Lemma print_array_tally refused c :
  loops_tally refused (child c) ->
  forall h r h',
    print_array refused (array_measure refused) (array_write refused) c h = Val r h' ->
    nodes h' = nodes h /\ strings h' = strings h + owned r.
Proof.
  intros (Meas & Write & _ & _) h r h' H. unfold print_array in H.
  step H as m h1 E1. apply Meas in E1. destruct E1 as [N1 S1].
  destruct m as [len|]; [|done_ret H; cbn [owned]; lia].
  step H as ok h2 Em. apply malloc_inv in Em.
  destruct Em as [(-> & N & S)|(-> & N & S)]; cbn [negb] in H.
  { done_ret H. cbn [owned]. lia. }
  step H as out h3 Ep. apply putc_at_inv in Ep. subst h3.
  step H as w h3 Ew. apply Write in Ew. destruct Ew as [N3 S3].
  destruct w as [out'|]; cbn [owned] in S3.
  - step H as out2 h4 Ec. apply strcpy_at_inv in Ec. subst h4. done_ret H. cbn [owned]. lia.
  - done_ret H. cbn [owned]. lia.
Qed.

Lemma print_object_tally refused c :
  loops_tally refused (child c) ->
  forall h r h',
    print_object refused (object_measure refused) (object_write refused) c h = Val r h' ->
    nodes h' = nodes h /\ strings h' = strings h + owned r.
Proof.
  intros (_ & _ & Meas & Write) h r h' H. unfold print_object in H.
  step H as m h1 E1. apply Meas in E1. destruct E1 as [N1 S1].
  destruct m as [len|]; [|done_ret H; cbn [owned]; lia].
  step H as ok h2 Em. apply malloc_inv in Em.
  destruct Em as [(-> & N & S)|(-> & N & S)]; cbn [negb] in H.
  { done_ret H. cbn [owned]. lia. }
  step H as out h3 Ep. apply putc_at_inv in Ep. subst h3.
  step H as w h3 Ew. apply Write in Ew. destruct Ew as [N3 S3].
  destruct w as [out'|]; cbn [owned] in S3.
  - step H as out2 h4 Ec. apply strcpy_at_inv in Ec. subst h4. done_ret H. cbn [owned]. lia.
  - done_ret H. cbn [owned]. lia.
Qed.

Lemma print_item_tally refused c :
  loops_tally refused (child c) -> print_tally refused c.
Proof.
  intros L h r h' H. rewrite print_item_unfold in H. cbv zeta in H.
  repeat match type of H with
         | (if ?b then _ else _) _ = _ => destruct b
         end;
    eauto using print_literal_tally, print_number_tally, print_string_tally,
      print_array_tally, print_object_tally.
  done_ret H. cbn [owned]. lia.
Qed.

Lemma loops_tally_nil refused : loops_tally refused NULL.
Proof.
  repeat split; intros;
    match goal with H : _ = Val _ _ |- _ => cbn in H; done_ret H end;
    cbn [owned]; lia.
Qed.

Lemma loops_tally_cons refused c :
  print_tally refused c -> loops_tally refused (next c) -> loops_tally refused (Ptr c).
Proof.
  intros Pc (Am & Aw & Om & Ow). split; [|split; [|split]].
  - intros len h r h' H. rewrite array_measure_Ptr in H.
    step H as printed h1 E1. apply Pc in E1. destruct E1 as [N1 S1].
    destruct printed as [text|]; cbn [owned] in S1.
    + step H as u h2 Ef. apply free_inv in Ef. destruct Ef as [N2 S2].
      apply Am in H. lia.
    + done_ret H. lia.
  - intros len out h r h' H. rewrite array_write_Ptr in H.
    step H as printed h1 E1. apply Pc in E1. destruct E1 as [N1 S1].
    destruct printed as [text|]; cbn [owned] in S1.
    + step H as out1 h2 Ec. apply strcpy_at_inv in Ec. subst h2.
      step H as u h2 Ef. apply free_inv in Ef. destruct Ef as [N2 S2].
      step H as out2 h3 Ep.
      assert (h3 = h2).
      { destruct (negb (is_null (next c))); [eapply putc_at_inv; eauto|].
        apply ret_inv in Ep. tauto. }
      subst h3. apply Aw in H. lia.
    + step H as u h2 Ef. apply free_inv in Ef. destruct Ef as [N2 S2].
      done_ret H. cbn [owned]. lia.
  - intros len h r h' H. rewrite object_measure_Ptr in H.
    step H as str h1 Es. apply print_string_tally in Es. destruct Es as [Ns Ss].
    step H as printed h2 E1. apply Pc in E1. destruct E1 as [N1 S1].
    destruct str as [k|], printed as [text|]; cbn [owned] in *;
      try (step H as u h3 Ef; apply free_string_inv in Ef; destruct Ef as [N3 S3];
           step H as u' h4 Ef'; apply free_string_inv in Ef'; destruct Ef' as [N4 S4];
           done_ret H; cbn [owned] in *; lia).
    step H as u h3 Ef. apply free_inv in Ef. destruct Ef as [N3 S3].
    step H as u' h4 Ef'. apply free_inv in Ef'. destruct Ef' as [N4 S4].
    apply Om in H. lia.
  - intros len out h r h' H. rewrite object_write_Ptr in H.
    step H as str h1 Es. apply print_string_tally in Es. destruct Es as [Ns Ss].
    step H as printed h2 E1. apply Pc in E1. destruct E1 as [N1 S1].
    destruct str as [k|], printed as [text|]; cbn [owned] in *;
      try (step H as u0 h3 Ef0; apply free_inv in Ef0; destruct Ef0 as [N0 S0];
           step H as u h4 Ef; apply free_string_inv in Ef; destruct Ef as [N3 S3];
           step H as u' h5 Ef'; apply free_string_inv in Ef'; destruct Ef' as [N4 S4];
           done_ret H; cbn [owned] in *; lia).
    step H as out1 h3 Ec. apply strcpy_at_inv in Ec. subst h3.
    step H as u h3 Ef. apply free_inv in Ef. destruct Ef as [N3 S3].
    step H as out2 h4 Ep. apply putc_at_inv in Ep. subst h4.
    step H as out3 h4 Ec. apply strcpy_at_inv in Ec. subst h4.
    step H as u' h4 Ef'. apply free_inv in Ef'. destruct Ef' as [N4 S4].
    step H as out4 h5 Ep.
    assert (h5 = h4).
    { destruct (negb (is_null (next c))); [eapply putc_at_inv; eauto|].
      apply ret_inv in Ep. tauto. }
    subst h5. apply Ow in H. lia.
Qed.

Lemma printer_tally refused :
  (forall c, print_tally refused c /\ loops_tally refused (next c))
  /\ (forall p, loops_tally refused p).
Proof.
  apply cJSON_ptr_ind.
  - intros nx IN ch IC t v i d s. split; [|exact IN].
    apply print_item_tally. exact IC.
  - apply loops_tally_nil.
  - intros c [Pc Ln]. apply loops_tally_cons; assumption.
Qed.

(** X2: whatever the allocator refuses, a run of the printer that returns
    leaves the allocator as it found it but for the block of the text it
    returns: every intermediate text is freed, and on a failure (a null
    result) so is the partially written output. *)
Theorem print_leaks_nothing (refused : nat -> bool) (item : ptr) (h h' : heap)
    (r : option cstr) :
  cJSON_Print refused item h = Val r h' ->
  nodes h' = nodes h
  /\ strings h' = strings h + (match r with Some _ => 1 | None => 0 end).
Proof.
  unfold cJSON_Print, print_value. destruct item as [|c].
  - intros H. done_ret H. lia.
  - intros H. apply (proj1 (proj1 (printer_tally refused) c)) in H. exact H.
Qed.

Lemma print_leaks_nothing_witness :
  nodes (mkHeap 0 0 4) = nodes h0 /\ strings (mkHeap 0 0 4) = strings h0 + 0.
Proof.
  apply (print_leaks_nothing (fun k => Nat.eqb k 2) (Ptr sample_document) h0 (mkHeap 0 0 4) None).
  vm_compute. reflexivity.
Defined.

(** ** Creating a value and adding it in one call *)

(** The three outcomes of [cJSON_AddItemToObject] on two nodes and a key. *)
Lemma add_item_outcomes refused o k it h r h' :
  cJSON_AddItemToObject refused (Ptr o) (Some k) (Ptr it) h = Val r h' ->
  (r = (0, Ptr o, Ptr (set_string it None))
   /\ nodes h' = nodes h /\ strings h' = strings h)
  \/ (exists o',
        r = (1, Ptr o', Ptr (set_string it (Some k)))
        /\ members (child o') = members (child o) ++ members (Ptr (set_string it (Some k)))
        /\ o' = set_child o (child o')
        /\ nodes h' = nodes h /\ strings h' = strings h + 1).
Proof.
  unfold cJSON_AddItemToObject, add_item_to_object, cJSON_strdup, cJSON_malloc, bind, ret.
  cbn. destruct (refused (requests h)); cbn.
  - intros H. inversion H. left. cbn. auto.
  - destruct (child o) as [|first] eqn:C; intros H; inversion H; right; cbn;
      eexists; (split; [reflexivity|]); destruct o; cbn in *; subst;
      (split; [try apply members_append_sibling; reflexivity|]); repeat split.
Qed.

Lemma create_then_add refused make good object name h r h' :
  creates make good ->
  bind make (fun item =>
    bind (cJSON_AddItemToObject refused object name item) (fun '(ok, object, item) =>
      if ok =? 0 then bind (cJSON_Delete item) (fun _ => ret (NULL, object))
      else ret (item, object))) h = Val r h' ->
  added good object name h r h'.
Proof.
  intros Cr H. step H as p h1 Em. apply Cr in Em.
  destruct Em as [(-> & N1 & S1)|(c & -> & G & Nx & Ch & St & F & N1 & S1)].
  - (* nothing was made *)
    assert (E : cJSON_AddItemToObject refused object name NULL h1 = Val (0, object, NULL) h1).
    { unfold cJSON_AddItemToObject, add_item_to_object.
      destruct object; [reflexivity|]. reflexivity. }
    rewrite (bind_val _ _ _ _ _ E) in H. cbn beta iota in H.
    change (0 =? 0) with true in H. cbv iota in H.
    step H as u h2 Ed. done_ret H. cbn in Ed. done_ret Ed. left. auto.
  - assert (Pl : forall s, plain (Ptr (set_string c s))).
    { intros s. destruct c as [nx ch t v i d s0]. cbn in *. subst. repeat split; apply F. }
    assert (Dl : forall s hh,
               cJSON_Delete (Ptr (set_string c s)) hh
               = Val tt (mkHeap (nodes hh - 1)
                           (strings hh - (owned (valuestring c) + owned s)) (requests hh))).
    { intros s hh. rewrite cJSON_Delete_frees by apply Pl.
      destruct c as [nx ch t v i d s0]. cbn in *. subst. cbn. do 2 f_equal; lia. }
    destruct object as [|o]; [|destruct name as [k|]].
    + (* no container *)
      rewrite bind_val with (a := (0, NULL, Ptr c)) (h1 := h1) in H by reflexivity.
      cbn beta iota in H. change (0 =? 0) with true in H. cbv iota in H.
      step H as u h2 Ed. done_ret H.
      replace c with (set_string c None) in Ed by (destruct c; cbn in *; congruence).
      rewrite Dl in Ed. inversion Ed. left. cbn. repeat split; lia.
    + step H as a h2 Ea. apply add_item_outcomes in Ea.
      destruct Ea as [(-> & N2 & S2)|(o' & -> & Mb & Eo & N2 & S2)].
      * cbn beta iota in H. change (0 =? 0) with true in H. cbv iota in H.
        step H as u h3 Ed. done_ret H. rewrite Dl in Ed. inversion Ed.
        left. cbn. repeat split; lia.
      * cbn beta iota in H. change (1 =? 0) with false in H. cbv iota in H.
        done_ret H. right. exists o, o', k, c.
        repeat split; auto; try lia.
        rewrite Mb. f_equal. unfold members.
        destruct c as [nx ch t v i d s0]. cbn in *. subst. reflexivity.
    + (* no key *)
      rewrite bind_val with (a := (0, Ptr o, Ptr c)) (h1 := h1) in H by reflexivity.
      cbn beta iota in H. change (0 =? 0) with true in H. cbv iota in H.
      step H as u h2 Ed. done_ret H.
      replace c with (set_string c None) in Ed by (destruct c; cbn in *; congruence).
      rewrite Dl in Ed. inversion Ed. left. cbn. repeat split; lia.
Qed.

Lemma creates_string refused s :
  creates (cJSON_CreateString refused (Some s))
    (fun c => c = mkJSON NULL NULL cJSON_String (Some s) 0 0%float None).
Proof.
  intros h p h1 H. unfold cJSON_CreateString in H.
  step H as q h2 En. apply new_item_inv in En.
  destruct En as [(-> & N & S)|(-> & N & S)]; [done_ret H; left; auto|].
  cbv zeta in H. step H as s' h3 Es. done_ret Es.
  step H as copy h3 Ec. unfold cJSON_strdup in Ec.
  step Ec as ok h4 Em. apply malloc_inv in Em.
  destruct Em as [(-> & N4 & S4)|(-> & N4 & S4)]; done_ret Ec; cbn [no_string] in H.
  - step H as u h5 Ed. done_ret H. cbn in Ed. inversion Ed. left. cbn. repeat split; lia.
  - done_ret H. right. eexists. split; [reflexivity|]. cbn.
    repeat split; try reflexivity; lia.
Qed.

Lemma creates_number refused d :
  creates (cJSON_CreateNumber refused d) (fun c => c = created_number d).
Proof.
  intros h p h1 H. unfold cJSON_CreateNumber in H.
  step H as q h2 En. apply new_item_inv in En.
  destruct En as [(-> & N & S)|(-> & N & S)]; done_ret H; [left; auto|].
  right. eexists. split; [reflexivity|]. cbn. repeat split; try reflexivity; lia.
Qed.

Lemma creates_bool refused b :
  creates (cJSON_CreateBool refused b)
    (fun c => c = mkJSON NULL NULL (if b =? 0 then cJSON_False else cJSON_True) None 0 0%float
                    None).
Proof.
  intros h p h1 H. unfold cJSON_CreateBool in H.
  step H as q h2 En. apply new_item_inv in En.
  destruct En as [(-> & N & S)|(-> & N & S)]; done_ret H; [left; auto|].
  right. eexists. split; [reflexivity|]. cbn.
  repeat split; try reflexivity; try lia; destruct (b =? 0); reflexivity.
Qed.

(** X3: [cJSON_AddStringToObject], [cJSON_AddNumberToObject] and
    [cJSON_AddBoolToObject] either return null, with the container and the
    allocator as they were (the node made is deleted when it cannot be
    linked), or return the node made, which then carries a copy of the key
    and is the last child of the container, one node and its strings having
    been taken from the allocator. *)
Theorem add_value_all_or_nothing (refused : nat -> bool) :
  (forall object name s h r h',
      cJSON_AddStringToObject refused object name (Some s) h = Val r h' ->
      added (fun c => c = mkJSON NULL NULL cJSON_String (Some s) 0 0%float None)
        object name h r h')
  /\ (forall object name d h r h',
        cJSON_AddNumberToObject refused object name d h = Val r h' ->
        added (fun c => c = created_number d) object name h r h')
  /\ (forall object name b h r h',
        cJSON_AddBoolToObject refused object name b h = Val r h' ->
        added (fun c => c = mkJSON NULL NULL (if b =? 0 then cJSON_False else cJSON_True)
                              None 0 0%float None)
          object name h r h').
Proof.
  split; [|split].
  - intros object name s h r h' H. eapply create_then_add; [apply creates_string|exact H].
  - intros object name d h r h' H. eapply create_then_add; [apply creates_number|exact H].
  - intros object name b h r h' H. eapply create_then_add; [apply creates_bool|exact H].
Qed.

(** ** Lookup after an addition *)

Lemma has_key_detach name c : has_key name (detach c) = has_key name c.
Proof. destruct c; reflexivity. Qed.

Lemma keyed_detach c : keyed (detach c) <-> keyed c.
Proof. destruct c; reflexivity. Qed.

Lemma find_members name : forall p,
  find (has_key name) (members p)
  = option_map detach (find (has_key name) (siblings p)).
Proof.
  fix IH 1. intros [|c]; [reflexivity|].
  pose proof (IH (next c)) as IHn. clear IH.
  rewrite members_Ptr, siblings_Ptr. cbn [find]. rewrite has_key_detach.
  destruct (has_key name c); [reflexivity|exact IHn].
Qed.

Lemma keyed_members : forall p, Forall keyed (members p) <-> Forall keyed (siblings p).
Proof.
  fix IH 1. intros [|c]; [split; constructor|].
  pose proof (IH (next c)) as IHn. clear IH.
  rewrite members_Ptr, siblings_Ptr. rewrite !Forall_cons_iff, keyed_detach, IHn. reflexivity.
Qed.

Lemma find_first_app {A} (f : A -> bool) : forall l1 l2,
  find f (l1 ++ l2) = match find f l1 with Some x => Some x | None => find f l2 end.
Proof.
  induction l1 as [|x l1 IH]; intros l2; [reflexivity|].
  cbn [app find]. destruct (f x); [reflexivity|apply IH].
Qed.

Lemma lookup_members o name h :
  Forall keyed (siblings (child o)) ->
  exists p, cJSON_GetObjectItem (Ptr o) (Some name) h = Val p h
            /\ found p = find (has_key name) (members (child o)).
Proof.
  intros K. unfold cJSON_GetObjectItem. rewrite (find_item_first name _ h K).
  eexists. split; [reflexivity|]. rewrite find_members.
  destruct (find (has_key name) (siblings (child o))); reflexivity.
Qed.

(** X4: after [cJSON_AddItemToObject] has linked a node without siblings
    under a key into a container whose children all carry keys, a lookup
    returns the first node carrying the name among the former children
    followed by the node added: an earlier child with the same key still
    wins, and the node added is found under its key when no earlier child
    carries it. *)
Theorem lookup_after_add (refused : nat -> bool) (o it o' : cJSON) (k name : cstr)
    (it' : ptr) (h h1 h2 : heap) :
  Forall keyed (siblings (child o)) -> next it = NULL ->
  cJSON_AddItemToObject refused (Ptr o) (Some k) (Ptr it) h = Val (1, Ptr o', it') h1 ->
  exists p,
    cJSON_GetObjectItem (Ptr o') (Some name) h2 = Val p h2
    /\ found p = find (has_key name) (members (child o) ++ [set_string it (Some k)])
    /\ (forall c, find (has_key name) (members (child o)) = Some c -> found p = Some c)
    /\ (find (has_key name) (members (child o)) = None -> k = name ->
        found p = Some (set_string it (Some k))).
Proof.
  intros K Nx H. apply add_item_outcomes in H.
  destruct H as [(Bad & _)|(o2 & E & Mb & Eo & _)]; [discriminate|].
  inversion E. subst o2 it'. rewrite members_Ptr in Mb.
  assert (Alone : detach (set_string it (Some k)) = set_string it (Some k)
                  /\ members (next (set_string it (Some k))) = []).
  { destruct it as [nx ch t v i d s]. cbn in Nx. subst nx. split; reflexivity. }
  destruct Alone as [Dt Tail]. rewrite Dt, Tail in Mb.
  assert (K' : Forall keyed (siblings (child o'))).
  { apply keyed_members. rewrite Mb. apply Forall_app. split.
    - apply keyed_members. exact K.
    - constructor; [|constructor]. destruct it; cbn. discriminate. }
  destruct (lookup_members o' name h2 K') as (p & Ep & Fp).
  exists p. split; [exact Ep|]. rewrite Mb in Fp. split; [exact Fp|].
  rewrite find_first_app in Fp. split.
  - intros c Old. rewrite Old in Fp. exact Fp.
  - intros Old ->. rewrite Old in Fp. cbn [find] in Fp.
    assert (Hk : has_key name (set_string it (Some name)) = true).
    { destruct it. unfold has_key, cstr_eqb. cbn.
      destruct (list_eq_dec ascii_dec name name); [reflexivity|congruence]. }
    rewrite Hk in Fp. exact Fp.
Qed.

Lemma lookup_after_add_witness :
  exists o' h1 p,
    cJSON_AddItemToObject never (Ptr sample_document) (Some (lit "a"))
      (Ptr (created_number 7)) h0
    = Val (1, Ptr o', Ptr (set_string (created_number 7) (Some (lit "a")))) h1
    /\ cJSON_GetObjectItem (Ptr o') (Some (lit "a")) h1 = Val p h1
    /\ found p = find (has_key (lit "a"))
                   (members (child sample_document)
                      ++ [set_string (created_number 7) (Some (lit "a"))])
    /\ valuedouble (match p with Ptr c => c | NULL => zeroed end) = 3.5%float.
Proof.
  eexists _, _.
  assert (K : Forall keyed (siblings (child sample_document)))
    by (repeat constructor; discriminate).
  match goal with
  | |- exists p, ?run = Val (1, Ptr ?o', ?it') ?h1 /\ _ =>
      assert (E : run = Val (1, Ptr o', it') h1) by (vm_compute; reflexivity);
      destruct (lookup_after_add never sample_document (created_number 7) o'
                  (lit "a") (lit "a") it' h0 h1 h1 K eq_refl E) as (p & Ep & Fp & _)
  end.
  exists p. split; [exact E|]. split; [exact Ep|]. split; [exact Fp|].
  vm_compute in Ep. inversion Ep. reflexivity.
Defined.

(** ** What follows a value is not read *)




(** X7: the printer copies a string payload between two double quotes
    without escaping anything, so a payload that holds a double quote does
    not come back: the text printed for it parses to a String that holds
    only the bytes before the first double quote. *)
Theorem quote_truncates_string (a b : cstr) (h : heap) :
  text_safe a = true -> strlen (a ++ quote :: b) + 3 < 2 ^ 64 ->
  exists h1 h2,
    cJSON_Print never (Ptr (mkJSON NULL NULL cJSON_String (Some (a ++ quote :: b)) 0 0%float None)) h
    = Val (Some (quote :: (a ++ quote :: b) ++ [quote])) h1
    /\ cJSON_Parse never (Some (quote :: (a ++ quote :: b) ++ [quote])) h1
       = Val (Ptr (mkJSON NULL NULL cJSON_String (Some a) 0 0%float None)) h2.
Proof.
  intros Sa Len.
  destruct (print_string_runs (a ++ quote :: b) h ltac:(lia)) as (h1 & E1).
  exists h1. 
  set (text := quote :: (a ++ quote :: b) ++ [quote]).
  assert (W : window text 0 = quote :: a ++ quote :: (b ++ [quote; NUL])).
  { unfold window, memory, text. cbn [skipn app]. rewrite <- !app_assoc. reflexivity. }
  unfold cJSON_Parse. cbv zeta.
  destruct (new_item_granted h1) as (h2 & E2).
  destruct (parse_string_safe text zeroed 0 a _ h2 Sa W) as (h3 & E3).
  exists h3. split; [exact E1|].
  rewrite (bind_val _ _ _ _ _ E2). cbv iota.
  rewrite (bind_val _ _ _ _ _ (skip_whitespace_stays _ _ _ _ h2 W (or_introl eq_refl))).
  assert (E4 : parse_value never text (steps text) zeroed (Some 0%nat) h2
               = Val (set_type (set_valuestring zeroed (Some a)) cJSON_String,
                      Some (0 + (length a + 2))%nat) h3).
  { unfold steps. rewrite (parse_value_dispatch _ _ _ _ _ _ _ W eq_refl eq_refl eq_refl).
    exact E3. }
  rewrite (bind_val _ _ _ _ _ E4). reflexivity.
Qed.

Lemma quote_truncates_string_witness :
  exists h1 h2,
    cJSON_Print never (Ptr (mkJSON NULL NULL cJSON_String (Some (json "say 'hi' twice")) 0 0%float None)) h0
    = Val (Some (json "'say 'hi' twice'")) h1
    /\ cJSON_Parse never (Some (json "'say 'hi' twice'")) h1
       = Val (Ptr (mkJSON NULL NULL cJSON_String (Some (lit "say ")) 0 0%float None)) h2.
Proof.
  apply (quote_truncates_string (lit "say ") (json "hi' twice") h0).
  - reflexivity.
  - vm_compute. reflexivity.
Defined.

(** X5: the parser ends on every text.  Every value [parse_value] accepts
    takes at least one byte, so each pass of the loops of [parse_array] and
    [parse_object] and each level of nesting moves the cursor forward;
    [cJSON_Parse] therefore returns, or reads outside its text, and never
    runs through the bound that its loops and its recursion are given. *)
Theorem parser_always_ends (refused : nat -> bool) :
  (forall value h, cJSON_Parse refused value h <> OutOfFuel)
  /\ (forall buf item p h,
        (p <= length buf)%nat ->
        parse_value refused buf (steps buf) item (Some p) h <> OutOfFuel
        /\ forall item' q h',
             parse_value refused buf (steps buf) item (Some p) h = Val (item', Some q) h' ->
             (p < q)%nat).
Proof.
  split.
  - exact (cJSON_Parse_finishes refused).
  - intros buf item p h Le.
    exact (parse_value_progress refused buf (steps buf) item p h Le ltac:(unfold steps; lia)).
Qed.

(** ** The blocks of the SDK *)

Lemma sdk_malloc_inv refused ok h h' :
  malloc refused h = Val ok h' ->
  nodes h' = nodes h /\ strings h' = strings h + (if ok then 1 else 0).
Proof.
  unfold malloc, cJSON_malloc. destruct (refused (requests h)); intros H; inversion H; cbn; lia.
Qed.

Lemma sdk_free_inv {A} (p : option A) u h h' :
  free p h = Val u h' ->
  nodes h' = nodes h /\ strings h' = strings h - (match p with Some _ => 1 | None => 0 end).
Proof.
  destruct p; cbn; intros H; inversion H; cbn; lia.
Qed.

Lemma sdk_free_runs {A} (p : option A) h : exists h', free p h = Val tt h'.
Proof. destruct p; cbn; eauto. Qed.

Lemma strdup_inv refused s r h h' :
  pxshot_strdup refused s h = Val r h' ->
  (r = None \/ r = s) /\ nodes h' = nodes h /\ strings h' = strings h + owned r.
Proof.
  destruct s as [s|]; cbn [pxshot_strdup]; intros H.
  - step H as ok h1 E. apply sdk_malloc_inv in E. destruct ok; done_ret H; cbn [owned]; intuition lia.
  - done_ret H. cbn; intuition lia.
Qed.

Lemma strdup_runs refused s h : exists r h', pxshot_strdup refused s h = Val r h'.
Proof.
  destruct s as [s|]; cbn [pxshot_strdup]; [|eexists _, _; reflexivity].
  unfold bind, malloc, cJSON_malloc. destruct (refused (requests h)); eexists _, _; reflexivity.
Qed.

Lemma pxshot_free_inv c u h h' :
  pxshot_free (Some c) h = Val u h' ->
  nodes h' = nodes h /\ strings h' = strings h - owned (api_key c) - owned (base_url c) - 1.
Proof.
  cbn [pxshot_free]. intros H.
  step H as u1 h1 E1. step H as u2 h2 E2.
  apply sdk_free_inv in E1, E2, H.
  destruct (api_key c), (base_url c); cbn [owned]; lia.
Qed.

Lemma pxshot_free_runs c h : exists h', pxshot_free c h = Val tt h'.
Proof.
  destruct c as [c|]; cbn [pxshot_free]; [|eexists; reflexivity].
  destruct (sdk_free_runs (api_key c) h) as (h1 & E1).
  destruct (sdk_free_runs (base_url c) h1) as (h2 & E2).
  destruct (sdk_free_runs (Some c) h2) as (h3 & E3).
  exists h3. rewrite (bind_val _ _ _ _ _ E1), (bind_val _ _ _ _ _ E2). exact E3.
Qed.

(** ** The life of a client *)

Lemma new_with_config_outcome refused init cfg key h :
  config_api_key cfg = Some key ->
  exists r h',
    pxshot_new_with_config refused init (Some cfg) h = Val r h'
    /\ nodes h' = nodes h
    /\ match r with
       | None => strings h' = strings h
       | Some c =>
           init = true
           /\ c = mkClient (Some key)
                    (Some (match config_base_url cfg with
                           | Some b => b
                           | None => PXSHOT_DEFAULT_BASE_URL
                           end))
                    (if 0 <? config_timeout_ms cfg then config_timeout_ms cfg else 30000)
                    true
           /\ strings h' = strings h + 3
       end.
Proof.
  intros K. cbn [pxshot_new_with_config]. rewrite K.
  set (b := match config_base_url cfg with Some b => Some b | None => Some PXSHOT_DEFAULT_BASE_URL end).
  set (t := if 0 <? config_timeout_ms cfg then config_timeout_ms cfg else 30000).
  destruct (malloc refused h) as [ok h1| |] eqn:E0;
    try (unfold malloc, cJSON_malloc in E0; destruct (refused (requests h)); discriminate).
  rewrite (bind_val _ _ _ _ _ E0). apply sdk_malloc_inv in E0.
  destruct ok; cbn [negb]; [|eexists _, _; split; [reflexivity|]; split; lia].
  destruct (strdup_runs refused (Some key) h1) as (k & h2 & E1).
  rewrite (bind_val _ _ _ _ _ E1). apply strdup_inv in E1. destruct E1 as (E1 & ? & ?).
  destruct (strdup_runs refused b h2) as (u & h3 & E2).
  rewrite (bind_val _ _ _ _ _ E2). apply strdup_inv in E2. destruct E2 as (E2 & ? & ?).
  cbv zeta.
  destruct (no_string k || no_string u) eqn:N.
  - destruct (pxshot_free_runs (Some (mkClient k u t false)) h3) as (h4 & E3).
    rewrite (bind_val _ _ _ _ _ E3). apply pxshot_free_inv in E3. cbn [api_key base_url] in E3.
    eexists _, _; split; [reflexivity|]. split; lia.
  - apply orb_false_iff in N. destruct N as [N1 N2].
    destruct k as [k|]; [|discriminate]. destruct u as [u|]; [|discriminate].
    destruct E1 as [E1|E1]; [discriminate|]. inversion E1; subst k.
    destruct E2 as [E2|E2]; [discriminate|].
    cbn [curl]. destruct init; cbn [negb].
    + eexists _, _; split; [reflexivity|]. cbn [owned] in *. split; [lia|].
      split; [reflexivity|]. split; [|lia]. f_equal.
      subst b. destruct (config_base_url cfg); inversion E2; reflexivity.
    + destruct (pxshot_free_runs (Some (mkClient (Some key) (Some u) t false)) h3) as (h4 & E3).
      rewrite (bind_val _ _ _ _ _ E3). apply pxshot_free_inv in E3. cbn [api_key base_url] in E3.
      eexists _, _; split; [reflexivity|]. cbn [owned] in *. split; lia.
Qed.

(** X8: [pxshot_new_with_config] always returns; without a configuration
    or a key it returns null and asks the allocator for nothing; otherwise
    it returns null with no block left allocated, or a client that holds
    the key, the base URL given or the default one, the timeout given or
    30000 for one that is not positive, and three blocks, all of which
    [pxshot_free] gives back. *)
Theorem client_all_or_nothing (refused : nat -> bool) (init : bool)
    (config : option pxshot_config_t) (h : heap) :
  exists r h',
    pxshot_new_with_config refused init config h = Val r h'
    /\ nodes h' = nodes h
    /\ match r with
       | None =>
           strings h' = strings h
           /\ (match config with
               | Some cfg => config_api_key cfg = None
               | None => True
               end -> h' = h)
       | Some c =>
           exists cfg key,
             config = Some cfg /\ config_api_key cfg = Some key
             /\ api_key c = Some key
             /\ base_url c = Some (match config_base_url cfg with
                                   | Some b => b
                                   | None => PXSHOT_DEFAULT_BASE_URL
                                   end)
             /\ timeout_ms c = (if 0 <? config_timeout_ms cfg
                                then config_timeout_ms cfg else 30000)
             /\ strings h' = strings h + 3
             /\ exists h'', pxshot_free (Some c) h' = Val tt h''
                            /\ nodes h'' = nodes h /\ strings h'' = strings h
       end.
Proof.
  destruct config as [cfg|]; [|exists None, h; cbn; auto].
  destruct (config_api_key cfg) as [key|] eqn:K.
  - destruct (new_with_config_outcome refused init cfg key h K) as (r & h' & E & N & R).
    exists r, h'. split; [exact E|]. split; [exact N|].
    destruct r as [c|].
    + destruct R as (_ & -> & S). exists cfg, key. cbn [api_key base_url timeout_ms].
      repeat split; try assumption.
      destruct (pxshot_free_runs (Some (mkClient (Some key)
                  (Some (match config_base_url cfg with
                         | Some b => b | None => PXSHOT_DEFAULT_BASE_URL end))
                  (if 0 <? config_timeout_ms cfg then config_timeout_ms cfg else 30000) true)) h')
        as (h'' & F).
      exists h''. split; [exact F|]. apply pxshot_free_inv in F.
      cbn [api_key base_url owned] in F. lia.
    + split; [exact R|]. intros; discriminate.
  - exists None, h. cbn [pxshot_new_with_config]. rewrite K. cbn; auto.
Qed.

(** X9: [pxshot_new] is [pxshot_new_with_config] with the defaults: a
    client it returns for a key holds that key, the base URL
    https://api.pxshot.com and a timeout of 30000 ms; for a null key it
    returns null and asks the allocator for nothing. *)
Theorem new_client_defaults (refused : nat -> bool) (init : bool) (h : heap) :
  pxshot_new refused init None h = Val None h
  /\ forall key c h',
       pxshot_new refused init (Some key) h = Val (Some c) h' ->
       c = mkClient (Some key) (Some (lit "https://api.pxshot.com")) 30000 true.
Proof.
  split; [reflexivity|].
  intros key c h' H. unfold pxshot_new in H.
  destruct (new_with_config_outcome refused init (mkConfig (Some key) None 0) key h eq_refl)
    as (r & h1 & E & _ & R).
  rewrite E in H. inversion H; subst. destruct R as (_ & -> & _). reflexivity.
Qed.

(** ** Responses *)

Lemma response_new_inv refused r h h' :
  pxshot_response_new refused h = Val r h' ->
  nodes h' = nodes h
  /\ ((r = None /\ strings h' = strings h)
      \/ (r = Some zeroed_response /\ strings h' = strings h + 1)).
Proof.
  unfold pxshot_response_new. intros H. step H as ok h1 E. apply sdk_malloc_inv in E.
  destruct ok; done_ret H; intuition lia.
Qed.

Lemma response_new_runs refused h : exists r h', pxshot_response_new refused h = Val r h'.
Proof.
  unfold pxshot_response_new, bind, malloc, cJSON_malloc.
  destruct (refused (requests h)); eexists _, _; reflexivity.
Qed.

Lemma set_error_inv refused resp e m r h h' :
  pxshot_set_error refused resp e (Some m) h = Val r h' ->
  (exists copy, r = set_error_message (set_error_field resp e) copy
                /\ (copy = None \/ copy = Some m)
                /\ strings h' = strings h + owned copy)
  /\ nodes h' = nodes h.
Proof.
  cbn [pxshot_set_error]. intros H. step H as copy h1 E. apply strdup_inv in E.
  done_ret H. split; [exists copy|]; intuition.
Qed.

Lemma set_error_runs refused resp e m h :
  exists r h', pxshot_set_error refused resp e m h = Val r h'.
Proof.
  destruct m as [m|]; cbn [pxshot_set_error]; [|eexists _, _; reflexivity].
  destruct (strdup_runs refused (Some m) h) as (c & h1 & E).
  rewrite (bind_val _ _ _ _ _ E). eexists _, _; reflexivity.
Qed.

Lemma response_free_runs r h : exists h', pxshot_response_free r h = Val tt h'.
Proof.
  destruct r as [r|]; cbn [pxshot_response_free]; [|eexists; reflexivity].
  destruct (sdk_free_runs (error_message r) h) as (h1 & E1).
  rewrite (bind_val _ _ _ _ _ E1). unfold free_buffer at 1. rewrite (bind_val _ _ _ tt h1 eq_refl).
  destruct (stored r) as [s|].
  - destruct (sdk_free_runs (stored_url s) h1) as (h2 & E2).
    destruct (sdk_free_runs (expires_at s) h2) as (h3 & E3).
    destruct (sdk_free_runs (Some s) h3) as (h4 & E4).
    destruct (sdk_free_runs (Some r) h4) as (h5 & E5).
    exists h5. rewrite bind_assoc, (bind_val _ _ _ _ _ E2).
    rewrite bind_assoc, (bind_val _ _ _ _ _ E3). rewrite (bind_val _ _ _ _ _ E4). exact E5.
  - rewrite (bind_val _ _ _ tt h1 eq_refl). apply sdk_free_runs.
Qed.

(** The blocks a response holds, the buffer of a binary reply apart. *)
Lemma response_free_inv r u h h' :
  pxshot_response_free (Some r) h = Val u h' ->
  nodes h' = nodes h
  /\ strings h' = strings h - blocks_of r.
Proof.
  cbn [pxshot_response_free]. unfold blocks_of. intros H.
  step H as u1 h1 E1. apply sdk_free_inv in E1.
  step H as u2 h2 E2. done_ret E2.
  step H as u3 h3 E3. apply sdk_free_inv in H.
  destruct (stored r) as [s|].
  - step E3 as u4 h4 E4. step E3 as u5 h5 E5. apply sdk_free_inv in E4, E5, E3.
    destruct (error_message r), (stored_url s), (expires_at s); cbn [owned]; lia.
  - done_ret E3. destruct (error_message r); cbn [owned]; lia.
Qed.

(** ** Requests that are not sent *)

Section Unsent.

Variable refused : nat -> bool.
Variable slist : Type.
Variable curl_slist_append : option slist -> cstr -> option slist.
Variable curl_easy_strerror : Z -> cstr.

(** The answer made without the transport: [err] and a copy of [msg] when
    there is memory for it, in a response with nothing else in it. *)
Lemma local_answer err msg h :
  exists r h',
    (resp <- pxshot_response_new refused ;;
     match resp with
     | None => ret None
     | Some resp =>
         resp <- pxshot_set_error refused resp err (Some msg) ;; ret (Some resp)
     end) h = Val r h'
    /\ nodes h' = nodes h
    /\ match r with
       | None => strings h' = strings h
       | Some resp =>
           answer err msg resp
           /\ strings h' = strings h + blocks_of resp
       end.
Proof.
  destruct (response_new_runs refused h) as (r0 & h1 & E0).
  rewrite (bind_val _ _ _ _ _ E0). apply response_new_inv in E0.
  destruct E0 as (N0 & [(-> & S0)|(-> & S0)]).
  - exists None, h1. repeat split; assumption.
  - destruct (set_error_runs refused zeroed_response err (Some msg) h1) as (r & h2 & E1).
    rewrite (bind_val _ _ _ _ _ E1). apply set_error_inv in E1.
    destruct E1 as ((copy & -> & C & S1) & N1).
    eexists _, _. split; [reflexivity|]. split; [lia|]. split.
    + unfold answer. cbn. repeat split; try reflexivity. exact C.
    + unfold blocks_of.
      cbn [error_message stored set_error_message set_error_field zeroed_response]. lia.
Qed.

End Unsent.

(** ** The body of a request *)

Lemma nodes_of_members : forall p,
  nodes_of p = fold_right Z.add 0 (map (fun m => nodes_of (Ptr m)) (members p)).
Proof.
  fix IH 1. intros [|[nx ch t v i d s]]; [reflexivity|].
  rewrite members_Ptr. cbn [map fold_right next]. rewrite <- IH.
  cbn [detach set_next nodes_of]. lia.
Qed.

Lemma strings_of_members : forall p,
  strings_of p = fold_right Z.add 0 (map (fun m => strings_of (Ptr m)) (members p)).
Proof.
  fix IH 1. intros [|[nx ch t v i d s]]; [reflexivity|].
  rewrite members_Ptr. cbn [map fold_right next]. rewrite <- IH.
  cbn [detach set_next strings_of]. lia.
Qed.

Lemma plain_members : forall p, plain p <-> Forall (fun m => plain (Ptr m)) (members p).
Proof.
  fix IH 1. intros [|[nx ch t v i d s]].
  - cbn. split; auto.
  - rewrite members_Ptr. cbn [next]. split.
    + intros (F & C & N). constructor; [cbn; auto|]. apply IH. exact N.
    + intros H. inversion H as [|x l Hx Hl]; subst. cbn in Hx. destruct Hx as (F & C & _).
      cbn [plain]. split; [exact F|]. split; [exact C|]. apply IH. exact Hl.
Qed.

Lemma fold_add_app (l1 l2 : list Z) :
  fold_right Z.add 0 (l1 ++ l2) = fold_right Z.add 0 l1 + fold_right Z.add 0 l2.
Proof. induction l1 as [|x l IH]; cbn [app fold_right]; lia. Qed.

Lemma grows_refl o h : grows o o h h.
Proof. unfold grows. destruct o; cbn. repeat split; auto; lia. Qed.

Lemma grows_heap o h h' :
  nodes h' = nodes h -> strings h' = strings h -> grows o o h h'.
Proof. unfold grows. destruct o; cbn. repeat split; auto; lia. Qed.

Lemma grows_trans o1 o2 o3 h1 h2 h3 :
  grows o1 o2 h1 h2 -> grows o2 o3 h2 h3 -> grows o1 o3 h1 h3.
Proof.
  unfold grows. intros (E1 & P1 & N1 & S1) (E2 & P2 & N2 & S2).
  repeat split; try lia; auto.
  rewrite E2 at 1. rewrite E1 at 1.
  destruct o1 as [nx ch t v i d s]. reflexivity.
Qed.

(** A member that comes with one node, [k] strings and no children. *)
Lemma added_grows (good : cJSON -> Prop) o name h r h' :
  (forall c, good c -> child c = NULL /\ next c = NULL /\ flagless (type c)) ->
  added good (Ptr o) name h r h' ->
  exists o', snd r = Ptr o' /\ grows o o' h h'.
Proof.
  intros G [(-> & N & S)|(o0 & o' & k & c & Eo & -> & Gc & -> & Mem & Eo' & N & S)].
  - exists o. split; [reflexivity|]. apply grows_heap; assumption.
  - inversion Eo; subst o0. exists o'. split; [reflexivity|].
    destruct (G c Gc) as (Cc & Nc & Fc).
    unfold grows. split; [exact Eo'|].
    rewrite (nodes_of_members (child o')), (strings_of_members (child o')), Mem.
    rewrite !map_app, !fold_add_app.
    rewrite <- (nodes_of_members (child o)), <- (strings_of_members (child o)).
    destruct c as [cn cc ct cv ci cd cs]. cbn in Cc, Nc, Fc. subst cn cc.
    cbn [map fold_right set_string nodes_of strings_of valuestring owned] in *.
    repeat split; try lia.
    intros P. apply plain_members. rewrite Mem. apply Forall_app. split.
    + apply plain_members. exact P.
    + constructor; [|constructor]. cbn. auto.
Qed.

Section Body.

Variable refused : nat -> bool.

Lemma add_string_grows o name s r h h' :
  add_string refused (Ptr o) name (Some s) h = Val r h' ->
  exists o', r = Ptr o' /\ grows o o' h h'.
Proof.
  unfold add_string. intros H. step H as rb h1 E. destruct rb as [it body]. done_ret H.
  unfold cJSON_AddStringToObject in E.
  apply (create_then_add refused _ _ _ _ _ _ _ (creates_string refused s)) in E.
  apply added_grows in E; [exact E|].
  intros c ->. cbn. repeat split.
Qed.

Lemma add_number_grows o name d r h h' :
  add_number refused (Ptr o) name d h = Val r h' ->
  exists o', r = Ptr o' /\ grows o o' h h'.
Proof.
  unfold add_number. intros H. step H as rb h1 E. destruct rb as [it body]. done_ret H.
  unfold cJSON_AddNumberToObject in E.
  apply (create_then_add refused _ _ _ _ _ _ _ (creates_number refused d)) in E.
  apply added_grows in E; [exact E|].
  intros c ->. cbn. repeat split.
Qed.

Lemma add_bool_grows o name b r h h' :
  add_bool refused (Ptr o) name b h = Val r h' ->
  exists o', r = Ptr o' /\ grows o o' h h'.
Proof.
  unfold add_bool. intros H. step H as rb h1 E. destruct rb as [it body]. done_ret H.
  unfold cJSON_AddBoolToObject in E.
  apply (create_then_add refused _ _ _ _ _ _ _ (creates_bool refused b)) in E.
  apply added_grows in E; [exact E|].
  intros c ->. destruct (b =? 0); cbn; repeat split.
Qed.

Lemma when_grows test (add : ptr -> M ptr) o r h h' :
  (forall o1 r1 h1 h1', add (Ptr o1) h1 = Val r1 h1' ->
                        exists o', r1 = Ptr o' /\ grows o1 o' h1 h1') ->
  when test add (Ptr o) h = Val r h' ->
  exists o', r = Ptr o' /\ grows o o' h h'.
Proof.
  intros A. unfold when. destruct test; intros H.
  - apply A. exact H.
  - done_ret H. eexists. split; [reflexivity|]. apply grows_refl.
Qed.

Lemma screenshot_members_grows opts u o r h h' :
  url opts = Some u ->
  screenshot_members refused opts (Ptr o) h = Val r h' ->
  exists o', r = Ptr o' /\ grows o o' h h'.
Proof.
  intros U H. unfold screenshot_members in H. rewrite U in H.
  step H as b1 h1 E1. apply add_string_grows in E1. destruct E1 as (o1 & -> & G1).
  step H as b2 h2 E2. apply add_string_grows in E2. destruct E2 as (o2 & -> & G2).
  step H as b3 h3 E3.
  apply (when_grows _ _ _ _ _ _ (fun o1 r1 h1 h1' => add_number_grows o1 _ _ r1 h1 h1')) in E3.
  destruct E3 as (o3 & -> & G3).
  step H as b4 h4 E4.
  apply (when_grows _ _ _ _ _ _ (fun o1 r1 h1 h1' => add_number_grows o1 _ _ r1 h1 h1')) in E4.
  destruct E4 as (o4 & -> & G4).
  step H as b5 h5 E5.
  apply (when_grows _ _ _ _ _ _ (fun o1 r1 h1 h1' => add_number_grows o1 _ _ r1 h1 h1')) in E5.
  destruct E5 as (o5 & -> & G5).
  step H as b6 h6 E6.
  apply (when_grows _ _ _ _ _ _ (fun o1 r1 h1 h1' => add_bool_grows o1 _ _ r1 h1 h1')) in E6.
  destruct E6 as (o6 & -> & G6).
  step H as b7 h7 E7.
  apply (when_grows _ _ _ _ _ _ (fun o1 r1 h1 h1' => add_string_grows o1 _ _ r1 h1 h1')) in E7.
  destruct E7 as (o7 & -> & G7).
  step H as b8 h8 E8.
  assert (G8 : exists o', b8 = Ptr o' /\ grows o7 o' h7 h8).
  { destruct (wait_for_selector opts) as [sel|]; cbn [no_string negb when] in E8.
    - apply add_string_grows in E8. exact E8.
    - done_ret E8. eexists; split; [reflexivity|apply grows_refl]. }
  clear E8. destruct G8 as (o8 & -> & G8).
  step H as b9 h9 E9.
  apply (when_grows _ _ _ _ _ _ (fun o1 r1 h1 h1' => add_number_grows o1 _ _ r1 h1 h1')) in E9.
  destruct E9 as (o9 & -> & G9).
  step H as b10 h10 E10.
  apply (when_grows _ _ _ _ _ _ (fun o1 r1 h1 h1' => add_number_grows o1 _ _ r1 h1 h1')) in E10.
  destruct E10 as (o10 & -> & G10).
  apply (when_grows _ _ _ _ _ _ (fun o1 r1 h1 h1' => add_bool_grows o1 _ _ r1 h1 h1')) in H.
  destruct H as (o11 & -> & G11).
  exists o11. split; [reflexivity|].
  eapply grows_trans; [exact G1|]. eapply grows_trans; [exact G2|].
  eapply grows_trans; [exact G3|]. eapply grows_trans; [exact G4|].
  eapply grows_trans; [exact G5|]. eapply grows_trans; [exact G6|].
  eapply grows_trans; [exact G7|]. eapply grows_trans; [exact G8|].
  eapply grows_trans; [exact G9|]. eapply grows_trans; [exact G10|]. exact G11.
Qed.

End Body.

(** ** What a reply leaves allocated *)

Lemma cJSON_Parse_null_tally refused value h h' :
  cJSON_Parse refused value h = Val NULL h' ->
  nodes h' = nodes h /\ strings h' = strings h.
Proof.
  intros H. unfold cJSON_Parse in H.
  step H as p h1 En. apply new_item_inv in En.
  destruct En as [(-> & N & S)|(-> & N & S)].
  { done_ret H. auto. }
  step H as v h2 Ew. apply skip_whitespace_pure in Ew. destruct Ew as [-> _].
  step H as cr h2 Ep. destruct cr as [c r].
  apply parse_value_tally in Ep; [|apply blank_zeroed].
  destruct Ep as (Nx & F & P & N1 & S1). tidy.
  destruct r as [q|]; [done_ret H|].
  step H as u h3 Ed. done_ret H.
  rewrite cJSON_Delete_frees in Ed.
  - rewrite nodes_of_Ptr, strings_of_Ptr, Nx in Ed.
    assert (Eh : h3 = mkHeap (nodes h2 - (1 + nodes_of (child c) + nodes_of NULL))
                        (strings h2 - (owned (valuestring c) + owned (string c)
                                       + strings_of (child c) + strings_of NULL))
                        (requests h2)) by congruence.
    subst h3. cbn [nodes strings]. tidy. lia.
  - apply plain_Ptr. rewrite Nx. tidy. auto.
Qed.

Lemma find_item_pure name : forall c p h h', find_item c name h = Val p h' -> h' = h.
Proof.
  fix IH 1. intros [|[nx ch t v i d s]] p h h' H; cbn [find_item] in H.
  - apply ret_inv in H. apply H.
  - pose proof (IH nx p h h') as IHn. clear IH.
    destruct s as [key|]; [|discriminate]. destruct name as [n|]; [|discriminate].
    destruct (negb (strcmp key n =? 0)).
    + apply IHn. exact H.
    + apply ret_inv in H. apply H.
Qed.

Lemma string_item_pure json name r h h' : string_item json name h = Val r h' -> h' = h.
Proof.
  unfold string_item. intros H. step H as p h1 E. unfold cJSON_GetObjectItem in E.
  apply find_item_pure in E. subst h1. destruct p; done_ret H; reflexivity.
Qed.

Lemma number_item_pure json name r h h' : number_item json name h = Val r h' -> h' = h.
Proof.
  unfold number_item. intros H. step H as p h1 E. unfold cJSON_GetObjectItem in E.
  apply find_item_pure in E. subst h1. destruct p; done_ret H; reflexivity.
Qed.

Section Replies.

Variable refused : nat -> bool.

Lemma parse_buffer_tally buffer j h h' :
  parse_buffer refused buffer h = Val j h' ->
  plain j /\ nodes h' = nodes h + nodes_of j /\ strings h' = strings h + strings_of j.
Proof.
  unfold parse_buffer. intros H.
  assert (P : exists value, cJSON_Parse refused value h = Val j h').
  { destruct (data buffer) as [b|]; [|eauto]. destruct (string_at b); [eauto|discriminate]. }
  destruct P as (value & P). destruct j as [|t].
  - apply cJSON_Parse_null_tally in P. cbn. intuition lia.
  - apply cJSON_Parse_tally in P. exact P.
Qed.

Lemma delete_tally j u h h' :
  plain j -> cJSON_Delete j h = Val u h' ->
  nodes h' = nodes h - nodes_of j /\ strings h' = strings h - strings_of j.
Proof.
  intros P H. rewrite (cJSON_Delete_frees j h P) in H. inversion H. cbn. auto.
Qed.

Lemma read_stored_tally json s h h' :
  read_stored refused json h = Val s h' ->
  nodes h' = nodes h /\ strings h' = strings h + owned (stored_url s) + owned (expires_at s).
Proof.
  unfold read_stored. intros H.
  step H as i1 h1 E1. apply string_item_pure in E1. subst h1.
  step H as s1 h1 E1.
  assert (A1 : nodes h1 = nodes h /\ strings h1 = strings h + owned (stored_url s1)
               /\ expires_at s1 = None).
  { destruct i1 as [c|].
    - step E1 as copy h2 E2. apply strdup_inv in E2. done_ret E1. cbn. intuition lia.
    - done_ret E1. cbn. intuition lia. }
  clear E1. destruct A1 as (N1 & S1 & X1).
  step H as i2 h2 E2. apply string_item_pure in E2. subst h2.
  step H as s2 h2 E2.
  assert (A2 : nodes h2 = nodes h /\ strings h2 = strings h + owned (stored_url s2)
               + owned (expires_at s2)).
  { destruct i2 as [c|].
    - step E2 as copy h3 E3. apply strdup_inv in E3. done_ret E2. cbn. intuition lia.
    - done_ret E2. rewrite X1. cbn. intuition lia. }
  clear E2. destruct A2 as (N2 & S2).
  step H as i3 h3 E3. apply number_item_pure in E3. subst h3.
  step H as i4 h4 E4. apply number_item_pure in E4. subst h4.
  step H as i5 h5 E5. apply number_item_pure in E5. subst h5.
  destruct i5 as [c5|].
  - destruct (to_size (valuedouble c5)); [|discriminate]. done_ret H.
    destruct i3, i4; cbn [stored_url expires_at]; auto.
  - done_ret H. destruct i3, i4; cbn [stored_url expires_at]; auto.
Qed.

End Replies.

(** Steps over [free] of the response buffer. *)
Ltac step_free_buffer H :=
  let u := fresh "u" in
  let h := fresh "h" in
  let E := fresh "E" in
  apply bind_inv in H; destruct H as (u & h & E & H);
  apply ret_inv in E; destruct E as [_ ->].

(** Reduces the fields of a response. *)
Ltac fields :=
  unfold blocks_of;
  cbn [error http_status error_message response_data data_len stored set_error_field
       set_http_status set_error_message set_response_data set_stored zeroed_response] in *.

Section Outcomes.

Variable refused : nat -> bool.
Variable curl_easy_strerror : Z -> cstr.

Lemma http_error_inv resp buffer r h h' :
  error_message resp = None ->
  screenshot_http_error refused resp buffer h = Val r h' ->
  exists copy k,
    r = set_error_message (set_error_field resp PXSHOT_ERR_HTTP_ERROR) copy
    /\ (k = 0 \/ k = 1)
    /\ nodes h' = nodes h
    /\ strings h' = strings h + owned copy + k.
Proof.
  intros M H. unfold screenshot_http_error in H.
  assert (Id : resp = set_error_message resp None).
  { destruct resp; cbn in M; subst; reflexivity. }
  step H as j h1 Ep. apply parse_buffer_tally in Ep. destruct Ep as (Pj & Nj & Sj).
  step H as r1 h2 E1.
  assert (A : exists c1, r1 = set_error_message resp c1
                         /\ nodes h2 = nodes h /\ strings h2 = strings h + owned c1).
  { destruct j as [|t].
    - apply ret_inv in E1. destruct E1 as [-> ->].
      exists None. cbn in *. split; [exact Id|lia].
    - step E1 as msg h3 Em. apply string_item_pure in Em. subst h3.
      step E1 as r2 h3 E2. step E1 as u h4 Ed.
      apply ret_inv in E1. destruct E1 as [-> ->].
      apply (delete_tally _ _ _ _ Pj) in Ed.
      destruct msg as [m|].
      + step E2 as copy h5 Ec. apply strdup_inv in Ec.
        apply ret_inv in E2. destruct E2 as [-> ->].
        exists copy. intuition lia.
      + apply ret_inv in E2. destruct E2 as [-> ->].
        exists None. cbn in *. split; [exact Id|lia]. }
  clear E1. destruct A as (c1 & -> & N2 & S2).
  step_free_buffer H.
  cbn [error_message set_error_message] in H.
  assert (E : exists m, pxshot_set_error refused (set_error_message resp c1)
                          PXSHOT_ERR_HTTP_ERROR (Some m) h2 = Val r h').
  { destruct c1; eauto. }
  destruct E as (m & E). apply set_error_inv in E.
  destruct E as ((copy & -> & _ & S3) & N3).
  exists copy, (owned c1). split; [destruct resp; reflexivity|].
  split; [destruct c1; cbn; auto|]. lia.
Qed.

Lemma stored_inv resp buffer r h h' :
  error_message resp = None -> stored resp = None ->
  screenshot_stored refused resp buffer h = Val r h' ->
  response_data r = response_data resp /\ data_len r = data_len resp
  /\ http_status r = http_status resp
  /\ ((error r = PXSHOT_OK /\ stored r <> None /\ error_message r = None)
      \/ (error r = PXSHOT_ERR_JSON_PARSE /\ stored r = None)
      \/ (error r = PXSHOT_ERR_OUT_OF_MEMORY /\ stored r = None))
  /\ nodes h' = nodes h
  /\ strings h' = strings h + blocks_of r - 1.
Proof.
  intros M St H. unfold screenshot_stored in H.
  step H as j h1 Ep. apply parse_buffer_tally in Ep. destruct Ep as (Pj & Nj & Sj).
  step_free_buffer H.
  destruct j as [|t].
  - apply set_error_inv in H. destruct H as ((copy & -> & _ & S) & N).
    unfold blocks_of. destruct resp as [e hs m d l st]; cbn in M, St; subst m st.
    cbn [response_data data_len http_status error stored error_message set_error_message
         set_error_field nodes_of strings_of] in *.
    repeat split; try lia. right; left. split; reflexivity.
  - step H as ok h3 Em. apply sdk_malloc_inv in Em. destruct ok; cbn [negb] in H.
    + step H as s h4 Er. apply read_stored_tally in Er.
      step H as u5 h5 Ed. apply (delete_tally _ _ _ _ Pj) in Ed. done_ret H.
      unfold blocks_of. destruct resp as [e hs m d l st]; cbn in M, St; subst m st.
      cbn [response_data data_len http_status error stored error_message set_stored
           set_error_field owned] in *.
      repeat split; try lia. left. repeat split. discriminate.
    + step H as u4 h4 Ed. apply (delete_tally _ _ _ _ Pj) in Ed.
      apply set_error_inv in H. destruct H as ((copy & -> & _ & S) & N).
      unfold blocks_of. destruct resp as [e hs m d l st]; cbn in M, St; subst m st.
      cbn [response_data data_len http_status error stored error_message set_error_message
           set_error_field] in *.
      repeat split; try lia. right; right. split; reflexivity.
Qed.

Lemma screenshot_response_inv opts t r h h' :
  screenshot_response refused curl_easy_strerror opts zeroed_response t h = Val r h' ->
  outcome curl_easy_strerror opts t r
  /\ nodes h' = nodes h
  /\ exists k, lost t k /\ strings h' = strings h + blocks_of r - 1 + k.
Proof.
  unfold screenshot_response, outcome, json_reply. intros H.
  destruct (res t =? CURLE_OK) eqn:R; cbn [negb] in *.
  - apply Z.eqb_eq in R. cbv zeta in H.
    destruct (400 <=? response_code t) eqn:C.
    + apply http_error_inv in H; [|reflexivity].
      destruct H as (copy & k & -> & K & N & S). fields. repeat split; try assumption.
      exists k. split.
      * destruct K as [->| ->]; [left; reflexivity|right]. repeat split; try assumption. lia.
      * lia.
    + match type of H with
      | (if ?b then _ else _) _ = _ => destruct b eqn:B
      end.
      * apply stored_inv in H; try reflexivity.
        destruct H as (D & L & Hs & O & N & S). cbn in D, L, Hs.
        repeat split; try assumption.
        exists 0. split; [left; reflexivity|lia].
      * done_ret H. fields. repeat split; try reflexivity.
        exists 0. split; [left; reflexivity|]. cbn [owned]. lia.
  - step_free_buffer H.
    assert (E : exists e, e = (if res t =? CURLE_OPERATION_TIMEDOUT
                               then PXSHOT_ERR_TIMEOUT else PXSHOT_ERR_CURL_PERFORM)
                          /\ pxshot_set_error refused zeroed_response e
                               (Some (curl_easy_strerror (res t))) h = Val r h').
    { destruct (res t =? CURLE_OPERATION_TIMEDOUT); eauto. }
    destruct E as (e & Ee & E). rewrite <- Ee.
    apply set_error_inv in E. destruct E as ((copy & -> & Cp & S) & N).
    split; [|split; [exact N|]].
    + unfold answer. fields. repeat split; try reflexivity. exact Cp.
    + exists 0. split; [left; reflexivity|]. fields. lia.
Qed.

End Outcomes.

(** ** A call of [pxshot_screenshot], taken apart *)

Lemma nonnull_string_inv s x h h' : nonnull_string s h = Val x h' -> s = Some x /\ h' = h.
Proof. destruct s; cbn; intros H; inversion H; auto. Qed.

Lemma snprintf_inv size text x h h' :
  snprintf size text h = Val x h' ->
  x = firstn (Z.to_nat (size - 1)) text /\ h' = h.
Proof. unfold snprintf. destruct (size <=? 0); intros H; inversion H; auto. Qed.

Lemma create_object_inv refused p h h' :
  cJSON_CreateObject refused h = Val p h' ->
  (p = NULL /\ nodes h' = nodes h /\ strings h' = strings h)
  \/ (p = Ptr (set_type zeroed cJSON_Object)
      /\ nodes h' = nodes h + 1 /\ strings h' = strings h).
Proof.
  unfold cJSON_CreateObject. intros H. step H as it h1 E. apply new_item_inv in E.
  destruct E as [(-> & N & S)|(-> & N & S)]; done_ret H; auto.
Qed.

Section Calls.

Variable refused : nat -> bool.
Variable slist : Type.
Variable curl_slist_append : option slist -> cstr -> option slist.
Variable curl_easy_perform :
  (list ascii -> Z -> Z -> pxshot_buffer_t -> M (Z * pxshot_buffer_t)) ->
  request slist -> pxshot_buffer_t -> M transfer.
Variable curl_easy_strerror : Z -> cstr.

Lemma local_answer_inv err msg r h h' :
  (resp <- pxshot_set_error refused zeroed_response err (Some msg) ;; ret (Some resp)) h
  = Val r h' ->
  exists resp, r = Some resp /\ answer err msg resp
               /\ nodes h' = nodes h /\ strings h' = strings h + blocks_of resp - 1.
Proof.
  intros H. step H as resp h1 E. done_ret H. apply set_error_inv in E.
  destruct E as ((copy & -> & C & S) & N).
  eexists. split; [reflexivity|]. unfold answer. fields.
  repeat split; try reflexivity; try assumption. lia.
Qed.

Lemma screenshot_inv client opts r h h' :
  pxshot_screenshot refused slist curl_slist_append curl_easy_perform curl_easy_strerror
    client opts h = Val r h' ->
  (r = None /\ nodes h' = nodes h /\ strings h' = strings h)
  \/ (exists resp e msg,
        r = Some resp /\ answer e msg resp
        /\ ((e = PXSHOT_ERR_INVALID_ARG /\ msg = lit "client and opts->url are required"
             /\ valid_request client opts = None)
            \/ (e = PXSHOT_ERR_OUT_OF_MEMORY /\ valid_request client opts <> None))
        /\ nodes h' = nodes h /\ strings h' = strings h + blocks_of resp)
  \/ (exists c o req t h1 h2 h3 resp,
        valid_request client opts = Some (c, o) /\ r = Some resp
        /\ curl_easy_perform (pxshot_write_callback refused) req empty_buffer h1 = Val t h2
        /\ nodes h1 = nodes h /\ strings h1 = strings h + 4
        /\ nodes h3 = nodes h2 /\ strings h3 = strings h2 - 3
        /\ screenshot_response refused curl_easy_strerror o zeroed_response t h3
           = Val resp h').
Proof.
  unfold pxshot_screenshot. intros H.
  step H as r0 h1 E0. apply response_new_inv in E0.
  destruct E0 as (N0 & [(-> & S0)|(-> & S0)]).
  { done_ret H. left. auto. }
  destruct (valid_request client opts) as [[c o]|] eqn:V.
  2:{ apply local_answer_inv in H. destruct H as (resp & -> & A & N & S).
      right; left. exists resp, PXSHOT_ERR_INVALID_ARG, (lit "client and opts->url are required").
      split; [reflexivity|]. split; [exact A|]. split; [left; auto|]. split; lia. }
  assert (U : exists u, url o = Some u).
  { unfold valid_request in V. destruct client, opts as [o'|]; try discriminate.
    destruct (url o') as [u|] eqn:U; [|discriminate]. cbn in V. inversion V; subst. eauto. }
  destruct U as (u & U).
  match goal with
  | |- ?G =>
      assert (Oom : forall msg h2,
                 nodes h2 = nodes h1 -> strings h2 = strings h1 ->
                 (resp <- pxshot_set_error refused zeroed_response PXSHOT_ERR_OUT_OF_MEMORY
                            (Some msg) ;; ret (Some resp)) h2 = Val r h' -> G)
  end.
  { intros msg h2 N2 S2 E. apply local_answer_inv in E.
    destruct E as (resp & -> & A & N & S).
    right; left. exists resp, PXSHOT_ERR_OUT_OF_MEMORY, msg.
    split; [reflexivity|]. split; [exact A|].
    split; [right; split; [reflexivity|discriminate]|]. split; lia. }
  step H as body h2 Eb. apply create_object_inv in Eb.
  destruct Eb as [(-> & Nb & Sb)|(-> & Nb & Sb)].
  { eapply (Oom _ h2); [lia|lia|exact H]. }
  step H as body h3 Em.
  apply (screenshot_members_grows refused o u _ _ _ _ U) in Em.
  destruct Em as (o' & -> & Eo & Po & No & So).
  cbn [child set_type zeroed plain nodes_of strings_of] in Po, No, So.
  step H as json_str h4 Ep.
  unfold cJSON_PrintUnformatted, print_value in Ep.
  apply (proj1 (proj1 (printer_tally refused) o')) in Ep. destruct Ep as (Np & Sp).
  step H as ud h5 Ed.
  assert (Plain : plain (Ptr o')).
  { rewrite Eo. cbn. repeat split; auto. }
  apply (delete_tally _ _ _ _ Plain) in Ed.
  rewrite nodes_of_Ptr, strings_of_Ptr in Ed.
  assert (Fo : next o' = NULL /\ valuestring o' = None /\ string o' = None).
  { rewrite Eo. cbn. auto. }
  destruct Fo as (Fn & Fv & Fs). rewrite Fn, Fv, Fs in Ed.
  cbn [nodes_of strings_of owned] in Ed. destruct Ed as (Nd & Sd).
  destruct json_str as [json_str|].
  2:{ cbn [owned] in Sp. eapply (Oom _ h5); [lia|lia|exact H]. }
  cbn [owned] in Sp.
  step H as base h6 E6. apply nonnull_string_inv in E6. destruct E6 as (Eb & ->).
  cbv zeta in H.
  step H as ok h6 E6. apply sdk_malloc_inv in E6. destruct E6 as (N6 & S6).
  destruct ok; cbn [negb] in H.
  2:{ step H as uf h7 Ef. apply sdk_free_inv in Ef. destruct Ef as (Nf & Sf).
      eapply (Oom _ h7); [lia|lia|exact H]. }
  step H as url h7 E7. apply snprintf_inv in E7. destruct E7 as (Eu & ->).
  step H as key h7 E7. apply nonnull_string_inv in E7. destruct E7 as (Ek & ->).
  step H as ok h7 E7. apply sdk_malloc_inv in E7. destruct E7 as (N7 & S7).
  destruct ok; cbn [negb] in H.
  2:{ step H as uf h8 Ef. apply sdk_free_inv in Ef. destruct Ef as (Nf & Sf).
      step H as uf2 h9 Ef2. apply sdk_free_inv in Ef2. destruct Ef2 as (Nf2 & Sf2).
      eapply (Oom _ h9); [lia|lia|exact H]. }
  step H as auth h8 E8. apply snprintf_inv in E8. destruct E8 as (Ea & ->).
  step H as t h8 Et.
  step H as uf1 h9 Ef1. apply sdk_free_inv in Ef1. destruct Ef1 as (Nf1 & Sf1).
  step H as uf2 h10 Ef2. apply sdk_free_inv in Ef2. destruct Ef2 as (Nf2 & Sf2).
  step H as uf3 h11 Ef3. apply sdk_free_inv in Ef3. destruct Ef3 as (Nf3 & Sf3).
  step H as resp h12 Er. done_ret H.
  right; right. eexists c, o, _, t, h7, h8, _, resp.
  split; [reflexivity|]. split; [reflexivity|]. split; [exact Et|].
  split; [lia|]. split; [lia|]. split; [|split; [|exact Er]]; lia.
Qed.

End Calls.

(** ** The outcomes of [pxshot_screenshot] *)

(** Settles what a response with a known error code and fields has to
    satisfy. *)
Ltac settle :=
  repeat split; intros;
  first [ discriminate
        | match goal with H : _ = _ |- _ => discriminate H end
        | match goal with H : ?x <> ?x |- _ => exfalso; apply H; reflexivity end
        | auto ].

Lemma realloc_keeps refused old size r h h' :
  realloc refused old size h = Val r h' -> nodes h' = nodes h /\ strings h' = strings h.
Proof.
  unfold realloc. destruct (refused (requests h)); intros H; inversion H; cbn; auto.
Qed.

Lemma double_until_inv fuel c need c' h h' :
  double_until fuel c need h = Val c' h' -> h' = h.
Proof.
  intros H. destruct (double_until_pure fuel c need h) as [O|(x & O)]; rewrite O in H.
  - discriminate.
  - inversion H. reflexivity.
Qed.

Lemma memcpy_pure block off src n r h h' : memcpy block off src n h = Val r h' -> h' = h.
Proof.
  unfold memcpy. destruct block as [b|].
  - destruct ((strlen src <? n) || (Z.of_nat (length b) <? off + n)); intros H;
      inversion H; reflexivity.
  - destruct (n =? 0); intros H; inversion H; reflexivity.
Qed.

Lemma store_byte_pure block off c r h h' : store_byte block off c h = Val r h' -> h' = h.
Proof.
  unfold store_byte. destruct block as [b|]; [|discriminate].
  destruct (Z.of_nat (length b) <=? off); intros H; inversion H; reflexivity.
Qed.

Lemma write_callback_keeps refused contents size nmemb buf r h h' :
  pxshot_write_callback refused contents size nmemb buf h = Val r h' ->
  nodes h' = nodes h /\ strings h' = strings h.
Proof.
  unfold pxshot_write_callback. cbv zeta. intros H.
  step H as grown h1 E.
  assert (K : nodes h1 = nodes h /\ strings h1 = strings h).
  { match type of E with (if ?b then _ else _) _ = _ => destruct b end.
    - step E as newcap h2 Ed. apply double_until_inv in Ed. subst h2.
      step E as newdata h3 Er. apply realloc_keeps in Er.
      destruct newdata; done_ret E; exact Er.
    - done_ret E. auto. }
  clear E. destruct grown as [b|].
  - step H as d h2 Em. apply memcpy_pure in Em. subst h2.
    step H as d2 h3 Es. apply store_byte_pure in Es. subst h3.
    done_ret H. exact K.
  - done_ret H. exact K.
Qed.

Lemma hand_over_keeps refused : forall chunks buf r h h',
  hand_over (pxshot_write_callback refused) chunks buf h = Val r h' ->
  nodes h' = nodes h /\ strings h' = strings h.
Proof.
  induction chunks as [|chunk rest IH]; intros buf r h h' H; cbn [hand_over] in H.
  - done_ret H. auto.
  - step H as tb h1 E. destruct tb as [taken b]. apply write_callback_keeps in E.
    destruct (taken =? strlen chunk).
    + apply IH in H. intuition lia.
    + done_ret H. exact E.
Qed.

Lemma transport_keeps_blocks {slist : Type} refused code chunks status ctype :
  keeps_blocks refused (@transport slist code chunks status ctype).
Proof.
  intros req buf h t h' H. unfold transport in H.
  step H as ab h1 E. destruct ab as [all b]. apply hand_over_keeps in E.
  done_ret H. exact E.
Qed.

Lemma valid_request_some client opts c o :
  valid_request client opts = Some (c, o) ->
  client = Some c /\ opts = Some o /\ url o <> None.
Proof.
  unfold valid_request. destruct client as [c'|], opts as [o'|]; try discriminate.
  destruct (url o') eqn:U; cbn; [|discriminate].
  intros H. inversion H; subst. rewrite U. repeat split. discriminate.
Qed.

Lemma valid_request_none client opts :
  valid_request client opts = None <->
  client = None \/ opts = None \/ exists o, opts = Some o /\ url o = None.
Proof.
  unfold valid_request. split.
  - destruct client as [c|]; [|auto]. destruct opts as [o|]; [|auto].
    destruct (url o) eqn:U; cbn; [discriminate|]. intros _. right; right; eauto.
  - intros [->|[->|(o & -> & U)]]; [reflexivity|destruct client; reflexivity|].
    rewrite U. destruct client; reflexivity.
Qed.

Section Results.

Variable refused : nat -> bool.
Variable slist : Type.
Variable curl_slist_append : option slist -> cstr -> option slist.
Variable curl_easy_perform :
  (list ascii -> Z -> Z -> pxshot_buffer_t -> M (Z * pxshot_buffer_t)) ->
  request slist -> pxshot_buffer_t -> M transfer.
Variable curl_easy_strerror : Z -> cstr.

(** X10: a call of [pxshot_screenshot] without a client, without options or
    without a URL is answered without the transport: whatever the transport
    would do, the call returns the same, null when there is no memory for a
    response and otherwise a response with [PXSHOT_ERR_INVALID_ARG], no
    status, no data, no stored reply and the message (or none when there
    is no memory for it), whose blocks [pxshot_response_free] gives back. *)
Theorem invalid_request_never_sent (client : option pxshot_client)
    (opts : option pxshot_screenshot_opts_t) (h : heap) :
  client = None \/ opts = None \/ (exists o, opts = Some o /\ url o = None) ->
  exists r h',
    (forall perform,
        pxshot_screenshot refused slist curl_slist_append perform curl_easy_strerror
          client opts h = Val r h')
    /\ match r with
       | None => nodes h' = nodes h /\ strings h' = strings h
       | Some resp =>
           answer PXSHOT_ERR_INVALID_ARG (lit "client and opts->url are required") resp
           /\ exists h'', pxshot_response_free (Some resp) h' = Val tt h''
                          /\ nodes h'' = nodes h /\ strings h'' = strings h
       end.
Proof.
  intros V. apply valid_request_none in V.
  destruct (local_answer refused PXSHOT_ERR_INVALID_ARG
              (lit "client and opts->url are required") h) as (r & h' & E & N & R).
  exists r, h'. split.
  - intros perform. unfold pxshot_screenshot. rewrite V. exact E.
  - destruct r as [resp|]; [|auto]. destruct R as (A & S). split; [exact A|].
    destruct (response_free_runs (Some resp) h') as (h'' & F).
    exists h''. split; [exact F|]. apply response_free_inv in F. lia.
Qed.

(** X11: a response of [pxshot_screenshot] is one of three: the answer to
    an invalid request; an out-of-memory answer made before the transport
    was called; or what the reply handling makes of the transfer the
    transport returned.  So the error is never [PXSHOT_ERR_CURL_INIT],
    [PXSHOT_ERR_API_ERROR] or [PXSHOT_ERR_UNKNOWN]; a response with an
    error has no data and no stored reply; and a response without one does
    not have both. *)
Theorem screenshot_outcomes (client : option pxshot_client)
    (opts : option pxshot_screenshot_opts_t) (resp : pxshot_response_t) (h h' : heap) :
  pxshot_screenshot refused slist curl_slist_append curl_easy_perform curl_easy_strerror
    client opts h = Val (Some resp) h' ->
  ((client = None \/ opts = None \/ (exists o, opts = Some o /\ url o = None))
   /\ answer PXSHOT_ERR_INVALID_ARG (lit "client and opts->url are required") resp
   \/ (exists msg, answer PXSHOT_ERR_OUT_OF_MEMORY msg resp)
   \/ (exists c o req t h1 h2,
         client = Some c /\ opts = Some o /\ url o <> None
         /\ curl_easy_perform (pxshot_write_callback refused) req empty_buffer h1 = Val t h2
         /\ outcome curl_easy_strerror o t resp))
  /\ error resp <> PXSHOT_ERR_CURL_INIT
  /\ error resp <> PXSHOT_ERR_API_ERROR
  /\ error resp <> PXSHOT_ERR_UNKNOWN
  /\ (error resp <> PXSHOT_OK ->
      response_data resp = None /\ data_len resp = 0 /\ stored resp = None)
  /\ (error resp = PXSHOT_OK -> response_data resp = None \/ stored resp = None).
Proof.
  intros H. apply screenshot_inv in H.
  destruct H as [(H & _)|[(r & e & msg & Er & A & Ee & _)|
                          (c & o & req & t & h1 & h2 & h3 & r & V & Er & Et & _ & _ & _ & _ & Eo)]];
    [discriminate| |].
  - inversion Er; subst r.
    assert (B : (e = PXSHOT_ERR_INVALID_ARG \/ e = PXSHOT_ERR_OUT_OF_MEMORY)
                /\ error resp = e /\ response_data resp = None /\ data_len resp = 0
                /\ stored resp = None).
    { destruct A as (A1 & _ & A3 & A4 & A5 & _). split; [|auto].
      destruct Ee as [(-> & _)|(-> & _)]; auto. }
    split.
    + destruct Ee as [(-> & -> & V)|(-> & V)].
      * left. split; [apply valid_request_none; exact V|]. exact A.

      * right; left. exists msg. exact A.
    + destruct B as (B0 & B1 & B2 & B3 & B4). rewrite B1.
      destruct B0 as [-> | ->]; settle.
  - inversion Er; subst r. apply screenshot_response_inv in Eo. destruct Eo as (O & _).
    apply valid_request_some in V. destruct V as (-> & -> & U).
    split; [right; right; exists c, o, req, t, h1, h2; auto|].
    unfold outcome in O.
    destruct (negb (res t =? CURLE_OK)).
    + destruct O as (A1 & _ & A3 & A4 & A5 & _). rewrite A1.
      destruct (res t =? CURLE_OPERATION_TIMEDOUT); settle.
    + destruct O as (_ & O). destruct (400 <=? response_code t).
      * destruct O as (A1 & A3 & A4 & A5). rewrite A1. settle.
      * destruct (store o || json_reply t).
        -- destruct O as (A3 & A4 & [(A1 & A5 & _)|[(A1 & A5)|(A1 & A5)]]); rewrite A1; settle.
        -- subst resp. cbn [error response_data data_len stored]. settle.
Qed.

End Results.

Section Blocks.

Variable refused : nat -> bool.
Variable slist : Type.
Variable curl_slist_append : option slist -> cstr -> option slist.
Variable curl_easy_perform :
  (list ascii -> Z -> Z -> pxshot_buffer_t -> M (Z * pxshot_buffer_t)) ->
  request slist -> pxshot_buffer_t -> M transfer.
Variable curl_easy_strerror : Z -> cstr.

(** X12: with a transport that leaves the blocks of the program alone, a
    call of [pxshot_screenshot] that returns, followed by
    [pxshot_response_free] on its result, leaves allocated what was
    allocated before, whatever allocations fail on the way, with one
    exception: a response with [PXSHOT_ERR_HTTP_ERROR] may leave one block
    behind.  (The response buffer, which [realloc] hands out, is not
    counted.) *)
Theorem screenshot_blocks (client : option pxshot_client)
    (opts : option pxshot_screenshot_opts_t) (r : option pxshot_response_t) (h h' : heap) :
  keeps_blocks refused curl_easy_perform ->
  pxshot_screenshot refused slist curl_slist_append curl_easy_perform curl_easy_strerror
    client opts h = Val r h' ->
  exists h'' k,
    pxshot_response_free r h' = Val tt h''
    /\ nodes h'' = nodes h
    /\ strings h'' = strings h + k
    /\ (k = 0
        \/ (k = 1 /\ exists resp, r = Some resp /\ error resp = PXSHOT_ERR_HTTP_ERROR)).
Proof.
  intros K H. destruct (response_free_runs r h') as (h'' & F). exists h''.
  apply screenshot_inv in H.
  destruct H as [(-> & N & S)|[(resp & e & msg & -> & A & _ & N & S)|
                               (c & o & req & t & h1 & h2 & h3 & resp & _ & -> & Et & N1 & S1
                                & N3 & S3 & Eo)]].
  - exists 0. cbn in F. inversion F; subst. split; [reflexivity|]. lia.
  - exists 0. split; [exact F|]. apply response_free_inv in F. lia.
  - apply K in Et. apply screenshot_response_inv in Eo.
    destruct Eo as (O & N & k & L & S). exists k. split; [exact F|].
    apply response_free_inv in F. split; [lia|]. split; [lia|].
    destruct L as [->|(-> & R & C)]; [left; reflexivity|right].
    split; [reflexivity|]. exists resp. split; [reflexivity|].
    unfold outcome in O. rewrite R in O. change (negb (CURLE_OK =? CURLE_OK)) with false in O.
    destruct O as (_ & O). apply Z.leb_le in C. rewrite C in O. apply O.
Qed.

End Blocks.

(** ** [pxshot_get_usage] *)

Section Usage.

Variable refused : nat -> bool.
Variable slist : Type.
Variable curl_slist_append : option slist -> cstr -> option slist.
Variable curl_easy_perform :
  (list ascii -> Z -> Z -> pxshot_buffer_t -> M (Z * pxshot_buffer_t)) ->
  request slist -> pxshot_buffer_t -> M transfer.
Variable curl_easy_strerror : Z -> cstr.

Lemma read_usage_tally json u h h' :
  read_usage refused json h = Val u h' ->
  nodes h' = nodes h /\ strings h' = strings h + owned (period_start u) + owned (period_end u).
Proof.
  unfold read_usage. intros H.
  step H as i1 h1 E1. apply number_item_pure in E1. subst h1.
  step H as i2 h2 E2. apply number_item_pure in E2. subst h2.
  step H as i3 h3 E3. apply number_item_pure in E3. subst h3.
  step H as i4 h4 E4. apply number_item_pure in E4. subst h4.
  cbv zeta in H.
  step H as i5 h5 E5. apply string_item_pure in E5. subst h5.
  step H as u1 h5 E5.
  assert (A1 : nodes h5 = nodes h /\ strings h5 = strings h + owned (period_start u1)
               /\ period_end u1 = None).
  { destruct i5 as [c|].
    - step E5 as copy h6 E6. apply strdup_inv in E6. destruct E6 as (_ & N6 & S6).
      apply ret_inv in E5. destruct E5 as [-> ->].
      destruct i1, i2, i3, i4; cbn [period_start period_end zeroed_usage]; auto.
    - apply ret_inv in E5. destruct E5 as [-> ->].
      destruct i1, i2, i3, i4; cbn [period_start period_end zeroed_usage owned];
        repeat split; lia. }
  clear E5. destruct A1 as (N1 & S1 & X1).
  step H as i6 h6 E6. apply string_item_pure in E6. subst h6.
  destruct i6 as [c|].
  - step H as copy h6 E6. apply strdup_inv in E6. destruct E6 as (_ & N6 & S6).
    apply ret_inv in H. destruct H as [-> ->]. cbn [period_start period_end]. split; lia.
  - apply ret_inv in H. destruct H as [-> ->]. rewrite X1. cbn [owned]. split; lia.
Qed.

Lemma error_only_inv e msg (u : option pxshot_usage_t) x h h' :
  (resp <- pxshot_set_error refused zeroed_response e (Some msg) ;; ret (resp, u)) h
  = Val x h' ->
  exists resp, x = (resp, u) /\ answer e msg resp
               /\ nodes h' = nodes h /\ strings h' = strings h + blocks_of resp - 1.
Proof.
  intros H. step H as resp h1 E. done_ret H. apply set_error_inv in E.
  destruct E as ((copy & -> & C & S) & N).
  eexists. split; [reflexivity|]. unfold answer. fields.
  repeat split; try reflexivity; try assumption. lia.
Qed.

Lemma usage_response_inv t r u h h' :
  usage_response refused curl_easy_strerror zeroed_response t h = Val (r, u) h' ->
  usage_outcome curl_easy_strerror t r u
  /\ nodes h' = nodes h
  /\ strings h' = strings h + blocks_of r - 1 + usage_blocks u.
Proof.
  unfold usage_response, usage_outcome. intros H.
  destruct (res t =? CURLE_OK) eqn:R; cbn [negb] in *.
  - cbv zeta in H. destruct (400 <=? response_code t) eqn:C.
    + step_free_buffer H. step H as resp h1 E. done_ret H. apply set_error_inv in E.
      destruct E as ((copy & -> & Cp & S) & N). fields. cbn [usage_blocks].
      repeat split; try reflexivity; try assumption; lia.
    + step H as j h1 Ep. apply parse_buffer_tally in Ep. destruct Ep as (Pj & Nj & Sj).
      step_free_buffer H.
      destruct j as [|tr].
      * step H as resp h2 E. done_ret H. apply set_error_inv in E.
        destruct E as ((copy & -> & Cp & S) & N). fields. cbn [usage_blocks nodes_of strings_of] in *.
        repeat split; try reflexivity; try lia. right; left. split; reflexivity.
      * step H as ok h2 Em. apply sdk_malloc_inv in Em. destruct ok; cbn [negb] in H.
        -- step H as us h3 Er. apply read_usage_tally in Er.
           step H as ud h4 Ed. apply (delete_tally _ _ _ _ Pj) in Ed. done_ret H.
           fields. cbn [usage_blocks owned].
           repeat split; try reflexivity; try lia. left. repeat split. discriminate.
        -- step H as ud h3 Ed. apply (delete_tally _ _ _ _ Pj) in Ed.
           step H as resp h4 E. done_ret H. apply set_error_inv in E.
           destruct E as ((copy & -> & Cp & S) & N). fields. cbn [usage_blocks].
           repeat split; try reflexivity; try lia. right; right. split; reflexivity.
  - step_free_buffer H. step H as resp h1 E. done_ret H. apply set_error_inv in E.
    destruct E as ((copy & -> & Cp & S) & N). unfold answer. fields. cbn [usage_blocks].
    repeat split; try reflexivity; try assumption; lia.
Qed.

Lemma usage_inv client usage x h h' :
  pxshot_get_usage refused slist curl_slist_append curl_easy_perform curl_easy_strerror
    client usage h = Val x h' ->
  (x = None /\ nodes h' = nodes h /\ strings h' = strings h)
  \/ (exists resp e msg out,
        x = Some (resp, out) /\ answer e msg resp
        /\ ((e = PXSHOT_ERR_INVALID_ARG /\ msg = lit "client and usage are required"
             /\ (client = None \/ usage = None) /\ out = usage)
            \/ (e = PXSHOT_ERR_OUT_OF_MEMORY /\ client <> None /\ usage <> None
                /\ out = Some None))
        /\ nodes h' = nodes h /\ strings h' = strings h + blocks_of resp)
  \/ (exists c v req t h1 h2 h3 resp u,
        client = Some c /\ usage = Some v /\ x = Some (resp, Some u)
        /\ curl_easy_perform (pxshot_write_callback refused) req empty_buffer h1 = Val t h2
        /\ nodes h1 = nodes h /\ strings h1 = strings h + 3
        /\ nodes h3 = nodes h2 /\ strings h3 = strings h2 - 2
        /\ usage_response refused curl_easy_strerror zeroed_response t h3
           = Val (resp, u) h').
Proof.
  unfold pxshot_get_usage. intros H.
  step H as r0 h1 E0. apply response_new_inv in E0.
  destruct E0 as (N0 & [(-> & S0)|(-> & S0)]).
  { done_ret H. left. auto. }
  match goal with
  | |- ?G =>
      assert (Bad : client = None \/ usage = None ->
                    (resp <- pxshot_set_error refused zeroed_response PXSHOT_ERR_INVALID_ARG
                               (Some (lit "client and usage are required")) ;;
                     ret (Some (resp, usage))) h1 = Val x h' -> G)
  end.
  { intros B E. step E as resp h2 E1. done_ret E. apply set_error_inv in E1.
    destruct E1 as ((copy & -> & C & S) & N).
    right; left. eexists _, PXSHOT_ERR_INVALID_ARG, _, usage. split; [reflexivity|].
    split; [unfold answer; fields; repeat split; try reflexivity; exact C|].
    split; [left; auto|]. fields. split; lia. }
  destruct client as [c|]; [|apply Bad; [auto|destruct usage; exact H]].
  destruct usage as [v|]; [|apply Bad; [auto|exact H]].
  clear Bad.
  match goal with
  | |- ?G =>
      assert (Oom : forall msg h2,
                 nodes h2 = nodes h1 -> strings h2 = strings h1 ->
                 (resp <- pxshot_set_error refused zeroed_response PXSHOT_ERR_OUT_OF_MEMORY
                            (Some msg) ;;
                  ret (Some (resp, Some (@None pxshot_usage_t)))) h2
                 = Val x h' -> G)
  end.
  { intros msg h2 N2 S2 E. step E as resp h3 E1. done_ret E. apply set_error_inv in E1.
    destruct E1 as ((copy & -> & C & S) & N).
    right; left. eexists _, PXSHOT_ERR_OUT_OF_MEMORY, msg, _. split; [reflexivity|].
    split; [unfold answer; fields; repeat split; try reflexivity; exact C|].
    split; [right; repeat split; discriminate|]. fields. split; lia. }
  step H as base h2 E2. apply nonnull_string_inv in E2. destruct E2 as (Eb & ->).
  cbv zeta in H.
  step H as ok h2 E2. apply sdk_malloc_inv in E2. destruct E2 as (N2 & S2).
  destruct ok; cbn [negb] in H.
  2:{ eapply (Oom _ h2); [lia|lia|exact H]. }
  step H as url h3 E3. apply snprintf_inv in E3. destruct E3 as (Eu & ->).
  step H as key h3 E3. apply nonnull_string_inv in E3. destruct E3 as (Ek & ->).
  step H as ok h3 E3. apply sdk_malloc_inv in E3. destruct E3 as (N3 & S3).
  destruct ok; cbn [negb] in H.
  2:{ step H as uf h4 Ef. apply sdk_free_inv in Ef. destruct Ef as (Nf & Sf).
      eapply (Oom _ h4); [lia|lia|exact H]. }
  step H as auth h4 E4. apply snprintf_inv in E4. destruct E4 as (Ea & ->).
  step H as t h4 Et.
  step H as uf1 h5 Ef1. apply sdk_free_inv in Ef1. destruct Ef1 as (Nf1 & Sf1).
  step H as uf2 h6 Ef2. apply sdk_free_inv in Ef2. destruct Ef2 as (Nf2 & Sf2).
  step H as ru h7 Er. destruct ru as [resp u]. done_ret H.
  right; right. eexists c, v, _, t, h3, h4, _, resp, u.
  split; [reflexivity|]. split; [reflexivity|]. split; [reflexivity|]. split; [exact Et|].
  split; [lia|]. split; [lia|]. split; [|split; [|exact Er]]; lia.
Qed.

Lemma usage_outcome_struct strerror t r u :
  usage_outcome strerror t r u ->
  (u <> None <-> error r = PXSHOT_OK) /\ error r <> PXSHOT_ERR_TIMEOUT.
Proof.
  intros (_ & _ & _ & O).
  destruct (negb (res t =? CURLE_OK)).
  - destruct O as ((A1 & _) & ->). rewrite A1. settle.
  - destruct O as (_ & O). destruct (400 <=? response_code t).
    + destruct O as (A1 & -> & _). rewrite A1. settle.
    + destruct O as [(A1 & U & _)|[(A1 & ->)|(A1 & ->)]]; rewrite A1; settle.
Qed.

(** X13: when [pxshot_get_usage] is given a client and a variable for the
    result, the variable holds a usage struct on return exactly when the
    response says [PXSHOT_OK], and null otherwise; without a client the
    variable is left as it was.  The response never carries data or a
    stored reply, and its error is never [PXSHOT_ERR_TIMEOUT]: a transfer
    that timed out is a [PXSHOT_ERR_CURL_PERFORM], unlike in
    [pxshot_screenshot]. *)
Theorem usage_outcomes (client : option pxshot_client)
    (usage out : option (option pxshot_usage_t))
    (resp : pxshot_response_t) (h h' : heap) :
  pxshot_get_usage refused slist curl_slist_append curl_easy_perform curl_easy_strerror
    client usage h = Val (Some (resp, out)) h' ->
  response_data resp = None /\ data_len resp = 0 /\ stored resp = None
  /\ error resp <> PXSHOT_ERR_TIMEOUT
  /\ ((client = None \/ usage = None) /\ out = usage
      /\ answer PXSHOT_ERR_INVALID_ARG (lit "client and usage are required") resp
      \/ (exists c v u,
            client = Some c /\ usage = Some v /\ out = Some u
            /\ (u <> None <-> error resp = PXSHOT_OK)
            /\ ((exists msg, answer PXSHOT_ERR_OUT_OF_MEMORY msg resp)
                \/ (exists req t h1 h2,
                      curl_easy_perform (pxshot_write_callback refused) req empty_buffer h1
                      = Val t h2
                      /\ usage_outcome curl_easy_strerror t resp u)))).
Proof.
  intros H. apply usage_inv in H.
  destruct H as [(H & _)|[(r & e & msg & o & Er & A & Ee & _)|
                          (c & v & req & t & h1 & h2 & h3 & r & u & -> & -> & Er & Et & _ & _
                           & _ & _ & Eo)]];
    [discriminate| |].
  - inversion Er; subst r o.
    pose proof A as (A1 & _ & A3 & A4 & A5 & _).
    split; [exact A3|]. split; [exact A4|]. split; [exact A5|].
    destruct Ee as [(-> & -> & V & ->)|(-> & Vc & Vu & ->)].
    + split; [rewrite A1; discriminate|]. left. auto.
    + split; [rewrite A1; discriminate|]. right.
      destruct client as [c|]; [|exfalso; apply Vc; reflexivity].
      destruct usage as [v|]; [|exfalso; apply Vu; reflexivity].
      exists c, v, None. repeat split; try (rewrite A1; settle).
      left. exists msg. exact A.
  - inversion Er; subst r out. apply usage_response_inv in Eo. destruct Eo as (O & _).
    pose proof O as (A3 & A4 & A5 & _).
    destruct (usage_outcome_struct _ _ _ _ O) as (U & T).
    split; [exact A3|]. split; [exact A4|]. split; [exact A5|]. split; [exact T|].
    right. exists c, v, u. repeat split; try apply U.
    right. exists req, t, h1, h2. auto.
Qed.




End Usage.

(** ** Examples of calls *)

Lemma invalid_request_never_sent_witness :
  exists r h',
    (forall perform,
        pxshot_screenshot never (list cstr) lines_append perform strerror_text
          None (Some (default_opts sample_url)) h0 = Val r h')
    /\ match r with
       | None => nodes h' = nodes h0 /\ strings h' = strings h0
       | Some resp =>
           answer PXSHOT_ERR_INVALID_ARG (lit "client and opts->url are required") resp
           /\ exists h'', pxshot_response_free (Some resp) h' = Val tt h''
                          /\ nodes h'' = nodes h0 /\ strings h'' = strings h0
       end.
Proof.
  apply (invalid_request_never_sent never (list cstr) lines_append strerror_text
           None (Some (default_opts sample_url)) h0).
  left. reflexivity.
Defined.

Lemma screenshot_outcomes_witness :
  exists resp h',
    pxshot_screenshot never (list cstr) lines_append (transport CURLE_OPERATION_TIMEDOUT [] 0 None)
      strerror_text (Some (client_of sample_key)) (Some (default_opts sample_url)) h0
    = Val (Some resp) h'
    /\ error resp = PXSHOT_ERR_TIMEOUT
    /\ error_message resp = Some (lit "Timeout was reached")
    /\ response_data resp = None /\ data_len resp = 0 /\ stored resp = None.
Proof.
  eexists _, _.
  match goal with
  | |- ?run = Val (Some ?resp) ?h' /\ _ =>
      assert (E : run = Val (Some resp) h') by (vm_compute; reflexivity);
      split; [exact E|];
      pose proof (screenshot_outcomes never (list cstr) lines_append
                    (transport CURLE_OPERATION_TIMEDOUT [] 0 None) strerror_text
                    (Some (client_of sample_key)) (Some (default_opts sample_url)) _ h0 _ E)
        as (_ & _ & _ & _ & Err & _)
  end.
  split; [reflexivity|]. split; [reflexivity|]. apply Err. discriminate.
Defined.

Lemma screenshot_blocks_witness :
  exists resp h' h'',
    pxshot_screenshot never (list cstr) lines_append
      (transport CURLE_OK [json "{'error':'quota exceeded'}"] 429 (Some (lit "application/json")))
      strerror_text (Some (client_of sample_key)) (Some (default_opts sample_url)) h0
    = Val (Some resp) h'
    /\ pxshot_response_free (Some resp) h' = Val tt h''
    /\ error resp = PXSHOT_ERR_HTTP_ERROR
    /\ error_message resp = Some (lit "quota exceeded")
    /\ nodes h'' = nodes h0 /\ strings h'' = strings h0 + 1.
Proof.
  eexists _, _.
  match goal with
  | |- exists h'', ?run = Val ?r ?h' /\ _ =>
      assert (E : run = Val r h') by (vm_compute; reflexivity);
      destruct (screenshot_blocks never (list cstr) lines_append
                  (transport CURLE_OK [json "{'error':'quota exceeded'}"] 429
                     (Some (lit "application/json")))
                  strerror_text (Some (client_of sample_key))
                  (Some (default_opts sample_url)) r h0 h'
                  (transport_keeps_blocks never _ _ _ _) E)
        as (h'' & k & F & N & S & K)
  end.
  exists h''. split; [exact E|]. split; [exact F|].
  split; [reflexivity|]. split; [reflexivity|]. split; [exact N|].
  vm_compute in F. inversion F. reflexivity.
Defined.

Lemma usage_outcomes_witness :
  exists resp out h',
    pxshot_get_usage never (list cstr) lines_append (transport CURLE_OPERATION_TIMEDOUT [] 0 None)
      strerror_text (Some (client_of sample_key)) (Some None) h0
    = Val (Some (resp, out)) h'
    /\ out = Some None
    /\ error resp = PXSHOT_ERR_CURL_PERFORM
    /\ error resp <> PXSHOT_ERR_TIMEOUT.
Proof.
  eexists _, _, _.
  match goal with
  | |- ?run = Val (Some (?resp, ?out)) ?h' /\ _ =>
      assert (E : run = Val (Some (resp, out)) h') by (vm_compute; reflexivity);
      split; [exact E|];
      pose proof (usage_outcomes never (list cstr) lines_append
                    (transport CURLE_OPERATION_TIMEDOUT [] 0 None) strerror_text
                    (Some (client_of sample_key)) (Some None) _ _ h0 _ E)
        as (_ & _ & _ & T & _)
  end.
  split; [reflexivity|]. split; [reflexivity|]. exact T.
Defined.


(** ** The request that is sent *)



















Section Sending.

Variable slist : Type.
Variable curl_slist_append : option slist -> cstr -> option slist.
Variable curl_easy_strerror : Z -> cstr.


End Sending.


Section Sent.

Variable slist : Type.
Variable curl_slist_append : option slist -> cstr -> option slist.
Variable curl_easy_strerror : Z -> cstr.


(** X16: [block_ads] is not looked at: with the option set or not,
    [pxshot_screenshot] does the same. *)
Theorem block_ads_ignored (refused : nat -> bool)
    (curl_easy_perform :
       (list ascii -> Z -> Z -> pxshot_buffer_t -> M (Z * pxshot_buffer_t)) ->
       request slist -> pxshot_buffer_t -> M transfer)
    (client : option pxshot_client) (o : pxshot_screenshot_opts_t) (b : bool) (h : heap) :
  pxshot_screenshot refused slist curl_slist_append curl_easy_perform curl_easy_strerror
    client (Some (set_block_ads o b)) h
  = pxshot_screenshot refused slist curl_slist_append curl_easy_perform curl_easy_strerror
      client (Some o) h.
Proof.
  unfold pxshot_screenshot, valid_request.
  destruct (pxshot_response_new refused h) as [[resp|] h1| |] eqn:E;
    rewrite ?(bind_val _ _ _ _ _ E), ?(bind_fault _ _ _ E), ?(bind_out_of_fuel _ _ _ E);
    try reflexivity.
  destruct client as [c|]; [|reflexivity].
  change (url (set_block_ads o b)) with (url o).
  destruct (url o); reflexivity.
Qed.

End Sent.

(** ** The bytes of a reply *)



Section Binary.

Variable slist : Type.
Variable curl_slist_append : option slist -> cstr -> option slist.
Variable curl_easy_strerror : Z -> cstr.


End Binary.



(** ** Replies that are JSON *)


Lemma no_nul_cons c s : no_nul (c :: s) = negb (Ascii.eqb c NUL) && no_nul s.
Proof. reflexivity. Qed.

Lemma text_safe_no_nul s : text_safe s = true -> no_nul s = true.
Proof.
  unfold text_safe, no_nul. induction s as [|c s IH]; [reflexivity|].
  cbn [forallb]. intros H. apply andb_true_iff in H. destruct H as [Hc Hs].
  apply safe_char_inv in Hc. destruct Hc as (_ & _ & ->). cbn [negb andb]. auto.
Qed.


Lemma as_cstring_no_nul s : no_nul s = true -> as_cstring s = s.
Proof.
  induction s as [|c s IH]; [reflexivity|].
  rewrite no_nul_cons. intros H. apply andb_true_iff in H. destruct H as [Hc Hs].
  cbn [as_cstring]. apply negb_true_iff in Hc. rewrite Hc, (IH Hs). reflexivity.
Qed.

Lemma safe_string_no_nul s :
  safe_string s = true -> no_nul (match s with Some x => x | None => [] end) = true.
Proof. destruct s; [apply text_safe_no_nul|reflexivity]. Qed.











(** Runs the first step of the program in the goal, given what it returns. *)
Tactic Notation "run" uconstr(E) :=
  repeat rewrite bind_assoc; erewrite (bind_val _ _ _ _ _ E).




Section Replies2.

Variable slist : Type.
Variable curl_slist_append : option slist -> cstr -> option slist.
Variable curl_easy_strerror : Z -> cstr.



End Replies2.



(** ** Reading the members of a reply *)




Section Stored.

Variable slist : Type.
Variable curl_slist_append : option slist -> cstr -> option slist.
Variable curl_easy_strerror : Z -> cstr.


End Stored.


Section UsageReply.

Variable slist : Type.
Variable curl_slist_append : option slist -> cstr -> option slist.
Variable curl_easy_strerror : Z -> cstr.



End UsageReply.




(** ** Escapes in strings *)

Lemma find_end_plain buf fuel p c r h :
  safe_char c = true -> window buf p = c :: r ->
  find_end buf (S fuel) p h = find_end buf fuel (p + 1)%nat h.
Proof.
  intros Sc W. cbn [find_end]. rewrite (bind_val _ _ _ _ _ (window_load _ _ _ _ h W)).
  destruct (safe_char_inv c Sc) as (Q & B & N). rewrite Q, B, N. reflexivity.
Qed.

Lemma find_end_escape buf fuel p e r h :
  window buf p = backslash :: e :: r ->
  find_end buf (S fuel) p h = find_end buf fuel (p + 2)%nat h.
Proof.
  intros W. cbn [find_end]. rewrite (bind_val _ _ _ _ _ (window_load _ _ _ _ h W)).
  reflexivity.
Qed.

Lemma find_end_tokens buf rest : forall toks fuel p h,
  forallb token_ok toks = true ->
  window buf p = concat (map escaped toks) ++ quote :: rest ->
  (length (concat (map escaped toks)) < fuel)%nat ->
  find_end buf fuel p h = Val (p + length (concat (map escaped toks)))%nat h.
Proof.
  induction toks as [|[c|e|a b c d] toks IH]; intros fuel p h Ok W F;
    cbn [map concat escaped forallb] in *.
  - destruct fuel as [|fuel]; [lia|]. cbn [find_end app length] in *.
    rewrite (bind_val _ _ _ _ _ (window_load _ _ _ _ h W)).
    rewrite Ascii.eqb_refl. cbn [negb andb]. rewrite Nat.add_0_r. reflexivity.
  - apply andb_true_iff in Ok. destruct Ok as [Oc Ok].
    destruct fuel as [|fuel]; [cbn [app length] in F; lia|].
    cbn [app length] in *. cbn [token_ok] in Oc.
    rewrite (find_end_plain _ _ _ _ _ _ Oc W).
    rewrite (IH fuel (p + 1)%nat h Ok (window_next _ _ _ _ W) ltac:(lia)).
    f_equal. lia.
  - apply andb_true_iff in Ok. destruct Ok as [Oc Ok].
    destruct fuel as [|fuel]; [cbn [app length] in F; lia|].
    cbn [app length] in *.
    rewrite (find_end_escape _ _ _ _ _ _ W).
    rewrite (IH fuel (p + 2)%nat h Ok (window_app buf p [backslash; e] _ W) ltac:(lia)).
    f_equal. lia.
  - apply andb_true_iff in Ok. destruct Ok as [Oc Ok].
    cbn [token_ok] in Oc.
    apply andb_true_iff in Oc. destruct Oc as [Oc Od].
    apply andb_true_iff in Oc. destruct Oc as [Oc Oc3].
    apply andb_true_iff in Oc. destruct Oc as [Oa Ob].
    cbn [app length] in *.
    do 5 (destruct fuel as [|fuel]; [lia|]).
    rewrite (find_end_escape _ _ _ _ _ _ W).
    pose proof (window_app buf p [backslash; "u"%char] _ W) as W2. cbn [length] in W2.
    rewrite (find_end_plain _ _ _ _ _ _ Oa W2).
    pose proof (window_next _ _ _ _ W2) as W3.
    rewrite (find_end_plain _ _ _ _ _ _ Ob W3).
    pose proof (window_next _ _ _ _ W3) as W4.
    rewrite (find_end_plain _ _ _ _ _ _ Oc3 W4).
    pose proof (window_next _ _ _ _ W4) as W5.
    rewrite (find_end_plain _ _ _ _ _ _ Od W5).
    pose proof (window_next _ _ _ _ W5) as W6.
    rewrite (IH fuel _ h Ok W6 ltac:(lia)).
    f_equal. lia.
Qed.

Lemma escape_char_cases e :
  Ascii.eqb e "u" = false ->
  forall (A : Type) (k : ascii -> A) (skip : A),
    (if Ascii.eqb e "b" then k "008"%char
     else if Ascii.eqb e "f" then k "012"%char
     else if Ascii.eqb e "n" then k "010"%char
     else if Ascii.eqb e "r" then k "013"%char
     else if Ascii.eqb e "t" then k "009"%char
     else if Ascii.eqb e "u" then skip
     else k e) = k (escape_char e).
Proof.
  intros U A k skip. unfold escape_char. rewrite U.
  destruct (Ascii.eqb e "b"), (Ascii.eqb e "f"), (Ascii.eqb e "n"), (Ascii.eqb e "r"),
    (Ascii.eqb e "t"); reflexivity.
Qed.

Lemma unescape_tokens buf : forall toks fuel p rest out h,
  forallb token_ok toks = true ->
  window buf p = concat (map escaped toks) ++ rest ->
  (length toks < fuel)%nat ->
  unescape buf fuel p (p + length (concat (map escaped toks))) out h
  = Val (out ++ concat (map unescaped toks)) h.
Proof.
  induction toks as [|[c|e|a b c d] toks IH]; intros fuel p rest out h Ok W F;
    (destruct fuel as [|fuel]; [cbn [length] in F; lia|]);
    cbn [map concat escaped unescaped forallb length] in *; cbn [unescape].
  - rewrite Nat.add_0_r, Nat.ltb_irrefl, app_nil_r. reflexivity.
  - apply andb_true_iff in Ok. destruct Ok as [Oc Ok]. cbn [token_ok] in Oc.
    cbn [app length] in *.
    destruct (Nat.ltb_spec p (p + S (length (concat (map escaped toks))))) as [_|Bad]; [|lia].
    rewrite (bind_val _ _ _ _ _ (window_load _ _ _ _ h W)).
    destruct (safe_char_inv c Oc) as (_ & B & _). rewrite B. cbn [negb].
    replace (p + S (length (concat (map escaped toks))))%nat
      with (p + 1 + length (concat (map escaped toks)))%nat by lia.
    rewrite (IH fuel (p + 1)%nat rest (out ++ [c]) h Ok (window_next _ _ _ _ W) ltac:(lia)).
    rewrite <- app_assoc. reflexivity.
  - apply andb_true_iff in Ok. destruct Ok as [Oc Ok]. cbn [token_ok] in Oc.
    apply andb_true_iff in Oc. destruct Oc as [_ Ou]. apply negb_true_iff in Ou.
    cbn [app length] in *.
    destruct (Nat.ltb_spec p (p + S (S (length (concat (map escaped toks))))))
      as [_|Bad]; [|lia].
    rewrite (bind_val _ _ _ _ _ (window_load _ _ _ _ h W)).
    rewrite Ascii.eqb_refl. cbn [negb]. cbv zeta.
    rewrite (bind_val _ _ _ _ _ (window_load _ _ _ _ h (window_next _ _ _ _ W))).
    rewrite (escape_char_cases e Ou _
               (fun x => unescape buf fuel (p + 1 + 1)
                           (p + S (S (length (concat (map escaped toks))))) (out ++ [x]))).
    replace (p + S (S (length (concat (map escaped toks)))))%nat
      with (p + 1 + 1 + length (concat (map escaped toks)))%nat by lia.
    rewrite (IH fuel (p + 1 + 1)%nat rest _ h Ok).
    + rewrite <- app_assoc. reflexivity.
    + replace (p + 1 + 1)%nat with (p + 2)%nat by lia.
      exact (window_app buf p [backslash; e] _ W).
    + lia.
  - apply andb_true_iff in Ok. destruct Ok as [_ Ok].
    cbn [app length] in *.
    destruct (Nat.ltb_spec p (p + S (S (S (S (S (S (length (concat (map escaped toks))))))))))
      as [_|Bad]; [|lia].
    rewrite (bind_val _ _ _ _ _ (window_load _ _ _ _ h W)).
    rewrite Ascii.eqb_refl. cbn [negb]. cbv zeta.
    rewrite (bind_val _ _ _ _ _ (window_load _ _ _ _ h (window_next _ _ _ _ W))).
    change (Ascii.eqb "u" "b") with false. change (Ascii.eqb "u" "f") with false.
    change (Ascii.eqb "u" "n") with false. change (Ascii.eqb "u" "r") with false.
    change (Ascii.eqb "u" "t") with false. change (Ascii.eqb "u" "u") with true.
    cbv iota.
    replace (p + S (S (S (S (S (S (length (concat (map escaped toks)))))))))%nat
      with (p + 1 + 4 + 1 + length (concat (map escaped toks)))%nat by lia.
    rewrite (IH fuel (p + 1 + 4 + 1)%nat rest out h Ok).
    + reflexivity.
    + replace (p + 1 + 4 + 1)%nat with (p + 6)%nat by lia.
      exact (window_app buf p [backslash; "u"%char; a; b; c; d] _ W).
    + lia.
Qed.

Lemma unescaped_shorter : forall toks,
  (length (concat (map unescaped toks)) <= length (concat (map escaped toks)))%nat.
Proof.
  induction toks as [|[c|e|a b c d] toks IH]; cbn [map concat escaped unescaped app length];
    lia.
Qed.

Lemma tokens_longer : forall toks,
  (length toks <= length (concat (map escaped toks)))%nat.
Proof.
  induction toks as [|[c|e|a b c d] toks IH]; cbn [map concat escaped app length]; lia.
Qed.

Lemma unescaped_no_nul : forall toks,
  forallb token_ok toks = true -> no_nul (concat (map unescaped toks)) = true.
Proof.
  induction toks as [|[c|e|a b c d] toks IH]; intros Ok; cbn [map concat unescaped forallb] in *;
    [reflexivity| | |];
    apply andb_true_iff in Ok; destruct Ok as [Oc Ok]; cbn [app]; try (apply IH; exact Ok).
  - rewrite no_nul_cons, (IH Ok). cbn [token_ok] in Oc.
    destruct (safe_char_inv c Oc) as (_ & _ & ->). reflexivity.
  - rewrite no_nul_cons, (IH Ok). cbn [token_ok] in Oc.
    apply andb_true_iff in Oc. destruct Oc as [On _].
    rewrite andb_true_r. unfold escape_char.
    destruct (Ascii.eqb e "b"), (Ascii.eqb e "f"), (Ascii.eqb e "n"), (Ascii.eqb e "r"),
      (Ascii.eqb e "t"); try reflexivity. exact On.
Qed.

(** X21: [parse_string] undoes the escapes of a string this way: an
    escaped b, f, n, r or t gives the control byte, any other escaped byte
    gives that byte (so an escaped quote or backslash gives the quote or
    the backslash), and a backslash, a u and the four bytes after it give
    nothing at all; what follows the closing quote is not read. *)
Theorem escapes_undone (toks : list token) (junk : cstr) (h : heap) :
  forallb token_ok toks = true ->
  exists h',
    cJSON_Parse never (Some (quote :: concat (map escaped toks) ++ quote :: junk)) h
    = Val (Ptr (mkJSON NULL NULL cJSON_String (Some (concat (map unescaped toks))) 0 0%float
                  None)) h'.
Proof.
  intros Ok.
  set (body := concat (map escaped toks)).
  set (text := quote :: body ++ quote :: junk).
  assert (W : window text 0 = quote :: body ++ quote :: (junk ++ [NUL])).
  { unfold window, memory, text. cbn [skipn app]. rewrite <- !app_assoc. reflexivity. }
  pose proof (window_next _ _ _ _ W) as W1. cbn [Nat.add] in W1.
  pose proof (window_length text 1 body _ W1) as L. cbn [length] in L.
  pose proof (unescaped_shorter toks) as Ls. pose proof (tokens_longer toks) as Lt.
  fold body in Ls, Lt.
  unfold cJSON_Parse. cbv zeta.
  destruct (new_item_granted h) as (h2 & E2).
  rewrite (bind_val _ _ _ _ _ E2). cbv iota.
  rewrite (bind_val _ _ _ _ _ (skip_whitespace_stays _ _ _ _ h2 W (or_introl eq_refl))).
  destruct (malloc_granted StringBlock h2) as (h3 & E3).
  assert (E4 : parse_value never text (steps text) zeroed (Some 0%nat) h2
               = Val (set_type (set_valuestring zeroed (Some (concat (map unescaped toks))))
                        cJSON_String,
                      Some (1 + length body + 1)%nat) h3).
  { unfold steps. rewrite (parse_value_dispatch _ _ _ _ _ _ _ W eq_refl eq_refl eq_refl).
    rewrite Ascii.eqb_refl. unfold parse_string.
    rewrite (bind_val _ _ _ _ _ (window_load _ _ _ _ h2 W)).
    rewrite Ascii.eqb_refl. cbn [negb]. cbv zeta. cbn [Nat.add].
    rewrite (bind_val _ _ _ _ _ (find_end_tokens text _ toks (steps text) 1%nat h2 Ok W1
                                   ltac:(unfold steps; fold body; lia))).
    rewrite (bind_val _ _ _ _ _ E3). cbn [negb].
    rewrite (bind_val _ _ _ _ _ (unescape_tokens text toks (steps text) 1%nat _ [] h3 Ok W1
                                   ltac:(unfold steps; lia))).
    cbn [app]. fold body.
    destruct (Nat.ltb_spec (1 + length body - 1) (length (concat (map unescaped toks))))
      as [Bad|_]; [lia|].
    rewrite (as_cstring_no_nul _ (unescaped_no_nul toks Ok)). reflexivity. }
  rewrite (bind_val _ _ _ _ _ E4). eexists. reflexivity.
Qed.

Lemma escapes_undone_witness :
  exists h',
    cJSON_Parse never (Some (json "'a\'b\\c\n\u00e9d'")) h0
    = Val (Ptr (mkJSON NULL NULL cJSON_String
                  (Some ["a"; quote; "b"; backslash; "c"; "010"; "d"]%char) 0 0%float None)) h'.
Proof.
  apply (escapes_undone
           [Plain "a"; Escape quote; Plain "b"; Escape backslash; Plain "c"; Escape "n";
            Unicode "0" "0" "e" "9"; Plain "d"]%char [] h0).
  reflexivity.
Defined.

(** ** The elements of a parsed array carry no key *)

Section ProductionsUnkeyed.

Variable refused : nat -> bool.
Variable buf : cstr.
Variable pv : cJSON -> option nat -> M (cJSON * option nat).

Hypothesis pv_keeps : forall item v h item' r h',
  child item = NULL -> pv item v h = Val (item', r) h' ->
  string item' = string item /\ next item' = next item.

Lemma array_rest_unkeyed : forall fuel c value c' r h h',
  array_rest refused buf pv fuel c value h = Val (c', r) h' ->
  r <> None ->
  exists nx, c' = set_next c nx /\ (next c = NULL -> Forall unkeyed (siblings nx)).
Proof.
  induction fuel as [|fuel IH]; intros c value c' r h h' H R; cbn [array_rest] in H;
    [discriminate|].
  step_load H as ch E. split_if H.
  - step H as p h1 En. destruct p as [|new_item]; [done_ret H; congruence|].
    assert (En' := En). apply new_item_inv in En'.
    destruct En' as [(Bad & _)|(Ez & _)]; [discriminate|]. inversion Ez. subst new_item.
    step H as v h2 Ew. step H as iv h3 Ep. destruct iv as [item v'].
    destruct (pv_keeps zeroed _ _ _ _ _ eq_refl Ep) as (St & Nx).
    step H as value' h4 Ew2. destruct value' as [value'|]; [|done_ret H; congruence].
    step H as ir h5 Er. destruct ir as [item' r']. done_ret H.
    destruct (IH _ _ _ _ _ _ Er R) as (nx & -> & Kn).
    exists (Ptr (set_next item nx)). split; [reflexivity|]. intros _.
    rewrite siblings_set_next. constructor.
    + unfold unkeyed. destruct item. cbn in *. exact St.
    + apply Kn. exact Nx.
  - split_if H; done_ret H; [|congruence].
    exists (next c). split; [destruct c; reflexivity|]. intros ->. constructor.
Qed.

Lemma parse_array_unkeyed item value item' r h h' :
  child item = NULL ->
  parse_array refused buf pv item value h = Val (item', r) h' ->
  r <> None ->
  type item' = cJSON_Array /\ Forall unkeyed (siblings (child item')).
Proof.
  intros Ch H R. unfold parse_array in H.
  step_load H as c0 E0. split_if H; [done_ret H; congruence|].
  cbv zeta in H.
  step H as v h1 Ew. step H as value1 h2 En.
  step_load H as c1 E1. split_if H.
  { done_ret H. destruct item. cbn in *. subst. split; [reflexivity|constructor]. }
  step H as p h3 Ei. destruct p as [|child0]; [done_ret H; congruence|].
  assert (Ei' := Ei). apply new_item_inv in Ei'.
  destruct Ei' as [(Bad & _)|(Ez & _)]; [discriminate|]. inversion Ez. subst child0.
  step H as v2 h4 Ew2. step H as cv h5 Ep. destruct cv as [c2 v3].
  destruct (pv_keeps zeroed _ _ _ _ _ eq_refl Ep) as (St & Nx).
  step H as value2 h6 Ew3. destruct value2 as [value2|]; [|done_ret H; congruence].
  step H as cr h7 Er. destruct cr as [c3 r']. done_ret H.
  destruct (array_rest_unkeyed _ _ _ _ _ _ _ Er R) as (nx & -> & Kn).
  destruct item as [nx0 ch0 t0 v0 i0 d0 s0].
  cbn [child set_child set_type type]. split; [reflexivity|].
  rewrite siblings_set_next. constructor.
  - unfold unkeyed. destruct c2. cbn in *. exact St.
  - apply Kn. exact Nx.
Qed.

Lemma parse_object_kind item value item' r h h' :
  parse_object refused buf pv item value h = Val (item', r) h' ->
  r <> None -> type item' = cJSON_Object.
Proof.
  intros H R. unfold parse_object in H.
  step_load H as c0 E0. split_if H; [done_ret H; congruence|].
  cbv zeta in H.
  step H as v h1 Ew. step H as value1 h2 En.
  step_load H as c1 E1. split_if H; [done_ret H; destruct item; reflexivity|].
  step H as p h3 Ei. destruct p as [|child0]; [done_ret H; congruence|].
  step H as iv h4 Ep. destruct iv as [c2 v'].
  destruct v' as [value2|]; [|done_ret H; congruence].
  step H as cr h5 Er. destruct cr as [c3 r']. done_ret H.
  destruct item; reflexivity.
Qed.

End ProductionsUnkeyed.

Lemma parse_value_array refused buf : forall fuel item v item' r h h',
  child item = NULL ->
  parse_value refused buf fuel item v h = Val (item', r) h' ->
  r <> None -> Z.land (type item') 255 = cJSON_Array ->
  Forall unkeyed (siblings (child item')).
Proof.
  intros [|fuel] item v item' r h h' Ch H R T; cbn [parse_value] in H; [discriminate|].
  destruct v as [value|]; [|done_ret H; congruence].
  step H as b1 h1 Em. destruct b1; [done_ret H; destruct item; discriminate|].
  step H as b2 h2 Em2. destruct b2; [done_ret H; destruct item; discriminate|].
  step H as b3 h3 Em3. destruct b3; [done_ret H; destruct item; discriminate|].
  step_load H as c E.
  split_if H.
  { apply parse_string_keeps in H. destruct H as (_ & _ & _ & K).
    destruct (K R) as [T' _]. rewrite T' in T. discriminate. }
  split_if H.
  { destruct (parse_number_total buf item value h3 (deref_bound _ _ _ E))
      as (i' & q & E' & _ & T' & _).
    rewrite E' in H. inversion H. subst. rewrite T' in T. discriminate. }
  split_if H.
  { apply (parse_array_unkeyed refused buf (parse_value refused buf fuel)) in H; try assumption.
    - apply H.
    - intros it v0 g it' r0 g' C0 P0.
      destruct (parse_value_keyed refused buf fuel it v0 it' r0 g g' C0 P0) as (S0 & N0 & _).
      auto. }
  split_if H.
  { apply (parse_object_kind refused buf) in H; [|exact R].
    rewrite H in T. discriminate. }
  done_ret H. congruence.
Qed.

Lemma parsed_array_lookup refused value name a h h1 g :
  cJSON_Parse refused value h = Val (Ptr a) h1 ->
  Z.land (type a) 255 = cJSON_Array -> child a <> NULL ->
  cJSON_GetObjectItem (Ptr a) name g = Fault.
Proof.
  intros H T C. unfold cJSON_Parse in H.
  step H as p h2 En. apply new_item_inv in En.
  destruct En as [(-> & _)|(-> & _)]; [done_ret H|].
  step H as v h3 Ew. step H as cr h4 Ep. destruct cr as [c r].
  destruct r as [q|]; [|step H as u h5 Ed; done_ret H].
  apply ret_inv in H. destruct H as [Ha _]. inversion Ha. subst a.
  apply parse_value_array in Ep; [|reflexivity|discriminate|exact T].
  unfold cJSON_GetObjectItem.
  destruct (child c) as [|e]; [exfalso; apply C; reflexivity|].
  rewrite siblings_Ptr in Ep. apply Forall_cons_iff in Ep. destruct Ep as [U _].
  unfold unkeyed in U. destruct e as [en ec et ev ei ed es]. cbn in U. subst es.
  reflexivity.
Qed.

(** X22: whatever the text, when [cJSON_Parse] returns an Array that has an
    element, [cJSON_GetObjectItem] on it reads the key of the first
    element, which is null, and hands it to [strcmp]: the lookup is a read
    through a null pointer, for every name. *)
Theorem lookup_in_array_is_undefined (refused : nat -> bool) (value name : option cstr)
    (a : cJSON) (h h1 g : heap) :
  cJSON_Parse refused value h = Val (Ptr a) h1 ->
  Z.land (type a) 255 = cJSON_Array -> child a <> NULL ->
  cJSON_GetObjectItem (Ptr a) name g = Fault.
Proof. exact (parsed_array_lookup refused value name a h h1 g). Qed.

Lemma lookup_in_array_is_undefined_witness :
  cJSON_GetObjectItem
    (Ptr (mkJSON NULL (Ptr (mkJSON (Ptr (mkJSON NULL NULL cJSON_String (Some (lit "b")) 0 0 None))
                              NULL cJSON_Number None 1 1 None))
            cJSON_Array None 0 0 None))
    (Some (lit "error")) h0 = Fault.
Proof.
  apply (lookup_in_array_is_undefined never (Some (json "[1, 'b']")) (Some (lit "error"))
           _ h0 (mkHeap 3 1 4) h0).
  - vm_compute. reflexivity.
  - reflexivity.
  - discriminate.
Defined.

(** ** Replies that are arrays *)


Section Arrays.

Variable slist : Type.
Variable curl_slist_append : option slist -> cstr -> option slist.
Variable curl_easy_strerror : Z -> cstr.


End Arrays.


(** ** Transfers that fail *)

Section Failures.

Variable slist : Type.
Variable curl_slist_append : option slist -> cstr -> option slist.
Variable curl_easy_strerror : Z -> cstr.


End Failures.


(** ** White space before the value *)




(** ** Replies that are not JSON *)




Section NotJSON.

Variable slist : Type.
Variable curl_slist_append : option slist -> cstr -> option slist.
Variable curl_easy_strerror : Z -> cstr.


End NotJSON.

